(** * MiniScript adaptive JIT layer: profiler, fingerprinting, region cache and
    dispatcher, embedded from the C++ sources

    Sources embedded here:
    - [ExpressionProfiler.h]      (ExpressionProfile, ExpressionFingerprinter,
                                   CompilationThresholds, ExpressionProfiler)
    - [MiniScriptJIT.cpp]         (SimpleTACLine, SimpleExpression,
                                   MiniScriptJIT::compileExpression, generateLLVMIR)
    - [MiniScript-cpp/src/RuntimeJIT.cpp]  (RuntimeJIT, JITIntegration)
    - [MiniScript-cpp/src/JITMachine.cpp]  (JITMachine::ExecuteWithJITOrFallback,
                                            HasHotPaths, ShouldConsiderJIT, Step,
                                            SetJITEnabled, ClearJITCache)
    - [MiniScript-cpp/src/RuntimeJIT.cpp]  (RuntimeJITObject and the JITMachine
                                            derived from TAC::Machine)
    - [MiniScript-cpp/src/MiniScript/Dictionary.h]  (hashUInt, hashInt, table
                                            sizes, Dictionary, DictIterator)
    - [ProfilerTest.cpp]          (InterpreterSimulator::executeExpression)
    - [SimpleExpressionJIT.cpp]   (ExpressionNode, SimpleExpressionJIT)
    - [AdvancedJIT.cpp]           (OptimizedExpressions, BytecodeJIT)
    - [testing/jit-development/SpecializedInstructions.cpp]
                                  (TypeInferenceEngine)
    - [testing/jit-development/simple_pool_test.cpp]  (SimplePool)

    Conventions.
    - [uint64_t], [size_t], [uintptr_t] are [Z] with the wrap-around modulo 2^64
      written out; [uint32_t] wraps modulo 2^32; [long] and [int] are [Z]
      (signed overflow is undefined in C++, so no wrap is modelled).
    - [double] is IEEE 754 binary64, as [spec_float] with [prec = 53] and
      [emax = 1024]; arithmetic is the Standard Library's executable
      specification ([SFadd], [SFmul], [SFdiv], [SFltb]), rounding to nearest even.
    - [std::unordered_map] is a [gmap]; [std::string] is [string].
    - Clock readings are explicit arguments of the operation that reads the clock.
    - A method that holds [mutex_] is a function of the object; [Interleaved]
      takes [compileContextRange], which releases the lock half-way, one
      critical section at a time.
    - Output to [std::cout] is not part of the state. *)

From Stdlib Require Import ZArith Lia Strings.Ascii.
From Stdlib Require Import Floats.PrimFloat Floats.FloatOps Floats.SpecFloat.
From stdpp Require Import gmap strings pretty list.

#[local] Set Warnings "-inexact-float".
#[local] Open Scope Z_scope.

(* ===================================================================== *)
(** * Machine arithmetic *)
(* ===================================================================== *)

Definition wrap64 (z : Z) : Z := z mod 2 ^ 64.
Definition wrap32 (z : Z) : Z := z mod 2 ^ 32.

(** ** binary64 *)
Module Double.

Definition prec : Z := 53.
Definition emax : Z := 1024.

Definition double : Type := spec_float.

(** A decimal literal of the source denotes the nearest binary64 value. *)
Definition lit (f : float) : double := Prim2SF f.

Definition add : double -> double -> double := SFadd prec emax.
Definition sub : double -> double -> double := SFsub prec emax.
Definition mul : double -> double -> double := SFmul prec emax.
Definition div : double -> double -> double := SFdiv prec emax.

(** [a < b], [a > b] on doubles: false as soon as one side is a NaN. *)
Definition ltb (a b : double) : bool := SFltb a b.
Definition gtb (a b : double) : bool := SFltb b a.
Definition leb (a b : double) : bool := SFleb a b.

(** [static_cast<double>(n)] for an unsigned integer n. *)
Definition of_uint (n : Z) : double := binary_normalize prec emax n 0 false.

(** Truncation toward zero, the value a conversion to an integer type keeps. *)
Definition trunc (d : double) : option Z :=
  match d with
  | S754_zero _ => Some 0
  | S754_finite s m e =>
      let v := Z.shiftl (Zpos m) e in Some (if s then - v else v)
  | S754_infinity _ | S754_nan => None
  end.

(** [static_cast<uint64_t>(d)]. The conversion is undefined in C++ when the
    truncated value is not representable; those inputs are sent to 0 here
    (lemma [adjustThresholds_cast_in_range] shows the one cast of the profiler
    stays in range on every reachable state). *)
Definition to_uint64 (d : double) : Z :=
  match trunc d with
  | Some v => if (0 <=? v) && (v <? 2 ^ 64) then v else 0
  | None => 0
  end.

(** [static_cast<long>(d)], with the same convention outside the range. *)
Definition to_long (d : double) : Z :=
  match trunc d with
  | Some v => if (- 2 ^ 63 <=? v) && (v <? 2 ^ 63) then v else 0
  | None => 0
  end.

(** [std::max(a, b)] is [(a < b) ? b : a]; [std::min(a, b)] is [(b < a) ? b : a]. *)
Definition max (a b : double) : double := if ltb a b then b else a.
Definition min (a b : double) : double := if ltb b a then b else a.

(** The positive normal numbers: 53 significant bits. *)
Definition pos_normal (d : double) : Prop :=
  exists m e, d = S754_finite false m e /\ 2 ^ 52 <= Zpos m < 2 ^ 53.

End Double.

Abbreviation double := Double.double.

(** ** The platform
    What the C++ standard library leaves to the implementation, and the
    declarations of the host interpreter that are not part of these sources. *)
Class Platform := {
  (** [std::hash<std::string>], a [size_t]. *)
  hash_string : string -> Z;
  (** [std::hash<int>], a [size_t]. *)
  hash_int : Z -> Z;
  (** [operator<<(std::ostream&, double)] with the default format. *)
  stream_double : double -> string;
  (** [std::to_string(double)]. *)
  to_string_double : double -> string;
}.

(** A concrete platform for the worked examples: FNV-1a over the characters
    for strings, the identity for [int], and a mantissa/exponent rendering of
    doubles. *)
Fixpoint fnv1a (h : Z) (s : string) : Z :=
  match s with
  | EmptyString => h
  | String c s' =>
      fnv1a (wrap64 (Z.lxor h (Z.of_nat (Ascii.nat_of_ascii c)) * 1099511628211)) s'
  end.

Definition render_double (d : double) : string :=
  match d with
  | S754_zero s => if s then "-0" else "0"
  | S754_infinity s => if s then "-inf" else "inf"
  | S754_nan => "nan"
  | S754_finite s m e =>
      (if s then "-" else "") +:+ pretty (Zpos m) +:+ "p" +:+ pretty e
  end.

Definition example_platform : Platform := {|
  hash_string := fnv1a 14695981039346656037;
  hash_int := wrap64;
  stream_double := render_double;
  to_string_double := render_double;
|}.

(* ===================================================================== *)
(** * MiniScriptJIT.cpp: the simplified TAC model *)
(* ===================================================================== *)

Module SimpleTACLine.

Inductive Op :=
| ASSIGN | ADD | SUB | MUL | DIV | POW | LOAD_CONST | LOAD_VAR.

#[global] Instance Op_eq_dec : EqDecision Op.
Proof. solve_decision. Defined.

(** [static_cast<int>(op)]: the enumerators count from 0. *)
Definition to_int (o : Op) : Z :=
  match o with
  | ASSIGN => 0 | ADD => 1 | SUB => 2 | MUL => 3
  | DIV => 4 | POW => 5 | LOAD_CONST => 6 | LOAD_VAR => 7
  end.

Record t := mk {
  operation : Op;
  result : string;
  operandA : string;
  operandB : string;
  constant_value : double;
}.

(** The three constructors of the struct. *)
Definition make0 (op : Op) (res : string) : t :=
  mk op res "" "" (Double.lit 0.0).
Definition make2 (op : Op) (res a b : string) : t :=
  mk op res a b (Double.lit 0.0).
Definition makeC (op : Op) (res : string) (val : double) : t :=
  mk op res "" "" val.

End SimpleTACLine.

Record SimpleExpression := {
  instructions : list SimpleTACLine.t;
  input_variables : list string;
  output_variable : string;
}.

(* ===================================================================== *)
(** * ExpressionProfiler.h *)
(* ===================================================================== *)

(** ** ExpressionProfile *)

Inductive CompilationStatus :=
| NOT_ANALYZED      (* Never profiled *)
| INTERPRETER_ONLY  (* Not worth JIT compilation *)
| JIT_CANDIDATE     (* Should be JIT compiled *)
| JIT_COMPILED      (* Already compiled *)
| JIT_FAILED.       (* Compilation failed, use interpreter *)

#[global] Instance CompilationStatus_eq_dec : EqDecision CompilationStatus.
Proof. solve_decision. Defined.

Record ExpressionProfile := {
  execution_count : Z;             (* uint64_t *)
  total_execution_time_ns : Z;     (* uint64_t *)
  last_execution_time : Z;         (* uint64_t *)
  operation_count : Z;             (* uint32_t *)
  depth : Z;                       (* uint32_t *)
  has_complex_ops : bool;
  status : CompilationStatus;
  compilation_time_ns : Z;         (* uint64_t *)
  jit_execution_count : Z;         (* uint64_t *)
  jit_total_time_ns : Z;           (* uint64_t *)
}.

Definition getAverageExecutionTime (p : ExpressionProfile) : double :=
  let count := execution_count p in
  if count =? 0 then Double.lit 0.0
  else Double.div (Double.of_uint (total_execution_time_ns p)) (Double.of_uint count).

(** [now] is the reading of [high_resolution_clock] the call takes. *)
Definition getExecutionFrequency (p : ExpressionProfile) (now : Z) : double :=
  let last_exec := last_execution_time p in
  if last_exec =? 0 then Double.lit 0.0
  else
    let time_window := wrap64 (now - last_exec) in
    if time_window =? 0 then Double.lit 0.0
    else Double.div (Double.mul (Double.of_uint (execution_count p)) (Double.lit 1e9))
                    (Double.of_uint time_window).

(** ** ExpressionFingerprinter *)

(** The two function-local [static] variables of [normalizeVariable]: they
    live for the whole process and are shared by every call. *)
Record FingerprinterStatics := {
  var_map : gmap string string;
  next_var_id : Z;                 (* int *)
}.

Definition statics_init : FingerprinterStatics :=
  {| var_map := ∅; next_var_id := 0 |}.

Definition normalizeVariable (st : FingerprinterStatics) (var : string)
  : string * FingerprinterStatics :=
  match var_map st !! var with
  | Some normalized => (normalized, st)
  | None =>
      let normalized := "v" +:+ pretty (next_var_id st) in
      (normalized,
       {| var_map := <[var := normalized]> (var_map st);
          next_var_id := next_var_id st + 1 |})
  end.

Section Fingerprinter.
Context `{Platform}.

(** One iteration of the loop of [fingerprint]: [ss] is the contents of the
    string stream so far. *)
Definition fingerprint_step (acc : string * FingerprinterStatics)
    (instr : SimpleTACLine.t) : string * FingerprinterStatics :=
  let '(ss, st) := acc in
  let ss := ss +:+ pretty (SimpleTACLine.to_int (SimpleTACLine.operation instr)) +:+ ":" in
  let '(ss, st) :=
    if decide (SimpleTACLine.operandA instr = "") then (ss, st)
    else let '(n, st) := normalizeVariable st (SimpleTACLine.operandA instr) in
         (ss +:+ n +:+ ",", st) in
  let '(ss, st) :=
    if decide (SimpleTACLine.operandB instr = "") then (ss, st)
    else let '(n, st) := normalizeVariable st (SimpleTACLine.operandB instr) in
         (ss +:+ n +:+ ",", st) in
  let ss :=
    if decide (SimpleTACLine.operation instr = SimpleTACLine.LOAD_CONST)
    then ss +:+ stream_double (SimpleTACLine.constant_value instr) +:+ ","
    else ss in
  (ss +:+ ";", st).

(** The canonical representation [ss.str()] that is handed to the hasher. *)
Definition canonical (st : FingerprinterStatics) (instrs : list SimpleTACLine.t)
  : string * FingerprinterStatics :=
  fold_left fingerprint_step instrs ("", st).

Definition fingerprint (st : FingerprinterStatics) (instrs : list SimpleTACLine.t)
  : Z * FingerprinterStatics :=
  let '(ss, st) := canonical st instrs in (hash_string ss, st).

End Fingerprinter.

(** [calculateDepth]: the longest dependency chain. *)
Definition calculateDepth_step (acc : gmap string Z * Z) (instr : SimpleTACLine.t)
  : gmap string Z * Z :=
  let '(var_depths, max_depth) := acc in
  let current_depth := 1 in
  let current_depth :=
    if decide (SimpleTACLine.operandA instr = "") then current_depth
    else match var_depths !! SimpleTACLine.operandA instr with
         | Some d => Z.max current_depth (wrap32 (d + 1))
         | None => current_depth
         end in
  let current_depth :=
    if decide (SimpleTACLine.operandB instr = "") then current_depth
    else match var_depths !! SimpleTACLine.operandB instr with
         | Some d => Z.max current_depth (wrap32 (d + 1))
         | None => current_depth
         end in
  (<[SimpleTACLine.result instr := current_depth]> var_depths,
   Z.max max_depth current_depth).

Definition calculateDepth (instrs : list SimpleTACLine.t) : Z :=
  snd (fold_left calculateDepth_step instrs (∅, 0)).

(** [analyzeComplexity] returns its three out-parameters. *)
Definition analyzeComplexity (instrs : list SimpleTACLine.t) : Z * Z * bool :=
  (wrap32 (Z.of_nat (length instrs)),
   calculateDepth instrs,
   existsb (fun instr => bool_decide (SimpleTACLine.operation instr = SimpleTACLine.POW))
           instrs).

(** ** CompilationThresholds *)

Record CompilationThresholds := {
  min_execution_count : Z;              (* uint64_t *)
  min_execution_frequency : double;
  min_avg_execution_time_ns : double;
  max_complexity : Z;                   (* uint32_t *)
  max_compilation_time_ns : Z;          (* uint64_t *)
  min_speedup_factor : double;
  success_rate : double;
  average_speedup : double;
}.

Definition default_thresholds : CompilationThresholds := {|
  min_execution_count := 1000;
  min_execution_frequency := Double.lit 100.0;
  min_avg_execution_time_ns := Double.lit 10000.0;
  max_complexity := 50;
  max_compilation_time_ns := 50000000;
  min_speedup_factor := Double.lit 1.5;
  success_rate := Double.lit 0.0;
  average_speedup := Double.lit 0.0;
|}.

(** The two integer updates of [adjustThresholds]:
    [std::max(uint64_t(500), uint64_t(min_execution_count * 0.9))] and
    [std::min(uint64_t(5000), uint64_t(min_execution_count * 1.1))]. *)
Definition lower_count (c : Z) : Z :=
  Z.max 500 (Double.to_uint64 (Double.mul (Double.of_uint c) (Double.lit 0.9))).
Definition raise_count (c : Z) : Z :=
  Z.min 5000 (Double.to_uint64 (Double.mul (Double.of_uint c) (Double.lit 1.1))).

(** The two floating-point updates. *)
Definition lower_frequency (f : double) : double :=
  Double.max (Double.lit 50.0) (Double.mul f (Double.lit 0.9)).
Definition raise_frequency (f : double) : double :=
  Double.min (Double.lit 500.0) (Double.mul f (Double.lit 1.1)).

Definition adjustThresholds (t : CompilationThresholds)
    (recent_success_rate recent_speedup : double) : CompilationThresholds :=
  let alpha := Double.lit 0.1 in
  let success_rate' :=
    Double.add (Double.mul alpha recent_success_rate)
               (Double.mul (Double.sub (Double.lit 1.0) alpha) (success_rate t)) in
  let average_speedup' :=
    Double.add (Double.mul alpha recent_speedup)
               (Double.mul (Double.sub (Double.lit 1.0) alpha) (average_speedup t)) in
  let t := {| min_execution_count := min_execution_count t;
              min_execution_frequency := min_execution_frequency t;
              min_avg_execution_time_ns := min_avg_execution_time_ns t;
              max_complexity := max_complexity t;
              max_compilation_time_ns := max_compilation_time_ns t;
              min_speedup_factor := min_speedup_factor t;
              success_rate := success_rate';
              average_speedup := average_speedup' |} in
  if Double.gtb success_rate' (Double.lit 0.8) && Double.gtb average_speedup' (Double.lit 2.0)
  then
    {| min_execution_count := lower_count (min_execution_count t);
       min_execution_frequency := lower_frequency (min_execution_frequency t);
       min_avg_execution_time_ns := min_avg_execution_time_ns t;
       max_complexity := max_complexity t;
       max_compilation_time_ns := max_compilation_time_ns t;
       min_speedup_factor := min_speedup_factor t;
       success_rate := success_rate';
       average_speedup := average_speedup' |}
  else if Double.ltb success_rate' (Double.lit 0.5) || Double.ltb average_speedup' (Double.lit 1.2)
  then
    {| min_execution_count := raise_count (min_execution_count t);
       min_execution_frequency := raise_frequency (min_execution_frequency t);
       min_avg_execution_time_ns := min_avg_execution_time_ns t;
       max_complexity := max_complexity t;
       max_compilation_time_ns := max_compilation_time_ns t;
       min_speedup_factor := min_speedup_factor t;
       success_rate := success_rate';
       average_speedup := average_speedup' |}
  else t.

(** ** ExpressionProfiler *)

Record ExpressionProfiler := {
  profiles : gmap Z ExpressionProfile;     (* keyed by fingerprint *)
  thresholds : CompilationThresholds;
  total_profiles : Z;                      (* uint64_t *)
  jit_candidates : Z;                      (* uint64_t *)
  successful_compilations : Z;             (* uint64_t *)
  failed_compilations : Z;                 (* uint64_t *)
}.

Definition new_profiler : ExpressionProfiler := {|
  profiles := ∅;
  thresholds := default_thresholds;
  total_profiles := 0; jit_candidates := 0;
  successful_compilations := 0; failed_compilations := 0;
|}.

(** The process: the statics of the fingerprinter and one profiler object. *)
Record World := {
  statics : FingerprinterStatics;
  profiler : ExpressionProfiler;
}.

Definition world_init : World :=
  {| statics := statics_init; profiler := new_profiler |}.

(** Field updates of a profile. *)
Definition record_run (p : ExpressionProfile) (execution_time_ns now : Z)
  : ExpressionProfile := {|
  execution_count := wrap64 (execution_count p + 1);
  total_execution_time_ns := wrap64 (total_execution_time_ns p + execution_time_ns);
  last_execution_time := wrap64 now;
  operation_count := operation_count p; depth := depth p;
  has_complex_ops := has_complex_ops p;
  status := status p; compilation_time_ns := compilation_time_ns p;
  jit_execution_count := jit_execution_count p;
  jit_total_time_ns := jit_total_time_ns p;
|}.

Definition set_status (p : ExpressionProfile) (s : CompilationStatus)
  : ExpressionProfile := {|
  execution_count := execution_count p;
  total_execution_time_ns := total_execution_time_ns p;
  last_execution_time := last_execution_time p;
  operation_count := operation_count p; depth := depth p;
  has_complex_ops := has_complex_ops p;
  status := s; compilation_time_ns := compilation_time_ns p;
  jit_execution_count := jit_execution_count p;
  jit_total_time_ns := jit_total_time_ns p;
|}.

Definition set_compilation_time (p : ExpressionProfile) (t : Z)
  : ExpressionProfile := {|
  execution_count := execution_count p;
  total_execution_time_ns := total_execution_time_ns p;
  last_execution_time := last_execution_time p;
  operation_count := operation_count p; depth := depth p;
  has_complex_ops := has_complex_ops p;
  status := status p; compilation_time_ns := t;
  jit_execution_count := jit_execution_count p;
  jit_total_time_ns := jit_total_time_ns p;
|}.

Definition record_jit_run (p : ExpressionProfile) (execution_time_ns : Z)
  : ExpressionProfile := {|
  execution_count := execution_count p;
  total_execution_time_ns := total_execution_time_ns p;
  last_execution_time := last_execution_time p;
  operation_count := operation_count p; depth := depth p;
  has_complex_ops := has_complex_ops p;
  status := status p; compilation_time_ns := compilation_time_ns p;
  jit_execution_count := wrap64 (jit_execution_count p + 1);
  jit_total_time_ns := wrap64 (jit_total_time_ns p + execution_time_ns);
|}.

(** Field updates of the profiler. *)
Definition with_profiles (pr : ExpressionProfiler) (m : gmap Z ExpressionProfile)
  : ExpressionProfiler := {|
  profiles := m; thresholds := thresholds pr;
  total_profiles := total_profiles pr; jit_candidates := jit_candidates pr;
  successful_compilations := successful_compilations pr;
  failed_compilations := failed_compilations pr;
|}.

Definition with_thresholds (pr : ExpressionProfiler) (t : CompilationThresholds)
  : ExpressionProfiler := {|
  profiles := profiles pr; thresholds := t;
  total_profiles := total_profiles pr; jit_candidates := jit_candidates pr;
  successful_compilations := successful_compilations pr;
  failed_compilations := failed_compilations pr;
|}.

(** [getOrCreateProfile]: the profile the returned pointer designates, and the
    profiler in which it is stored under [fingerprint]. *)
Definition getOrCreateProfile (pr : ExpressionProfiler) (fingerprint : Z)
    (expr : SimpleExpression) : ExpressionProfile * ExpressionProfiler :=
  match profiles pr !! fingerprint with
  | Some p => (p, pr)
  | None =>
      let '(oc, d, cx) := analyzeComplexity (instructions expr) in
      let p := {| execution_count := 0; total_execution_time_ns := 0;
                  last_execution_time := 0;
                  operation_count := oc; depth := d; has_complex_ops := cx;
                  status := NOT_ANALYZED; compilation_time_ns := 0;
                  jit_execution_count := 0; jit_total_time_ns := 0 |} in
      (p, {| profiles := <[fingerprint := p]> (profiles pr);
             thresholds := thresholds pr;
             total_profiles := wrap64 (total_profiles pr + 1);
             jit_candidates := jit_candidates pr;
             successful_compilations := successful_compilations pr;
             failed_compilations := failed_compilations pr |})
  end.

(** [analyzeForCompilation]: the new status of the profile and the new value of
    the [jit_candidates] counter. [now] is the clock reading taken by
    [getExecutionFrequency]. *)
Definition analyzeForCompilation (t : CompilationThresholds) (jit_candidates : Z)
    (profile : ExpressionProfile) (now : Z) : CompilationStatus * Z :=
  let count := execution_count profile in
  let freq := getExecutionFrequency profile now in
  let avg_time := getAverageExecutionTime profile in
  if count <? min_execution_count t then (status profile, jit_candidates)
  else if Double.ltb freq (min_execution_frequency t)
    then (INTERPRETER_ONLY, jit_candidates)
  else if Double.ltb avg_time (min_avg_execution_time_ns t)
    then (INTERPRETER_ONLY, jit_candidates)
  else if max_complexity t <? operation_count profile
    then (INTERPRETER_ONLY, jit_candidates)
  else (JIT_CANDIDATE, wrap64 (jit_candidates + 1)).

Section Profiler.
Context `{Platform}.

(** [recordExecution]: [now] is the clock reading stored in the profile, [now']
    the later reading that the candidacy analysis takes. *)
Definition recordExecution (w : World) (expr : SimpleExpression)
    (execution_time_ns now now' : Z) : World :=
  let '(fp, st) := fingerprint (statics w) (instructions expr) in
  let '(profile, pr) := getOrCreateProfile (profiler w) fp expr in
  let profile := record_run profile execution_time_ns now in
  let '(s, jc) :=
    if decide (status profile = NOT_ANALYZED)
    then analyzeForCompilation (thresholds pr) (jit_candidates pr) profile now'
    else (status profile, jit_candidates pr) in
  {| statics := st;
     profiler := {| profiles := <[fp := set_status profile s]> (profiles pr);
                    thresholds := thresholds pr;
                    total_profiles := total_profiles pr;
                    jit_candidates := jc;
                    successful_compilations := successful_compilations pr;
                    failed_compilations := failed_compilations pr |} |}.

Definition shouldCompile (w : World) (expr : SimpleExpression) : bool * World :=
  let '(fp, st) := fingerprint (statics w) (instructions expr) in
  let w' := {| statics := st; profiler := profiler w |} in
  match profiles (profiler w) !! fp with
  | None => (false, w')
  | Some p => (bool_decide (status p = JIT_CANDIDATE), w')
  end.

Definition recordCompilation (w : World) (expr : SimpleExpression)
    (success : bool) (compilation_time_ns : Z) : World :=
  let '(fp, st) := fingerprint (statics w) (instructions expr) in
  let pr := profiler w in
  match profiles pr !! fp with
  | None => {| statics := st; profiler := pr |}
  | Some profile =>
      let profile := set_compilation_time profile compilation_time_ns in
      if success then
        {| statics := st;
           profiler := {| profiles := <[fp := set_status profile JIT_COMPILED]> (profiles pr);
                          thresholds := thresholds pr;
                          total_profiles := total_profiles pr;
                          jit_candidates := jit_candidates pr;
                          successful_compilations := wrap64 (successful_compilations pr + 1);
                          failed_compilations := failed_compilations pr |} |}
      else
        {| statics := st;
           profiler := {| profiles := <[fp := set_status profile JIT_FAILED]> (profiles pr);
                          thresholds := thresholds pr;
                          total_profiles := total_profiles pr;
                          jit_candidates := jit_candidates pr;
                          successful_compilations := successful_compilations pr;
                          failed_compilations := wrap64 (failed_compilations pr + 1) |} |}
  end.

Definition recordJITExecution (w : World) (expr : SimpleExpression)
    (execution_time_ns : Z) : World :=
  let '(fp, st) := fingerprint (statics w) (instructions expr) in
  let pr := profiler w in
  match profiles pr !! fp with
  | None => {| statics := st; profiler := pr |}
  | Some profile =>
      {| statics := st;
         profiler := with_profiles pr
                       (<[fp := record_jit_run profile execution_time_ns]> (profiles pr)) |}
  end.

End Profiler.

(** The body of the loop of [updateThresholds] for one profile: the running
    [total_speedup] and [speedup_samples]. *)
Definition speedup_step (acc : double * Z) (profile : ExpressionProfile) : double * Z :=
  let '(total_speedup, speedup_samples) := acc in
  if bool_decide (status profile = JIT_COMPILED)
     && (0 <? jit_execution_count profile) && (0 <? execution_count profile)
  then
    let interpreter_avg := getAverageExecutionTime profile in
    let jit_avg := Double.div (Double.of_uint (jit_total_time_ns profile))
                              (Double.of_uint (jit_execution_count profile)) in
    if Double.gtb jit_avg (Double.lit 0.0)
    then (Double.add total_speedup (Double.div interpreter_avg jit_avg), speedup_samples + 1)
    else acc
  else acc.

(** [updateThresholds]. [order] is the order in which the loop enumerates
    [profiles] (a permutation of its entries, which the standard library
    chooses): floating-point addition makes [total_speedup] depend on it. *)
Definition updateThresholds (pr : ExpressionProfiler)
    (order : list (Z * ExpressionProfile)) : ExpressionProfiler :=
  let total_attempts := wrap64 (successful_compilations pr + failed_compilations pr) in
  if total_attempts =? 0 then pr
  else
    let success_rate := Double.div (Double.of_uint (successful_compilations pr))
                                   (Double.of_uint total_attempts) in
    let '(total_speedup, speedup_samples) :=
      fold_left speedup_step (snd <$> order) (Double.lit 0.0, 0) in
    let avg_speedup :=
      if 0 <? speedup_samples
      then Double.div total_speedup (Double.of_uint speedup_samples)
      else Double.lit 1.0 in
    with_thresholds pr (adjustThresholds (thresholds pr) success_rate avg_speedup).

(** The public operations of the profiler, as a caller can issue them. *)
Inductive ProfilerOp :=
| RecordExecution (expr : SimpleExpression) (execution_time_ns now now' : Z)
| ShouldCompile (expr : SimpleExpression)
| RecordCompilation (expr : SimpleExpression) (success : bool) (compilation_time_ns : Z)
| RecordJITExecution (expr : SimpleExpression) (execution_time_ns : Z)
| UpdateThresholds (order : list (Z * ExpressionProfile)).

Definition apply_op `{Platform} (w : World) (op : ProfilerOp) : World :=
  match op with
  | RecordExecution expr t now now' => recordExecution w expr t now now'
  | ShouldCompile expr => snd (shouldCompile w expr)
  | RecordCompilation expr success t => recordCompilation w expr success t
  | RecordJITExecution expr t => recordJITExecution w expr t
  | UpdateThresholds order =>
      {| statics := statics w; profiler := updateThresholds (profiler w) order |}
  end.

Definition run_ops `{Platform} (w : World) (ops : list ProfilerOp) : World :=
  fold_left apply_op ops w.

(** The status recorded for a fingerprint, if it has a profile. *)
Definition status_of (w : World) (fp : Z) : option CompilationStatus :=
  status <$> profiles (profiler w) !! fp.

(* ===================================================================== *)
(** * The host interpreter, as far as the JIT layer reads it *)
(* ===================================================================== *)

(** Modelled from the spec: the host's [TACLine], [Value] and [Context]
    (MiniscriptTAC.h and MiniscriptTypes.h are not part of these sources; §6 of
    the specification lists them as consumed from the interpreter core: "a TAC
    instruction type with fields (operator, result, operandA, operandB)" and "a
    context abstraction exposing current_line(), instruction_at(line)"). Only the
    members that RuntimeJIT.cpp and JITMachine.cpp read are kept. *)
Module TACLine.

(** The enumerators the JIT sources name; [OtherOp] stands for the others. *)
Inductive Op :=
| AssignA | APlusB | AMinusB | ATimesB | ADividedByB | AModB | APowB
| AEqualB | ANotEqualB | AGreaterThanB | AGreatOrEqualB | ALessThanB | ALessOrEqualB
| AAndB | AOrB | NotA
| GotoA | GotoAifB | GotoAifTrulyB | GotoAifNotB
| CallFunctionA | ReturnA
| OtherOp (code : Z).

#[global] Instance Op_eq_dec : EqDecision Op.
Proof. solve_decision. Defined.

End TACLine.

Inductive Value :=
| VNull
| VNumber (numberValue : double)
| VString (s : string)
| VVar (identifier : string)
| VTemp (tempNum : Z)
| VOther (ref : Z).          (* any other type, with the address [data.ref] *)

Record MSTACLine := {
  op : TACLine.Op;
  lhs : Value;
  rhsA : Value;
  rhsB : Value;
}.

(** A [Context*] is the address of the context ([0] is [nullptr]); the context
    itself holds the code and the current line. *)
Record Context := {
  code : list MSTACLine;
  lineNum : Z;                 (* long *)
}.

(** [code.Count()]. *)
Definition Count (c : Context) : Z := Z.of_nat (length (code c)).

(** [code[i]] for [0 <= i < Count]; an index below 0 designates no element. *)
Definition code_at (c : Context) (i : Z) : option MSTACLine :=
  if i <? 0 then None else code c !! Z.to_nat i.

(** The lines [startLine .. min(endLine, Count - 1)] that the two loops
    [for (long i = startLine; i <= endLine && i < Count; ++i)] visit. *)
Definition lines_of_range (c : Context) (startLine endLine : Z) : list Z :=
  let last := Z.min endLine (Count c - 1) in
  (fun k => startLine + Z.of_nat k) <$> seq 0 (Z.to_nat (last - startLine + 1)).

(** What the host and LLVM decide. *)
Class Host := {
  (** [static_cast<int>(op)] for the host's enumeration. *)
  op_to_int : TACLine.Op -> Z;
  (** [Value::ToString()] for strings and variables. *)
  Value_ToString : Value -> string;
  (** [Value::IntValue()]. *)
  Value_IntValue : Value -> Z;
  (** [List::SubList(from, count)] on the code of a context. *)
  SubList : list MSTACLine -> Z -> Z -> list MSTACLine;
}.

(* ===================================================================== *)
(** * AdvancedIRGenerator.h: the standard TAC handed to the code generator *)
(* ===================================================================== *)

Module IR.

Inductive Op :=
| AssignOp | OpAdd | OpSubtract | OpMultiply | OpDivide | OpMod | OpPower
| OpEqual | OpNotEqual | OpGreater | OpGreatEqual | OpLess | OpLessEqual
| OpAnd | OpOr | OpNot | CallOp | ReturnOp | JumpOp | JumpIfFalse | LabelOp.

Record TACLine := mk {
  op : Op;
  lhs : string;
  rhsA : string;
  rhsB : string;
}.

End IR.

(** An [llvm::Function*]: [None] is [nullptr]. *)
Definition FunctionPtr : Type := option Z.

(** The outcome of one call of the code generator. *)
Inductive Generated :=
| Returned (f : FunctionPtr)
| Thrown.                      (* a [std::exception] *)

(** The code generator [AdvancedIRGenerator] is an external collaborator: a
    state (the LLVM module it fills) and the function [generateFunction]. *)
Class CodeGenerator := {
  GenState : Type;
  generateFunction : GenState -> list IR.TACLine -> string -> Generated * GenState;
}.

(* ===================================================================== *)
(** * RuntimeJIT.cpp *)
(* ===================================================================== *)

(** ** JITIntegration *)
Module JITIntegration.

Definition convertOperation (msOp : TACLine.Op) : IR.Op :=
  match msOp with
  | TACLine.AssignA => IR.AssignOp
  | TACLine.APlusB => IR.OpAdd
  | TACLine.AMinusB => IR.OpSubtract
  | TACLine.ATimesB => IR.OpMultiply
  | TACLine.ADividedByB => IR.OpDivide
  | TACLine.AModB => IR.OpMod
  | TACLine.APowB => IR.OpPower
  | TACLine.AEqualB => IR.OpEqual
  | TACLine.ANotEqualB => IR.OpNotEqual
  | TACLine.AGreaterThanB => IR.OpGreater
  | TACLine.AGreatOrEqualB => IR.OpGreatEqual
  | TACLine.ALessThanB => IR.OpLess
  | TACLine.ALessOrEqualB => IR.OpLessEqual
  | TACLine.AAndB => IR.OpAnd
  | TACLine.AOrB => IR.OpOr
  | TACLine.NotA => IR.OpNot
  | TACLine.CallFunctionA => IR.CallOp
  | TACLine.ReturnA => IR.ReturnOp
  | TACLine.GotoA => IR.JumpOp
  | _ => IR.AssignOp
  end.

Definition valueToString `{Platform} `{Host} (val : Value) : string :=
  match val with
  | VNull => ""
  | VNumber d => "num_" +:+ to_string_double d
  | VString _ => "str_" +:+ Value_ToString val
  | VVar _ => Value_ToString val
  | VTemp tempNum => "temp_" +:+ pretty tempNum
  | VOther ref => "val_" +:+ pretty ref
  end.

Definition isJITCompilable (o : TACLine.Op) : bool :=
  match o with
  | TACLine.AssignA | TACLine.APlusB | TACLine.AMinusB | TACLine.ATimesB
  | TACLine.ADividedByB | TACLine.AModB | TACLine.APowB
  | TACLine.AEqualB | TACLine.ANotEqualB | TACLine.AGreaterThanB
  | TACLine.AGreatOrEqualB | TACLine.ALessThanB | TACLine.ALessOrEqualB
  | TACLine.AAndB | TACLine.AOrB | TACLine.NotA
  | TACLine.GotoA | TACLine.GotoAifB => true
  | _ => false
  end.

(** [containsHotPaths]: a [GotoA] or [GotoAifB] at line [i] whose numeric
    target is below [i]. *)
Definition containsHotPaths `{Host} (context : Context) : bool :=
  existsb (fun '(i, line) =>
             match op line with
             | TACLine.GotoA | TACLine.GotoAifB =>
                 match rhsA line with
                 | VNumber _ => Value_IntValue (rhsA line) <? Z.of_nat i
                 | _ => false
                 end
             | _ => false
             end)
          (imap (fun i line => (i, line)) (code context)).

End JITIntegration.

(** ** RuntimeJIT *)

Record CompiledRegion := {
  function : FunctionPtr;
  startLine : Z;               (* long *)
  endLine : Z;                 (* long *)
  region_fingerprint : string;
  compilationTime : double;
  executionCount : Z;          (* size_t *)
}.

Record RuntimeStats := {
  totalInstructions : Z;
  jitCompiledInstructions : Z;
  jitExecutions : Z;
  interpreterExecutions : Z;
  jitCompilationTime : double;
  jitExecutionTime : double;
  interpreterExecutionTime : double;
}.

Record RuntimeJIT `{CodeGenerator} := {
  irGenerator_ : GenState;
  compiledRegions_ : gmap string CompiledRegion;
  stats_ : RuntimeStats;
}.

(** What a call does besides changing the state: the calls it makes to the
    code generator and to compiled code, in order. *)
Inductive Event :=
| EvGenerate (functionName : string) (tac : list IR.TACLine)
| EvExecute (fingerprint : string) (f : FunctionPtr).

Section RuntimeJIT.
Context `{Platform} `{Host} `{CodeGenerator}.

(** One iteration of the hash loop, on [size_t]. *)
Definition opHash_step (opHash : Z) (line : MSTACLine) : Z :=
  Z.lxor opHash
    (wrap64 (hash_int (op_to_int (op line)) + 0x9e3779b9
             + wrap64 (Z.shiftl opHash 6) + Z.shiftr opHash 2)).

(** The instructions of the lines [startLine .. min(endLine, Count - 1)]. *)
Definition range_code (context : Context) (startLine endLine : Z) : list MSTACLine :=
  omap (code_at context) (lines_of_range context startLine endLine).

(** [generateContextFingerprint]; [ctx] is the value of the pointer. *)
Definition generateContextFingerprint (ctx : Z) (context : Context)
    (startLine endLine : Z) : string :=
  let opHash := fold_left opHash_step (range_code context startLine endLine) 0 in
  "ctx_" +:+ pretty ctx +:+ "_lines_" +:+ pretty startLine +:+ "_" +:+ pretty endLine
  +:+ "_hash_" +:+ pretty opHash.

Definition convertToStandardTAC (msLine : MSTACLine) : IR.TACLine :=
  IR.mk (JITIntegration.convertOperation (op msLine))
        (JITIntegration.valueToString (lhs msLine))
        (JITIntegration.valueToString (rhsA msLine))
        (JITIntegration.valueToString (rhsB msLine)).

Definition extractTACSequence (context : Context) (startLine endLine : Z)
  : list IR.TACLine :=
  convertToStandardTAC <$> range_code context startLine endLine.

Definition isCompilableSequence (sequence : list MSTACLine) : bool :=
  if decide (sequence = []) then false
  else forallb (fun line => JITIntegration.isJITCompilable (op line)) sequence.

(** [compileContextRange]. [elapsed] is the reading of the compilation timer
    that the success path takes. The result is the returned [bool], the state
    after the call and the calls made to the code generator. *)
Definition compileContextRange (jit : RuntimeJIT) (ctx : Z) (context : Context)
    (startLine endLine : Z) (elapsed : double) : bool * RuntimeJIT * list Event :=
  let fingerprint := generateContextFingerprint ctx context startLine endLine in
  match compiledRegions_ jit !! fingerprint with
  | Some _ => (true, jit, [])                       (* Already compiled *)
  | None =>
      let tacSequence := extractTACSequence context startLine endLine in
      if negb (isCompilableSequence (SubList (code context) startLine (endLine - startLine + 1)))
      then (false, jit, [])
      else
        let functionName := "jit_context_" +:+ fingerprint in
        let '(outcome, gen) := generateFunction (irGenerator_ jit) tacSequence functionName in
        let jit := {| irGenerator_ := gen;
                      compiledRegions_ := compiledRegions_ jit;
                      stats_ := stats_ jit |} in
        match outcome with
        | Thrown => (false, jit, [EvGenerate functionName tacSequence])
        | Returned None => (false, jit, [EvGenerate functionName tacSequence])
        | Returned (Some f) =>
            let region := {| function := Some f;
                             startLine := startLine; endLine := endLine;
                             region_fingerprint := fingerprint;
                             compilationTime := elapsed;
                             executionCount := 0 |} in
            let s := stats_ jit in
            (true,
             {| irGenerator_ := gen;
                compiledRegions_ := <[fingerprint := region]> (compiledRegions_ jit);
                stats_ := {| totalInstructions := totalInstructions s;
                             jitCompiledInstructions :=
                               wrap64 (jitCompiledInstructions s + (endLine - startLine + 1));
                             jitExecutions := jitExecutions s;
                             interpreterExecutions := interpreterExecutions s;
                             jitCompilationTime := Double.add (jitCompilationTime s) elapsed;
                             jitExecutionTime := jitExecutionTime s;
                             interpreterExecutionTime := interpreterExecutionTime s |} |},
             [EvGenerate functionName tacSequence])
        end
  end.

(** The scan of [executeJITOrFallback] for the region to run: [best] is the
    pair [(bestFingerprint, *bestRegion)] so far. *)
Definition best_step (currentLine : Z) (best : option (string * CompiledRegion))
    (entry : string * CompiledRegion) : option (string * CompiledRegion) :=
  let '(fingerprint, region) := entry in
  if (startLine region <=? currentLine) && (currentLine <=? endLine region) then
    match best with
    | None => Some (fingerprint, region)
    | Some (_, bestRegion) =>
        if endLine bestRegion - startLine bestRegion <? endLine region - startLine region
        then Some (fingerprint, region)
        else best
    end
  else best.

Definition find_best (order : list (string * CompiledRegion)) (currentLine : Z)
  : option (string * CompiledRegion) :=
  fold_left (best_step currentLine) order None.

(** [executeCompiledFunction]: the simulated execution succeeds as soon as
    both pointers are set. *)
Definition executeCompiledFunction (f : FunctionPtr) (ctx : Z) : bool :=
  match f with
  | None => false
  | Some _ => negb (ctx =? 0)
  end.

(** [executeJITOrFallback]. [order] is the order in which the loop enumerates
    [compiledRegions_] (a permutation of its entries, which the standard
    library chooses); [elapsed] is the reading of the execution timer. The
    result is the returned [bool], the state, the value left in [currentLine]
    and the compiled function that was called, if any. *)
Definition executeJITOrFallback (jit : RuntimeJIT)
    (order : list (string * CompiledRegion)) (ctx : Z) (currentLine : Z)
    (elapsed : double) : bool * RuntimeJIT * Z * list Event :=
  let s := stats_ jit in
  let fallback (evs : list Event) :=
    (false,
     {| irGenerator_ := irGenerator_ jit;
        compiledRegions_ := compiledRegions_ jit;
        stats_ := {| totalInstructions := totalInstructions s;
                     jitCompiledInstructions := jitCompiledInstructions s;
                     jitExecutions := jitExecutions s;
                     interpreterExecutions := wrap64 (interpreterExecutions s + 1);
                     jitCompilationTime := jitCompilationTime s;
                     jitExecutionTime := jitExecutionTime s;
                     interpreterExecutionTime :=
                       Double.add (interpreterExecutionTime s) elapsed |} |},
     currentLine, evs) in
  match find_best order currentLine with
  | Some (bestFingerprint, bestRegion) =>
      match function bestRegion with
      | Some f =>
          let success := executeCompiledFunction (function bestRegion) ctx in
          let evs := [EvExecute bestFingerprint (function bestRegion)] in
          if success then
            (true,
             {| irGenerator_ := irGenerator_ jit;
                compiledRegions_ :=
                  <[bestFingerprint :=
                      {| function := function bestRegion;
                         startLine := startLine bestRegion;
                         endLine := endLine bestRegion;
                         region_fingerprint := region_fingerprint bestRegion;
                         compilationTime := compilationTime bestRegion;
                         executionCount := wrap64 (executionCount bestRegion + 1) |}]>
                    (compiledRegions_ jit);
                stats_ := {| totalInstructions := totalInstructions s;
                             jitCompiledInstructions := jitCompiledInstructions s;
                             jitExecutions := wrap64 (jitExecutions s + 1);
                             interpreterExecutions := interpreterExecutions s;
                             jitCompilationTime := jitCompilationTime s;
                             jitExecutionTime := Double.add (jitExecutionTime s) elapsed;
                             interpreterExecutionTime := interpreterExecutionTime s |} |},
             endLine bestRegion + 1, evs)
          else fallback evs
      | None => fallback []
      end
  | None => fallback []
  end.

End RuntimeJIT.

(* ===================================================================== *)
(** * JITMachine.cpp: the dispatcher built by composition *)
(* ===================================================================== *)

Module JITMachine.

Record ExecutionProfile := {
  contextExecutionCounts : gmap Z Z;     (* Context* -> size_t *)
  lineExecutionCounts : gmap Z Z;        (* long -> size_t *)
  lastProfileUpdate : Z;                 (* steady_clock, in nanoseconds *)
}.

(** [jit_] is a [unique_ptr<RuntimeJIT>]: only whether it is set is read. *)
Record t := {
  jit_ : bool;
  jitEnabled_ : bool;
  profile_ : ExecutionProfile;
}.

(** The state the constructor leaves: the creation of [jit_] is commented out
    in the source, so the pointer is empty. *)
Definition constructed : t := {|
  jit_ := false;
  jitEnabled_ := true;
  profile_ := {| contextExecutionCounts := ∅; lineExecutionCounts := ∅;
                 lastProfileUpdate := 0 |};
|}.

(** What one call does besides changing the fields. *)
Inductive Event :=
| EvMachineStep                                     (* machine_->Step() *)
| EvCompileContextRange (startLine endLine : Z).    (* CompileContextRange(...) *)

Definition counter (m : gmap Z Z) (k : Z) : Z := default 0 (m !! k).

Definition UpdateExecutionProfile (jm : t) (ctx : Z) (lineNum : Z) (now : Z) : t :=
  let p := profile_ jm in
  {| jit_ := jit_ jm; jitEnabled_ := jitEnabled_ jm;
     profile_ :=
       {| contextExecutionCounts :=
            <[ctx := wrap64 (counter (contextExecutionCounts p) ctx + 1)]>
              (contextExecutionCounts p);
          lineExecutionCounts :=
            <[lineNum := wrap64 (counter (lineExecutionCounts p) lineNum + 1)]>
              (lineExecutionCounts p);
          lastProfileUpdate :=
            if 100 <? Z.quot (now - lastProfileUpdate p) 1000000
            then now else lastProfileUpdate p |} |}.

Definition ShouldConsiderJIT (jm : t) (ctx : Z) : bool :=
  if negb (jit_ jm) || negb (jitEnabled_ jm) then false
  else match contextExecutionCounts (profile_ jm) !! ctx with
       | Some n => 50 <? n
       | None => false
       end.

(** The test of the loop body of [HasHotPaths] at line [i]. *)
Definition backward_jump (i : Z) (line : MSTACLine) : bool :=
  match op line with
  | TACLine.GotoA | TACLine.GotoAifB | TACLine.GotoAifTrulyB | TACLine.GotoAifNotB =>
      match rhsA line with
      | VNumber numberValue => Double.to_long numberValue <? i
      | _ => false
      end
  | _ => false
  end.

(** [HasHotPaths]; [ctx] is the pointer and [context] what it points to. *)
Definition HasHotPaths (ctx : Z) (context : Context) : bool :=
  if (ctx =? 0) || (Count context <? 5) then false
  else existsb (fun '(i, line) => backward_jump (Z.of_nat i) line)
               (imap (fun i line => (i, line)) (code context)).

(** [CompileContextRange]: a placeholder that compiles nothing. *)
Definition CompileContextRange (jm : t) (ctx : Z) (startLine endLine : Z) : bool :=
  if negb (jit_ jm) || negb (jitEnabled_ jm) then false else true.

(** [ExecuteWithJITOrFallback]. [context] is [*context] on entry and [context']
    is [*context] after the host's [machine_->Step()]; [now] is the reading of
    the steady clock. The result is the state and the calls made, in order. *)
Definition ExecuteWithJITOrFallback (jm : t) (ctx : Z) (context context' : Context)
    (now : Z) : t * list Event :=
  let jm := UpdateExecutionProfile jm ctx (lineNum context) now in
  let currentLine := lineNum context in
  let jitExecuted := false in
  if negb jitExecuted then
    if ShouldConsiderJIT jm ctx then
      if HasHotPaths ctx context' then
        let startLine := Z.max 0 (currentLine - 10) in
        let endLine := Z.min (Count context' - 1) (currentLine + 10) in
        (jm, [EvMachineStep; EvCompileContextRange startLine endLine])
      else (jm, [EvMachineStep])
    else (jm, [EvMachineStep])
  else (jm, []).

(** The window [startLine .. endLine] holds a backward jump. *)
Definition window_has_backward_jump (context : Context) (startLine endLine : Z) : Prop :=
  exists (i : nat) (line : MSTACLine),
    code context !! i = Some line /\
    startLine <= Z.of_nat i <= endLine /\
    backward_jump (Z.of_nat i) line = true.

(** The context holds a backward jump, at any line. *)
Definition context_has_backward_jump (context : Context) : Prop :=
  exists (i : nat) (line : MSTACLine),
    code context !! i = Some line /\ backward_jump (Z.of_nat i) line = true.

(** The numeric operands of the lines of the context convert to [long]
    within its range: where the cast [(long)numberValue] of [HasHotPaths] is
    defined in C++. *)
Definition jump_targets_in_range (context : Context) : Prop :=
  forall (i : nat) (line : MSTACLine) (numberValue : double),
    code context !! i = Some line -> rhsA line = VNumber numberValue ->
    exists v, Double.trunc numberValue = Some v /\ - 2 ^ 63 <= v < 2 ^ 63.

(** The test of [JITIntegration::containsHotPaths] at line [i], as a
    proposition: a [GotoA] or [GotoAifB] whose numeric target is below [i]. *)
Definition plain_backward_jump `{Host} (i : Z) (line : MSTACLine) : Prop :=
  (op line = TACLine.GotoA \/ op line = TACLine.GotoAifB) /\
  (exists numberValue, rhsA line = VNumber numberValue) /\
  Value_IntValue (rhsA line) < i.

End JITMachine.

(* ===================================================================== *)
(** * MiniScriptJIT.cpp: the expression compiler *)
(* ===================================================================== *)

Module LLVM.

(** The IR values that [generateLLVMIR] builds. *)
Inductive Value :=
| Argument (index : nat)
| ConstantFP (d : double)
| FAdd (l r : Value)
| FSub (l r : Value)
| FMul (l r : Value)
| FDiv (l r : Value)
| CallPow (l r : Value).

(** The function built by [compileExpression]: its name, the number of its
    [double] parameters and the value it returns. *)
Record Function := {
  name : string;
  arity : nat;
  ret : Value;
}.

End LLVM.

(** An [llvm::Error] with its message. *)
Definition Error : Type := string.

(** LLVM's verifier and the ORC JIT [LLJIT] are external collaborators. *)
Class LLJIT := {
  JITState : Type;
  (** [verifyFunction]: true when the function is broken. *)
  verifyFunction : LLVM.Function -> bool;
  (** [JIT->addIRModule]: [Some] error on failure. *)
  addIRModule : JITState -> LLVM.Function -> option Error * JITState;
  (** [JIT->lookup]: the address or an error. *)
  lookup : JITState -> string -> (Error + Z) * JITState;
}.

Module MiniScriptJIT.

Record t `{LLJIT} := {
  JIT : JITState;
  CompiledFunctions : gmap string Z;      (* name -> ExecutorAddr *)
  CompilationCount : Z;                   (* size_t *)
  TotalCompileTime : Z;                   (* microseconds *)
}.

(** The loop that binds each argument to its name in [valueMap]. *)
Definition bind_arguments (input_variables : list string) : gmap string LLVM.Value :=
  fold_left (fun valueMap '(i, varName) => <[varName := LLVM.Argument i]> valueMap)
            (imap (fun i v => (i, v)) input_variables) ∅.

(** A binary instruction: both operands must be bound. *)
Definition binary (valueMap : gmap string LLVM.Value) (instruction : SimpleTACLine.t)
    (build : LLVM.Value -> LLVM.Value -> LLVM.Value) (what : string)
  : Error + LLVM.Value :=
  match valueMap !! SimpleTACLine.operandA instruction,
        valueMap !! SimpleTACLine.operandB instruction with
  | Some l, Some r => inr (build l r)
  | _, _ => inl ("Invalid operands for " +:+ what)
  end.

(** The body of the loop of [generateLLVMIR] for one instruction. *)
Definition generate_instruction (valueMap : gmap string LLVM.Value)
    (instruction : SimpleTACLine.t) : Error + gmap string LLVM.Value :=
  let result :=
    match SimpleTACLine.operation instruction with
    | SimpleTACLine.LOAD_CONST =>
        inr (LLVM.ConstantFP (SimpleTACLine.constant_value instruction))
    | SimpleTACLine.LOAD_VAR =>
        match valueMap !! SimpleTACLine.operandA instruction with
        | Some v => inr v
        | None => inl ("Unknown variable: " +:+ SimpleTACLine.operandA instruction)
        end
    | SimpleTACLine.ADD => binary valueMap instruction LLVM.FAdd "ADD"
    | SimpleTACLine.SUB => binary valueMap instruction LLVM.FSub "SUB"
    | SimpleTACLine.MUL => binary valueMap instruction LLVM.FMul "MUL"
    | SimpleTACLine.DIV => binary valueMap instruction LLVM.FDiv "DIV"
    | SimpleTACLine.POW => binary valueMap instruction LLVM.CallPow "POW"
    | SimpleTACLine.ASSIGN => inl "Unsupported TAC operation"
    end in
  match result with
  | inl err => inl err
  | inr v => inr (<[SimpleTACLine.result instruction := v]> valueMap)
  end.

Fixpoint generate_instructions (valueMap : gmap string LLVM.Value)
    (instrs : list SimpleTACLine.t) : Error + gmap string LLVM.Value :=
  match instrs with
  | [] => inr valueMap
  | instruction :: rest =>
      match generate_instruction valueMap instruction with
      | inl err => inl err
      | inr valueMap => generate_instructions valueMap rest
      end
  end.

Definition generateLLVMIR (expr : SimpleExpression) : Error + LLVM.Value :=
  match generate_instructions (bind_arguments (input_variables expr)) (instructions expr) with
  | inl err => inl err
  | inr valueMap =>
      match valueMap !! output_variable expr with
      | Some finalResult => inr finalResult
      | None => inl "No final result found"
      end
  end.

(** What one call does besides changing the state. *)
Inductive Event :=
| EvGenerateIR (functionName : string)     (* generateLLVMIR(...) *)
| EvAddModule (functionName : string).     (* JIT->addIRModule(...) *)

Section Compile.
Context `{LLJIT}.

(** [compileExpression]. [compileTime] is the measured duration in
    microseconds. The result is the returned [Expected<ExecutorAddr>], the
    state after the call and the calls made to the code generator. *)
Definition compileExpression (j : t) (expr : SimpleExpression) (functionName : string)
    (compileTime : Z) : (Error + Z) * t * list Event :=
  match CompiledFunctions j !! functionName with
  | Some addr => (inr addr, j, [])                       (* Check cache first *)
  | None =>
      match generateLLVMIR expr with
      | inl err => (inl err, j, [EvGenerateIR functionName])
      | inr result =>
          let f := {| LLVM.name := functionName;
                      LLVM.arity := length (input_variables expr);
                      LLVM.ret := result |} in
          if verifyFunction f
          then (inl "Function verification failed", j, [EvGenerateIR functionName])
          else
            let '(err, jit) := addIRModule (JIT j) f in
            let evs := [EvGenerateIR functionName; EvAddModule functionName] in
            let j := {| JIT := jit; CompiledFunctions := CompiledFunctions j;
                        CompilationCount := CompilationCount j;
                        TotalCompileTime := TotalCompileTime j |} in
            match err with
            | Some err => (inl err, j, evs)
            | None =>
                let '(sym, jit) := lookup jit functionName in
                let j := {| JIT := jit; CompiledFunctions := CompiledFunctions j;
                            CompilationCount := CompilationCount j;
                            TotalCompileTime := TotalCompileTime j |} in
                match sym with
                | inl err => (inl err, j, evs)
                | inr addr =>
                    (inr addr,
                     {| JIT := jit;
                        CompiledFunctions := <[functionName := addr]> (CompiledFunctions j);
                        CompilationCount := wrap64 (CompilationCount j + 1);
                        TotalCompileTime := TotalCompileTime j + compileTime |},
                     evs)
                end
            end
      end
  end.

End Compile.

End MiniScriptJIT.

(* ===================================================================== *)
(** * Predicates used in the statements *)
(* ===================================================================== *)

(** ** The invariant of the adaptive thresholds *)

Definition count_ok (c : Z) : Prop := 500 <= c <= 5000.

Definition frequency_ok (f : double) : Prop :=
  Double.pos_normal f /\
  Double.leb (Double.lit 50.0) f = true /\ Double.leb f (Double.lit 500.0) = true.

Definition thresholds_ok (t : CompilationThresholds) : Prop :=
  count_ok (min_execution_count t) /\ frequency_ok (min_execution_frequency t).


(** The integer threshold has finitely many admissible values: both updates,
    and the range of the value that is cast back to [uint64_t], are checked on
    each of them. *)
Definition cast_in_range (d : double) : bool :=
  match Double.trunc d with
  | Some v => (0 <=? v) && (v <? 2 ^ 64)
  | None => false
  end.

Definition count_step_checked (c : Z) : bool :=
  (500 <=? lower_count c) && (lower_count c <=? 5000)
  && (500 <=? raise_count c) && (raise_count c <=? 5000)
  && cast_in_range (Double.mul (Double.of_uint c) (Double.lit 0.9))
  && cast_in_range (Double.mul (Double.of_uint c) (Double.lit 1.1)).

(** The direction of the two integer updates, checked on the same values. *)
Definition count_direction_checked (c : Z) : bool :=
  (lower_count c <=? c) && (c <=? raise_count c).

(** The thresholds after a series of [adjustThresholds] calls, each with its
    observed success rate and speedup. *)
Definition adjust_all (t : CompilationThresholds) (observed : list (double * double))
  : CompilationThresholds :=
  fold_left (fun t o => adjustThresholds t (fst o) (snd o)) observed t.

(** The bounds of the two adaptive thresholds. *)
Definition within_bounds (t : CompilationThresholds) : Prop :=
  500 <= min_execution_count t <= 5000 /\
  Double.leb (Double.lit 50.0) (min_execution_frequency t) = true /\
  Double.leb (min_execution_frequency t) (Double.lit 500.0) = true.

(** Renaming the names of an instruction with [ren]; an absent operand (the
    empty string) stays absent. *)
Definition rename_name (ren : string -> string) (s : string) : string :=
  if decide (s = "") then "" else ren s.

Definition rename_instr (ren : string -> string) (i : SimpleTACLine.t) : SimpleTACLine.t :=
  SimpleTACLine.mk (SimpleTACLine.operation i)
    (rename_name ren (SimpleTACLine.result i))
    (rename_name ren (SimpleTACLine.operandA i))
    (rename_name ren (SimpleTACLine.operandB i))
    (SimpleTACLine.constant_value i).

(** An injective renaming: every name gets the prefix [r_]. *)
Definition prefix_r (s : string) : string := "r_" +:+ s.

(** [result = a + b], as a sequence and as an expression. *)
Definition sum_ab : list SimpleTACLine.t :=
  [SimpleTACLine.make2 SimpleTACLine.ADD "result" "a" "b"].

Definition expr_sum_ab : SimpleExpression :=
  {| instructions := sum_ab; input_variables := ["a"; "b"]; output_variable := "result" |}.

(** The profile that [recordExecution] starts from: the stored one, or the
    fresh one that [getOrCreateProfile] makes on first sight. *)
Definition profile_before `{Platform} (w : World) (expr : SimpleExpression) : ExpressionProfile :=
  fst (getOrCreateProfile (profiler w)
         (fst (fingerprint (statics w) (instructions expr))) expr).

(** [n] interpreted runs of [expr_sum_ab], one per millisecond, each taking
    [execution_time_ns]; the candidacy analysis reads the clock 100 ns after
    the run was stamped. *)
Definition runs (execution_time_ns : Z) (n : nat) : list ProfilerOp :=
  (fun i => RecordExecution expr_sum_ab execution_time_ns
              (1000000 * Z.of_nat i) (1000000 * Z.of_nat i + 100)) <$> seq 1 n.

(** The hash of the operators of a range, the last component of the key. *)
Definition opHash `{Platform} `{Host} (context : Context) (startLine endLine : Z) : Z :=
  fold_left opHash_step (range_code context startLine endLine) 0.

(** The operators of a range, in order. *)
Definition range_ops (context : Context) (startLine endLine : Z) : list TACLine.Op :=
  op <$> omap (code_at context) (lines_of_range context startLine endLine).

(** A string without the separator [_]. *)
Fixpoint sep_free (s : string) : Prop :=
  match s with
  | EmptyString => True
  | String c s' => c <> "_"%char /\ sep_free s'
  end.

(** An example host: a numbering of the operators, and the renderings of
    values. *)
Definition example_op_to_int (o : TACLine.Op) : Z :=
  match o with
  | TACLine.AssignA => 1 | TACLine.APlusB => 3 | TACLine.AMinusB => 4
  | TACLine.ATimesB => 5 | TACLine.ADividedByB => 6 | TACLine.AModB => 7
  | TACLine.APowB => 8 | TACLine.AEqualB => 9 | TACLine.ANotEqualB => 10
  | TACLine.AGreaterThanB => 11 | TACLine.AGreatOrEqualB => 12
  | TACLine.ALessThanB => 13 | TACLine.ALessOrEqualB => 14
  | TACLine.AAndB => 16 | TACLine.AOrB => 17 | TACLine.NotA => 21
  | TACLine.GotoA => 22 | TACLine.GotoAifB => 23
  | TACLine.GotoAifTrulyB => 24 | TACLine.GotoAifNotB => 25
  | TACLine.CallFunctionA => 27 | TACLine.ReturnA => 29
  | TACLine.OtherOp code => code
  end.

Definition example_host : Host := {|
  op_to_int := example_op_to_int;
  Value_ToString := fun v =>
    match v with
    | VString s => s
    | VVar identifier => identifier
    | _ => ""
    end;
  Value_IntValue := fun v =>
    match v with
    | VNumber d => Double.to_long d
    | _ => 0
    end;
  SubList := fun l from count => take (Z.to_nat count) (drop (Z.to_nat from) l);
|}.

(** An example code generator: it numbers the functions it is asked for,
    returns a null pointer for a sequence that starts with a jump and throws
    on a sequence that starts with a negation. *)
Definition example_generator : CodeGenerator := {|
  GenState := Z;
  generateFunction := fun n tac _ =>
    match tac with
    | [] => (Returned None, n)
    | IR.mk IR.JumpOp _ _ _ :: _ => (Returned None, n)
    | IR.mk IR.OpNot _ _ _ :: _ => (Thrown, n)
    | _ => (Returned (Some (n + 1)), n + 1)
    end;
|}.

(** [x = a + b], [y = x * c], and a loop back to line 0. *)
Definition line_add : MSTACLine :=
  {| op := TACLine.APlusB; lhs := VVar "x"; rhsA := VVar "a"; rhsB := VVar "b" |}.
Definition line_mul : MSTACLine :=
  {| op := TACLine.ATimesB; lhs := VVar "y"; rhsA := VVar "x"; rhsB := VVar "c" |}.
Definition line_goto (target : double) : MSTACLine :=
  {| op := TACLine.GotoA; lhs := VNull; rhsA := VNumber target; rhsB := VNull |}.

Definition loop_context : Context :=
  {| code := [line_add; line_mul; line_add; line_mul; line_goto (Double.lit 0.0)];
     lineNum := 0 |}.

(** A region covers a line; the span the scan compares. *)
Definition covers (r : CompiledRegion) (line : Z) : Prop :=
  startLine r <= line <= endLine r.

Definition span (r : CompiledRegion) : Z := endLine r - startLine r.

(** What [compileContextRange] maintains: every cached region holds a
    function. *)
Definition regions_have_functions (regions : gmap string CompiledRegion) : Prop :=
  forall k r, regions !! k = Some r -> function r <> None.

(** Two cache entries hold the same compiled artifact: they differ at most in
    the execution counter. *)
Definition same_artifact (r r' : CompiledRegion) : Prop :=
  function r' = function r /\ startLine r' = startLine r /\ endLine r' = endLine r /\
  region_fingerprint r' = region_fingerprint r /\ compilationTime r' = compilationTime r.

(** One call on a RuntimeJIT: a compilation request for any region, or a
    dispatch at any line, the cache being enumerated in any order. *)
Inductive jit_step `{Platform} `{Host} `{CodeGenerator} : RuntimeJIT -> RuntimeJIT -> Prop :=
| step_compile (jit : RuntimeJIT) (ctx : Z) (context : Context)
    (startLine endLine : Z) (elapsed : double) :
    jit_step jit (compileContextRange jit ctx context startLine endLine elapsed).1.2
| step_execute (jit : RuntimeJIT) (order : list (string * CompiledRegion))
    (ctx line : Z) (elapsed : double) :
    order ≡ₚ map_to_list (compiledRegions_ jit) ->
    jit_step jit (executeJITOrFallback jit order ctx line elapsed).1.1.2.

(** One call of [compileExpression], for any expression and name. *)
Inductive compiler_step `{LLJIT} : MiniScriptJIT.t -> MiniScriptJIT.t -> Prop :=
| step_compileExpression (j : MiniScriptJIT.t) (expr : SimpleExpression)
    (functionName : string) (compileTime : Z) :
    compiler_step j (MiniScriptJIT.compileExpression j expr functionName compileTime).1.2.

(** The number of calls to the code generator among the events of a call. *)
Definition is_generate (ev : Event) : bool :=
  match ev with EvGenerate _ _ => true | _ => false end.

Definition generator_calls (evs : list Event) : nat :=
  length (List.filter is_generate evs).

Definition is_generate_ir (ev : MiniScriptJIT.Event) : bool :=
  match ev with MiniScriptJIT.EvGenerateIR _ => true | _ => false end.

Definition ir_generations (evs : list MiniScriptJIT.Event) : nat :=
  length (List.filter is_generate_ir evs).

(** An example LLJIT: it accepts every function whose name is not empty, and
    hands out the addresses 4096, 4097, ... in the order of the modules. *)
Definition example_lljit : LLJIT := {|
  JITState := list string;
  verifyFunction := fun f => bool_decide (LLVM.name f = "");
  addIRModule := fun st f =>
    if bool_decide (LLVM.name f ∈ st)
    then (Some "duplicate definition of symbol", st)
    else (None, st ++ [LLVM.name f]);
  lookup := fun st name =>
    match list_find (fun n => n = name) st with
    | Some (i, _) => (inr (4096 + Z.of_nat i), st)
    | None => (inl "symbol not found", st)
    end;
|}.

(** [result = a + b * 2.5], the expression of [createSimple]. *)
Definition createSimple : SimpleExpression := {|
  instructions :=
    [SimpleTACLine.makeC SimpleTACLine.LOAD_CONST "temp_const" (Double.lit 2.5);
     SimpleTACLine.make2 SimpleTACLine.MUL "temp_mul" "b" "temp_const";
     SimpleTACLine.make2 SimpleTACLine.ADD "result" "a" "temp_mul"];
  input_variables := ["a"; "b"];
  output_variable := "result";
|}.

(** An expression that reads a variable nobody defined. *)
Definition unbound_expression : SimpleExpression := {|
  instructions := [SimpleTACLine.make2 SimpleTACLine.ADD "result" "a" "missing"];
  input_variables := ["a"];
  output_variable := "result";
|}.

(** A context whose first line is a jump: the example generator refuses it. *)
Definition jump_first_context : Context :=
  {| code := [line_goto (Double.lit 3.0); line_add; line_mul; line_add; line_mul];
     lineNum := 0 |}.

Definition no_stats : RuntimeStats := {|
  totalInstructions := 0; jitCompiledInstructions := 0; jitExecutions := 0;
  interpreterExecutions := 0; jitCompilationTime := Double.lit 0.0;
  jitExecutionTime := Double.lit 0.0; interpreterExecutionTime := Double.lit 0.0;
|}.

(** A region of the given lines, for the examples of the scan. *)
Definition region_of (f : Z) (startLine endLine : Z) (fingerprint : string) : CompiledRegion :=
  {| function := Some f; startLine := startLine; endLine := endLine;
     region_fingerprint := fingerprint; compilationTime := Double.lit 0.0;
     executionCount := 0 |}.

(** A context of 21 lines whose only jump sits at line 20 and goes back to
    line 18; [far_loop_context'] is the same context one line further. *)
Definition far_loop_code : list MSTACLine :=
  replicate 20 line_add ++ [line_goto (Double.lit 18.0)].
Definition far_loop_context : Context := {| code := far_loop_code; lineNum := 2 |}.
Definition far_loop_context' : Context := {| code := far_loop_code; lineNum := 3 |}.

(** A dispatcher whose [jit_] is set, after [n] steps in the context at
    address 4096. *)
Definition machine_with_jit : JITMachine.t := {|
  JITMachine.jit_ := true;
  JITMachine.jitEnabled_ := true;
  JITMachine.profile_ := JITMachine.profile_ JITMachine.constructed;
|}.

Definition machine_after (n : nat) : JITMachine.t :=
  Nat.iter n
    (fun jm => fst (JITMachine.ExecuteWithJITOrFallback jm 4096
                      far_loop_context far_loop_context' 0))
    machine_with_jit.

(** The world after 1000 cheap runs (500 ns each) and after 999 and 1000
    expensive ones (20 µs each) of [expr_sum_ab], on the example platform. *)
Definition world_cheap : World :=
  @run_ops example_platform world_init (runs 500 1000).
Definition world_warm : World :=
  @run_ops example_platform world_init (runs 20000 999).
Definition world_hot : World :=
  @run_ops example_platform world_init (runs 20000 1000).

(** The key of [expr_sum_ab] on the example platform. *)
Definition key_sum_ab : Z :=
  fst (@fingerprint example_platform statics_init sum_ab).

(** A RuntimeJIT that has compiled nothing yet, with the example generator. *)
Definition fresh_jit : @RuntimeJIT example_generator :=
  {| irGenerator_ := 0 : @GenState example_generator;
     compiledRegions_ := ∅; stats_ := no_stats |}.

(** A MiniScriptJIT that has compiled nothing yet, on the example LLJIT. *)
Definition fresh_compiler : @MiniScriptJIT.t example_lljit :=
  {| MiniScriptJIT.JIT := [] : @JITState example_lljit;
     MiniScriptJIT.CompiledFunctions := ∅;
     MiniScriptJIT.CompilationCount := 0;
     MiniScriptJIT.TotalCompileTime := 0 |}.

(** A cache with three regions: lines 0..4, 1..3 and 10..12. *)
Definition three_regions : gmap string CompiledRegion :=
  <["wide" := region_of 1 0 4 "wide"]>
    (<["narrow" := region_of 2 1 3 "narrow"]>
       (<["elsewhere" := region_of 3 10 12 "elsewhere"]> ∅)).

Definition jit_three_regions : @RuntimeJIT example_generator :=
  {| irGenerator_ := 3 : @GenState example_generator;
     compiledRegions_ := three_regions; stats_ := no_stats |}.

(** The profile of [expr_sum_ab] after the 1000 expensive runs. *)
Definition profile_hot : ExpressionProfile := {|
  execution_count := 1000; total_execution_time_ns := 20000000;
  last_execution_time := 1000000000;
  operation_count := 1; depth := 1; has_complex_ops := false;
  status := JIT_CANDIDATE; compilation_time_ns := 0;
  jit_execution_count := 0; jit_total_time_ns := 0;
|}.

(** The numbering [st'] keeps every name that [st] has numbered. *)
Definition extends (st st' : FingerprinterStatics) : Prop :=
  forall v n, var_map st !! v = Some n -> var_map st' !! v = Some n.

(** The statics after fingerprinting the sequences [others] in order. *)
Definition fingerprint_all `{Platform} (st : FingerprinterStatics)
    (others : list (list SimpleTACLine.t)) : FingerprinterStatics :=
  fold_left (fun st S => snd (fingerprint st S)) others st.
(* ===================================================================== *)
(** * MiniScript/Dictionary.h: the interpreter's hash table *)
(* ===================================================================== *)

(** ** The hash functions offered with the dictionary *)

(** [hashUInt], on [unsigned int]: every product wraps modulo 2^32. *)
Definition hashUInt (xin : Z) : Z :=
  let x := xin in
  let x := wrap32 (Z.lxor (Z.shiftr x 16) x * 0x45d9f3b) in
  let x := wrap32 (Z.lxor (Z.shiftr x 16) x * 0x45d9f3b) in
  let x := Z.lxor (Z.shiftr x 16) x in
  x.

(** [hashInt]: the [int] is converted to [unsigned int] first. *)
Definition hashInt (x : Z) : Z := hashUInt (wrap32 x).

(** ** DictInternal *)
Module DictInternal.

Definition PRIME_SIZES : list Z :=
  [251; 503; 1009; 2017; 4049; 8101; 16187; 32371; 64747; 129499;
   258991; 517997; 1035989; 2071981; 4143961; 8287919; 16575841].

Definition NUM_PRIME_SIZES : Z := Z.of_nat (length PRIME_SIZES).

Definition MAX_LOAD_FACTOR : double := Double.lit 0.75.
Definition MIN_LOAD_FACTOR : double := Double.lit 0.25.

(** The loop [for (i = 0; i < NUM_PRIME_SIZES - 1; ++i)] over the remaining
    entries [PRIME_SIZES[i ..]]: the last entry is never tested. *)
Fixpoint next_from (sizes : list Z) (currentSize : Z) : option Z :=
  match sizes with
  | p :: (q :: _) as rest =>
      if p =? currentSize then Some q else next_from rest currentSize
  | _ => None
  end.

Definition GetNextTableSize (currentSize : Z) : Z :=
  match next_from PRIME_SIZES currentSize with
  | Some next => next
  | None => wrap64 (currentSize * 2)        (* fallback, on size_t *)
  end.

(** The loop [for (i = 1; i < NUM_PRIME_SIZES; ++i)] over the remaining
    entries [PRIME_SIZES[i - 1 ..]]: the first entry is never tested. *)
Fixpoint prev_from (sizes : list Z) (currentSize : Z) : option Z :=
  match sizes with
  | prev :: (p :: _) as rest =>
      if p =? currentSize then Some prev else prev_from rest currentSize
  | _ => None
  end.

Definition GetPrevTableSize (currentSize : Z) : Z :=
  match prev_from PRIME_SIZES currentSize with
  | Some prev => prev
  | None => if 2 <? currentSize then currentSize / 2 else currentSize
  end.

End DictInternal.

(** ** Dictionary<K, V, HASH> *)
Module Dictionary.

Definition TABLE_SIZE : Z := 251.

(** [(double)n] for a [long] or a [size_t]. *)
Definition to_double (n : Z) : double :=
  binary_normalize Double.prec Double.emax n 0 false.

(** The conversion of an [unsigned int] to the [int] that [hashKey] returns. *)
Definition to_int (z : Z) : Z := if z <? 2 ^ 31 then z else z - 2 ^ 32.

Section Dictionary.
Context {K V : Type} `{EqDecision K}.

(** The template parameter [HASH]. *)
Variable HASH : K -> Z.

(** A bin of the table is the chain of its entries, from the head; the
    empty chain is [nullptr]. *)
Record DictionaryStorage := {
  mSize : Z;                           (* long *)
  mTableSize : Z;                      (* size_t *)
  mTable : list (list (K * V));        (* HashMapEntry** of mTableSize bins *)
}.

(** A dictionary is its pointer [ds]: [None] is [nullptr]. *)
Definition t : Type := option DictionaryStorage.

(** The storage built by the constructor of [DictionaryStorage]. *)
Definition new_storage : DictionaryStorage := {|
  mSize := 0;
  mTableSize := TABLE_SIZE;
  mTable := replicate (Z.to_nat TABLE_SIZE) [];
|}.

Definition ensureStorage (d : t) : DictionaryStorage :=
  match d with
  | Some ds => ds
  | None => new_storage
  end.

(** [((unsigned int)HASH(key)) % tableSize], as an [unsigned int]. *)
Definition hash_mod (tableSize : Z) (key : K) : Z :=
  wrap32 (wrap32 (HASH key) mod tableSize).

Definition hashKey (d : t) (key : K) : Z :=
  let tableSize := match d with Some ds => mTableSize ds | None => TABLE_SIZE end in
  to_int (hash_mod tableSize key).

(** [mTable[i]]; an index outside the table designates no bin. *)
Definition bin (table : list (list (K * V))) (i : Z) : list (K * V) :=
  if i <? 0 then [] else default [] (table !! Z.to_nat i).

Definition set_bin (table : list (list (K * V))) (i : Z) (chain : list (K * V))
  : list (list (K * V)) :=
  if i <? 0 then table else <[Z.to_nat i := chain]> table.

(** The walk [while (entry) { if (entry->key == key) ...; entry = entry->next; }]. *)
Fixpoint chain_find (chain : list (K * V)) (key : K) : option V :=
  match chain with
  | [] => None
  | (k, v) :: rest => if decide (k = key) then Some v else chain_find rest key
  end.

(** The same walk storing [value] in the entry found. *)
Fixpoint chain_set (chain : list (K * V)) (key : K) (value : V) : option (list (K * V)) :=
  match chain with
  | [] => None
  | (k, v) :: rest =>
      if decide (k = key) then Some ((k, value) :: rest)
      else match chain_set rest key value with
           | Some rest' => Some ((k, v) :: rest')
           | None => None
           end
  end.

(** The walk of [Remove], unlinking the entry found. *)
Fixpoint chain_remove (chain : list (K * V)) (key : K) : option (V * list (K * V)) :=
  match chain with
  | [] => None
  | (k, v) :: rest =>
      if decide (k = key) then Some (v, rest)
      else match chain_remove rest key with
           | Some (out, rest') => Some (out, (k, v) :: rest')
           | None => None
           end
  end.

(** One step of the rehash loop of [ResizeTable]: the entry is pushed at the
    head of its new bin. *)
Definition rehash_step (newSize : Z) (acc : list (list (K * V)) * Z) (entry : K * V)
  : list (list (K * V)) * Z :=
  let '(table, size) := acc in
  let newHash := hash_mod newSize (fst entry) in
  (set_bin table newHash (entry :: bin table newHash), size + 1).

(** [ResizeTable]: the old bins are visited in order, each chain from its
    head. *)
Definition ResizeTable (ds : DictionaryStorage) (newSize : Z) : DictionaryStorage :=
  if mTableSize ds =? newSize then ds
  else
    let '(table, size) :=
      fold_left (rehash_step newSize) (concat (mTable ds))
                (replicate (Z.to_nat newSize) [], 0) in
    {| mSize := size; mTableSize := newSize; mTable := table |}.

Definition load_factor (ds : DictionaryStorage) : double :=
  Double.div (to_double (mSize ds)) (to_double (mTableSize ds)).

(** The first part of [SetValue]: the table grows when the load factor is
    above [MAX_LOAD_FACTOR]. *)
Definition grow_if_loaded (ds : DictionaryStorage) : DictionaryStorage :=
  if Double.gtb (load_factor ds) DictInternal.MAX_LOAD_FACTOR
  then ResizeTable ds (DictInternal.GetNextTableSize (mTableSize ds))
  else ds.

(** The second part of [SetValue]: the value of an entry with this key is
    replaced, or a new entry is pushed at the head of the bin. *)
Definition store (ds : DictionaryStorage) (key : K) (value : V) : DictionaryStorage :=
  let hash := hashKey (Some ds) key in
  match chain_set (bin (mTable ds) hash) key value with
  | Some chain =>
      {| mSize := mSize ds; mTableSize := mTableSize ds;
         mTable := set_bin (mTable ds) hash chain |}
  | None =>
      {| mSize := mSize ds + 1; mTableSize := mTableSize ds;
         mTable := set_bin (mTable ds) hash ((key, value) :: bin (mTable ds) hash) |}
  end.

Definition SetValue (d : t) (key : K) (value : V) : t :=
  Some (store (grow_if_loaded (ensureStorage d)) key value).

(** The end of [Remove]: the table shrinks when the load factor is below
    [MIN_LOAD_FACTOR], never below the default size. *)
Definition shrink_if_sparse (ds : DictionaryStorage) : DictionaryStorage :=
  if Double.ltb (load_factor ds) DictInternal.MIN_LOAD_FACTOR
     && (TABLE_SIZE <? mTableSize ds)
  then
    let newSize := DictInternal.GetPrevTableSize (mTableSize ds) in
    if TABLE_SIZE <=? newSize then ResizeTable ds newSize else ds
  else ds.

(** [Remove]: the returned [bool], the value written to [*output] and the
    dictionary after the call. *)
Definition Remove (d : t) (key : K) : bool * option V * t :=
  match d with
  | None => (false, None, d)
  | Some ds =>
      let hash := hashKey d key in
      match chain_remove (bin (mTable ds) hash) key with
      | Some (out, chain) =>
          (true, Some out,
           Some (shrink_if_sparse
                   {| mSize := mSize ds - 1; mTableSize := mTableSize ds;
                      mTable := set_bin (mTable ds) hash chain |}))
      | None => (false, None, d)
      end
  end.

Definition RemoveAll (d : t) : t :=
  match d with
  | None => None
  | Some ds =>
      Some {| mSize := 0; mTableSize := mTableSize ds;
              mTable := replicate (length (mTable ds)) [] |}
  end.

Definition Lookup (d : t) (key : K) (defaultValue : V) : V :=
  match d with
  | None => defaultValue
  | Some ds => default defaultValue (chain_find (bin (mTable ds) (hashKey d key)) key)
  end.

(** [Get]: [Some] value when the call returns true and writes [*outValue]. *)
Definition Get (d : t) (key : K) : option V :=
  match d with
  | None => None
  | Some ds => chain_find (bin (mTable ds) (hashKey d key)) key
  end.

Definition ContainsKey (d : t) (key : K) : bool :=
  match d with
  | None => false
  | Some ds =>
      match chain_find (bin (mTable ds) (hashKey d key)) key with
      | Some _ => true
      | None => false
      end
  end.

Definition Count (d : t) : Z :=
  match d with
  | Some ds => mSize ds
  | None => 0
  end.

(** [Keys] and [Values] visit the bins [0 .. TABLE_SIZE - 1], whatever the
    current size of the table. *)
Definition Keys (d : t) : list K :=
  match d with
  | None => []
  | Some ds => fst <$> concat (take (Z.to_nat TABLE_SIZE) (mTable ds))
  end.

Definition Values (d : t) : list V :=
  match d with
  | None => []
  | Some ds => snd <$> concat (take (Z.to_nat TABLE_SIZE) (mTable ds))
  end.

Definition BinEntries (d : t) (binNum : Z) : Z :=
  match d with
  | None => 0
  | Some ds => Z.of_nat (length (bin (mTable ds) binNum))
  end.

(** *** Notions used in the statements *)

(** The entries of the table, bin after bin. *)
Definition entries (ds : DictionaryStorage) : list (K * V) := concat (mTable ds).

(** The representation invariant: the table has [mTableSize] bins, at least
    the default number; every entry sits in the bin of its hash; no key occurs
    twice; [mSize] counts the entries. *)
Record rep (ds : DictionaryStorage) : Prop := {
  rep_size : TABLE_SIZE <= mTableSize ds;
  rep_length : Z.of_nat (length (mTable ds)) = mTableSize ds;
  rep_placed : forall (i : nat) (chain : list (K * V)) (k : K) (v : V),
      mTable ds !! i = Some chain -> (k, v) ∈ chain ->
      hash_mod (mTableSize ds) k = Z.of_nat i;
  rep_nodup : NoDup (entries ds).*1;
  rep_count : mSize ds = Z.of_nat (length (entries ds));
}.

(** The invariant as a test, for concrete tables. *)
Definition rep_check (ds : DictionaryStorage) : bool :=
  (TABLE_SIZE <=? mTableSize ds)
  && (Z.of_nat (length (mTable ds)) =? mTableSize ds)
  && forallb (fun '(i, chain) =>
                forallb (fun entry => hash_mod (mTableSize ds) (fst entry) =? Z.of_nat i) chain)
             (imap (fun i chain => (i, chain)) (mTable ds))
  && bool_decide (NoDup (entries ds).*1)
  && (mSize ds =? Z.of_nat (length (entries ds))).

(** A dictionary without storage is well formed. *)
Definition rep_t (d : t) : Prop :=
  match d with
  | Some ds => rep ds
  | None => True
  end.

(** The table is small enough for the bin index to fit the [int] that
    [hashKey] returns, also after one more growth. *)
Definition small_table (d : t) : Prop :=
  match d with
  | Some ds => mTableSize ds <= 2 ^ 30
  | None => True
  end.

End Dictionary.

End Dictionary.

(** ** DictIterator<K, V> *)
Module DictIterator.

Section DictIterator.
Context {K V : Type}.

#[local] Abbreviation chain := (list (K * V)).

(** [entry] points into a chain: it is known by the entries from it on, and
    [nullptr] is the empty chain. *)
Record t := {
  storage : @Dictionary.t K V;
  binIndex : Z;                        (* int *)
  entry : chain;
}.

(** The loop [for (int i = 0; i < TABLE_SIZE; i++)] of the constructor, from
    [i] on: the first bin with any data in it. *)
Fixpoint first_bin (table : list chain) (i : Z) (fuel : nat) : option (Z * chain) :=
  match fuel with
  | O => None
  | S fuel =>
      if i <? Dictionary.TABLE_SIZE then
        match Dictionary.bin table i with
        | [] => first_bin table (i + 1) fuel
        | found => Some (i, found)
        end
      else None
  end.

(** The constructor: attached to the first bin with any data in it. *)
Definition new (storage : @Dictionary.t K V) : t :=
  match storage with
  | Some ds =>
      match first_bin (Dictionary.mTable ds) 0 (Z.to_nat Dictionary.TABLE_SIZE) with
      | Some (i, found) => {| storage := storage; binIndex := i; entry := found |}
      | None => {| storage := storage; binIndex := 0; entry := [] |}
      end
  | None => {| storage := storage; binIndex := 0; entry := [] |}
  end.

(** [Dictionary::GetIterator]. *)
Definition GetIterator (d : @Dictionary.t K V) : t := new d.

Definition Done (it : t) : bool :=
  match entry it with
  | [] => true
  | _ => false
  end.

(** [Key] and [Value] read through [entry]: nothing is read through
    [nullptr]. *)
Definition Key (it : t) : option K := fst <$> head (entry it).
Definition Value (it : t) : option V := snd <$> head (entry it).

(** The loop [while (binIndex + 1 < TABLE_SIZE)] of [Next]: the bin index
    and the entry it leaves. *)
Fixpoint advance (table : list chain) (binIndex : Z) (fuel : nat) : Z * chain :=
  match fuel with
  | O => (binIndex, [])
  | S fuel =>
      if binIndex + 1 <? Dictionary.TABLE_SIZE then
        let binIndex := binIndex + 1 in
        match Dictionary.bin table binIndex with
        | [] => advance table binIndex fuel
        | found => (binIndex, found)
        end
      else (binIndex, [])
  end.

(** [Next]; it reads [entry->next] and the table of [storage], so it is
    undefined on an iterator that is done or has no storage. The loop runs
    at most [TABLE_SIZE] times. *)
Definition Next (it : t) : option t :=
  match entry it with
  | [] => None
  | _ :: next =>
      match next with
      | _ :: _ => Some {| storage := storage it; binIndex := binIndex it; entry := next |}
      | [] =>
          match storage it with
          | Some ds =>
              let '(i, found) :=
                advance (Dictionary.mTable ds) (binIndex it)
                        (Z.to_nat Dictionary.TABLE_SIZE) in
              Some {| storage := storage it; binIndex := i; entry := found |}
          | None => None
          end
      end
  end.

(** *** Notions used in the statements *)

(** The loop [for (it = d.GetIterator(); !it.Done(); it.Next())], run for at
    most [fuel] rounds: the entries visited. *)
Fixpoint visited (fuel : nat) (it : t) : list (K * V) :=
  match fuel with
  | O => []
  | S fuel =>
      match entry it with
      | [] => []
      | current :: _ =>
          current :: match Next it with
                     | Some it' => visited fuel it'
                     | None => []
                     end
      end
  end.

End DictIterator.

End DictIterator.

(** A worked example: the dictionary with [int] keys [0 .. n - 1], each
    mapped to ten times itself, filled by [n] calls of [SetValue]. *)
Definition filled (n : nat) : @Dictionary.t Z Z :=
  fold_left (fun d i => Dictionary.SetValue hashInt d (Z.of_nat i) (Z.of_nat i * 10))
            (seq 0 n) None.
(* ===================================================================== *)
(** * ExpressionProfiler.h: the compilation priority *)
(* ===================================================================== *)

Inductive CompilationPriority :=
| VERY_LOW | LOW | MEDIUM | HIGH | VERY_HIGH.

#[global] Instance CompilationPriority_eq_dec : EqDecision CompilationPriority.
Proof. solve_decision. Defined.

(** The enumerator values. *)
Definition priority_value (p : CompilationPriority) : Z :=
  match p with
  | VERY_LOW => 0 | LOW => 1 | MEDIUM => 2 | HIGH => 3 | VERY_HIGH => 4
  end.

(** The [score] that [getPriority] accumulates for a profile; [now] is the
    clock reading taken by [getExecutionFrequency]. *)
Definition priority_score (profile : ExpressionProfile) (now : Z) : double :=
  let score := Double.lit 0.0 in
  (* Factor 1: Execution frequency *)
  let freq := getExecutionFrequency profile now in
  let score :=
    if Double.gtb freq (Double.lit 1000.0) then Double.add score (Double.lit 2.0)
    else if Double.gtb freq (Double.lit 500.0) then Double.add score (Double.lit 1.5)
    else if Double.gtb freq (Double.lit 100.0) then Double.add score (Double.lit 1.0)
    else score in
  (* Factor 2: Average execution time *)
  let avg_time := getAverageExecutionTime profile in
  let score :=
    if Double.gtb avg_time (Double.lit 100000.0) then Double.add score (Double.lit 2.0)
    else if Double.gtb avg_time (Double.lit 50000.0) then Double.add score (Double.lit 1.5)
    else if Double.gtb avg_time (Double.lit 10000.0) then Double.add score (Double.lit 1.0)
    else score in
  (* Factor 3: Total execution count *)
  let count := execution_count profile in
  let score :=
    if 10000 <? count then Double.add score (Double.lit 2.0)
    else if 5000 <? count then Double.add score (Double.lit 1.5)
    else if 1000 <? count then Double.add score (Double.lit 1.0)
    else score in
  (* Factor 4: Expression complexity *)
  let score :=
    if (3 <=? operation_count profile) && (operation_count profile <=? 20)
    then Double.add score (Double.lit 1.0) else score in
  let score :=
    if has_complex_ops profile then Double.add score (Double.lit 0.5) else score in
  score.

(** The conversion of the score to a priority. *)
Definition priority_of_score (score : double) : CompilationPriority :=
  if Double.leb (Double.lit 6.0) score then VERY_HIGH
  else if Double.leb (Double.lit 4.0) score then HIGH
  else if Double.leb (Double.lit 2.0) score then MEDIUM
  else if Double.leb (Double.lit 1.0) score then LOW
  else VERY_LOW.

(** [getPriority]: the priority and the process after the call (the
    fingerprint is computed, which may number new variables). *)
Definition getPriority `{Platform} (w : World) (expr : SimpleExpression) (now : Z)
  : CompilationPriority * World :=
  let '(fp, st) := fingerprint (statics w) (instructions expr) in
  let w' := {| statics := st; profiler := profiler w |} in
  match profiles (profiler w) !! fp with
  | None => (VERY_LOW, w')
  | Some profile => (priority_of_score (priority_score profile now), w')
  end.

(** *** Notions used in the statements *)

(** The number of profiles that have left [NOT_ANALYZED]. *)
Definition analysed (m : gmap Z ExpressionProfile) : nat :=
  size (filter (fun kv : Z * ExpressionProfile => status kv.2 <> NOT_ANALYZED) m).

(** What the counters of the profiler count: [total_profiles] the stored
    profiles, [jit_candidates] at most the profiles that have been analysed. *)
Definition counters_ok (pr : ExpressionProfiler) : Prop :=
  total_profiles pr = wrap64 (Z.of_nat (size (profiles pr))) /\
  0 <= jit_candidates pr <= Z.of_nat (analysed (profiles pr)) /\
  (analysed (profiles pr) <= size (profiles pr))%nat.
(* ===================================================================== *)
(** * RuntimeJIT.cpp: the rest of RuntimeJIT and the derived JITMachine *)
(* ===================================================================== *)

Module RuntimeJITMachine.

Record JITConfig := {
  compilationThreshold : Z;            (* size_t *)
  maxInstructionSequence : Z;          (* size_t *)
  enableInlining : bool;
  enableOptimizations : bool;
  enableProfilingGuided : bool;
  fallbackOnFailure : bool;
}.

Definition default_config : JITConfig := {|
  compilationThreshold := 100;
  maxInstructionSequence := 50;
  enableInlining := true;
  enableOptimizations := true;
  enableProfilingGuided := true;
  fallbackOnFailure := true;
|}.

(** The whole object: the cache, the statistics and the generator (the
    record [RuntimeJIT]) with the members that [shouldCompileContext] reads. *)
Record RuntimeJITObject `{CodeGenerator} := {
  core : RuntimeJIT;
  contextExecutionCounts_ : gmap Z (gmap Z Z);   (* Context* -> (long -> size_t) *)
  config_ : JITConfig;
  interpreter_ : Z;                              (* Interpreter* *)
}.

Section Object.
Context `{Platform} `{Host} `{CodeGenerator}.

Definition initialize (o : RuntimeJITObject) (interpreter : Z) : RuntimeJITObject :=
  {| core := core o; contextExecutionCounts_ := contextExecutionCounts_ o;
     config_ := config_ o; interpreter_ := interpreter |}.

Definition updateConfig (o : RuntimeJITObject) (config : JITConfig) : RuntimeJITObject :=
  {| core := core o; contextExecutionCounts_ := contextExecutionCounts_ o;
     config_ := config; interpreter_ := interpreter_ o |}.

(** [shouldCompileContext]; [ctx] is the pointer and [context] what it points
    to. The loop returns as soon as one line is hot, so the order in which the
    counts are enumerated does not matter. *)
Definition shouldCompileContext (o : RuntimeJITObject) (ctx : Z) (context : Context) : bool :=
  if (ctx =? 0) || (Count context <? 5) then false
  else match contextExecutionCounts_ o !! ctx with
       | None => false
       | Some counts =>
           existsb (fun '(lineNum, count) => compilationThreshold (config_ o) <=? count)
                   (map_to_list counts)
       end.

Definition with_core (o : RuntimeJITObject) (jit : RuntimeJIT) : RuntimeJITObject :=
  {| core := jit; contextExecutionCounts_ := contextExecutionCounts_ o;
     config_ := config_ o; interpreter_ := interpreter_ o |}.

Definition zero_stats : RuntimeStats := {|
  totalInstructions := 0; jitCompiledInstructions := 0;
  jitExecutions := 0; interpreterExecutions := 0;
  jitCompilationTime := Double.lit 0.0; jitExecutionTime := Double.lit 0.0;
  interpreterExecutionTime := Double.lit 0.0;
|}.

Definition resetStats (o : RuntimeJITObject) : RuntimeJITObject :=
  with_core o {| irGenerator_ := irGenerator_ (core o);
                 compiledRegions_ := compiledRegions_ (core o);
                 stats_ := zero_stats |}.

Definition cleanupCompiledRegions (o : RuntimeJITObject) : RuntimeJITObject :=
  with_core o {| irGenerator_ := irGenerator_ (core o);
                 compiledRegions_ := ∅;
                 stats_ := stats_ (core o) |}.

(** ** JITMachine, derived from Machine *)

Record t := {
  runtimeJIT_ : RuntimeJITObject;
  jitEnabled_ : bool;
  instructionCounts_ : gmap Z Z;                 (* long -> size_t *)
}.

(** The state the constructor leaves, around the generator state [gen]. *)
Definition constructed (gen : GenState) : t := {|
  runtimeJIT_ := {| core := {| irGenerator_ := gen; compiledRegions_ := ∅;
                               stats_ := zero_stats |};
                    contextExecutionCounts_ := ∅;
                    config_ := default_config;
                    interpreter_ := 0 |};
  jitEnabled_ := true;
  instructionCounts_ := ∅;
|}.

Definition setJITEnabled (m : t) (enabled : bool) : t :=
  {| runtimeJIT_ := runtimeJIT_ m; jitEnabled_ := enabled;
     instructionCounts_ := instructionCounts_ m |}.

Definition configureJIT (m : t) (config : JITConfig) : t :=
  {| runtimeJIT_ := updateConfig (runtimeJIT_ m) config; jitEnabled_ := jitEnabled_ m;
     instructionCounts_ := instructionCounts_ m |}.

Definition updateInstructionStats (m : t) (lineNumber : Z) : t :=
  let o := runtimeJIT_ m in
  let s := stats_ (core o) in
  {| runtimeJIT_ :=
       with_core o
         {| irGenerator_ := irGenerator_ (core o);
            compiledRegions_ := compiledRegions_ (core o);
            stats_ := {| totalInstructions := wrap64 (totalInstructions s + 1);
                         jitCompiledInstructions := jitCompiledInstructions s;
                         jitExecutions := jitExecutions s;
                         interpreterExecutions := interpreterExecutions s;
                         jitCompilationTime := jitCompilationTime s;
                         jitExecutionTime := jitExecutionTime s;
                         interpreterExecutionTime := interpreterExecutionTime s |} |};
     jitEnabled_ := jitEnabled_ m;
     instructionCounts_ :=
       <[lineNumber := wrap64 (default 0 (instructionCounts_ m !! lineNumber) + 1)]>
         (instructionCounts_ m) |}.

Definition shouldAttemptJIT (m : t) (ctx : Z) (context : Context) (lineNumber : Z) : bool :=
  match instructionCounts_ m !! lineNumber with
  | Some n => if 50 <=? n then shouldCompileContext (runtimeJIT_ m) ctx context else false
  | None => false
  end.

(** What a step does besides changing the fields. *)
Inductive StepEvent :=
| EvJIT (evs : list Event)          (* what executeJITOrFallback did *)
| EvDoOneLine (line : Z).           (* DoOneLine(context->code[line], context) *)

(** [Context::Done()] is declared by the host (MiniscriptTAC.h, not part of
    these sources): a parameter. *)
Variable Done : Context -> bool.

(** The head of [Step] on the stack of contexts, the top (what
    [stack.Last()] designates) first: each context is its address and its
    contents. [if (stack.Count() == 0) return;] and then (past the reading
    of the wall clock into [startTime], which the JIT layer never reads) the
    loop
    [while (context->Done()) { if (stack.Count() == 1) return; PopContext();
    context = stack.Last(); }]. [PopContext] is the host's too; it is taken
    to remove the top of the stack and to leave the code and the line numbers
    of the contexts below as they are. The result is the stack that is left
    and whether [Step] goes on to run a line of its top. *)
Fixpoint skip_done (stack : list (Z * Context)) : list (Z * Context) * bool :=
  match stack with
  | [] => ([], false)
  | top :: below =>
      if Done top.2 then
        match below with
        | [] => (stack, false)
        | _ :: _ => skip_done below
        end
      else (stack, true)
  end.

(** [Step]; [stack] is the stack on entry, [order] and [elapsed] are the
    enumeration order of the cache and the timer reading, should the
    dispatcher be called. The result is the machine, the stack after the
    contexts that are done have been popped, the value left in
    [context->lineNum] before the host's [DoOneLine] runs ([None] when [Step]
    returns early), and the calls made. *)
Definition Step (m : t) (stack : list (Z * Context))
    (order : list (string * CompiledRegion)) (elapsed : double)
  : t * list (Z * Context) * option Z * list StepEvent :=
  match skip_done stack with
  | (((ctx, context) :: _) as stack, true) =>
      let currentLine := lineNum context in
      let m := updateInstructionStats m currentLine in
      let interpret (m : t) (evs : list StepEvent) :=
        (m, stack, Some (lineNum context + 1), evs ++ [EvDoOneLine (lineNum context)]) in
      if jitEnabled_ m && shouldAttemptJIT m ctx context currentLine then
        let '(ok, jit, line, evs) :=
          executeJITOrFallback (core (runtimeJIT_ m)) order ctx currentLine elapsed in
        let m := {| runtimeJIT_ := with_core (runtimeJIT_ m) jit;
                    jitEnabled_ := jitEnabled_ m;
                    instructionCounts_ := instructionCounts_ m |} in
        if ok then (m, stack, Some line, [EvJIT evs])
        else interpret m [EvJIT evs]
      else interpret m []
  | (stack, _) => (m, stack, None, [])
  end.

(** The calls a user of the machine can make. *)
Inductive Call :=
| CallStep (stack : list (Z * Context))
    (order : list (string * CompiledRegion)) (elapsed : double)
| CallSetJITEnabled (enabled : bool)
| CallConfigureJIT (config : JITConfig).

Definition call (m : t) (c : Call) : t * list StepEvent :=
  match c with
  | CallStep stack order elapsed =>
      let '(m, _, _, evs) := Step m stack order elapsed in (m, evs)
  | CallSetJITEnabled enabled => (setJITEnabled m enabled, [])
  | CallConfigureJIT config => (configureJIT m config, [])
  end.

(** A series of calls: the machine and everything that was run. *)
Definition calls (m : t) (cs : list Call) : t * list StepEvent :=
  fold_left (fun '(m, evs) c => let '(m, evs') := call m c in (m, evs ++ evs'))
            cs (m, []).

(** What [Machine::Step], the interpreter alone, would have run on a stack:
    one line of the first context that is not done, or nothing when the
    stack is empty or the program has finished. *)
Definition line_to_run (stack : list (Z * Context)) : option StepEvent :=
  match skip_done stack with
  | ((_, context) :: _, true) => Some (EvDoOneLine (lineNum context))
  | _ => None
  end.

Definition interpreted (cs : list Call) : list StepEvent :=
  omap (fun c => match c with
                 | CallStep stack _ _ => line_to_run stack
                 | _ => None
                 end) cs.

(** The number of steps that ran a line. *)
Definition steps (cs : list Call) : Z :=
  Z.of_nat (length (interpreted cs)).

End Object.

End RuntimeJITMachine.

(* ===================================================================== *)
(** * JITMachine.cpp: the remaining methods of the dispatcher *)
(* ===================================================================== *)

Module JITMachineCalls.

Import JITMachine.

Definition SetJITEnabled (jm : t) (enabled : bool) : t :=
  {| jit_ := jit_ jm; jitEnabled_ := enabled; profile_ := profile_ jm |}.

(** [ClearJITCache] empties the two counters, when [jit_] is set. *)
Definition ClearJITCache (jm : t) : t :=
  if jit_ jm then
    {| jit_ := jit_ jm; jitEnabled_ := jitEnabled_ jm;
       profile_ := {| contextExecutionCounts := ∅; lineExecutionCounts := ∅;
                      lastProfileUpdate := lastProfileUpdate (profile_ jm) |} |}
  else jm.

(** [Step]: [ctx] is [machine_->GetTopContext()], [done] the answer of
    [context->Done()], [context] and [context'] the contents of the context
    before and after the host's step, [now] the clock reading. *)
Definition Step (jm : t) (ctx : Z) (done : bool) (context context' : Context) (now : Z)
  : t * list Event :=
  if (ctx =? 0) || done then (jm, [EvMachineStep])
  else if jitEnabled_ jm && jit_ jm
       then ExecuteWithJITOrFallback jm ctx context context' now
       else (jm, [EvMachineStep]).

(** The calls a user of the machine can make. *)
Inductive Call :=
| CallStep (ctx : Z) (done : bool) (context context' : Context) (now : Z)
| CallSetJITEnabled (enabled : bool)
| CallClearJITCache
| CallCompileContextRange (ctx : Z) (startLine endLine : Z).

Definition call (jm : t) (c : Call) : t * list Event :=
  match c with
  | CallStep ctx done context context' now => Step jm ctx done context context' now
  | CallSetJITEnabled enabled => (SetJITEnabled jm enabled, [])
  | CallClearJITCache => (ClearJITCache jm, [])
  | CallCompileContextRange ctx startLine endLine => (jm, [])
  end.

Definition calls (jm : t) (cs : list Call) : t * list Event :=
  fold_left (fun '(jm, evs) c => let '(jm, evs') := call jm c in (jm, evs ++ evs'))
            cs (jm, []).

(** One host step per [Step], and nothing else. *)
Definition host_steps (cs : list Call) : list Event :=
  omap (fun c => match c with
                 | CallStep _ _ _ _ _ => Some EvMachineStep
                 | _ => None
                 end) cs.

(** A series of dispatches, each in the context at some address, and the
    number of them that ran in the context at [ctx]. *)
Definition dispatch_all (jm : t) (ds : list (Z * Context * Context * Z)) : t :=
  fold_left (fun jm '(ctx, context, context', now) =>
               fst (ExecuteWithJITOrFallback jm ctx context context' now)) ds jm.

Definition dispatched (ctx : Z) (ds : list (Z * Context * Context * Z)) : Z :=
  Z.of_nat (length (List.filter (fun d => bool_decide (d.1.1.1 = ctx)) ds)).

End JITMachineCalls.
(* ===================================================================== *)
(** * ProfilerTest.cpp: the interpreter the JIT is measured against *)
(* ===================================================================== *)

(** [std::pow], from the C library. *)
Class Libm := {
  pow : double -> double -> double;
}.

Module InterpreterSimulator.

Section Interpreter.
Context `{Libm}.

(** [variables[name]]: [operator[]] of [std::unordered_map] inserts a
    value-initialised entry (0.0) under a missing key. *)
Definition read (variables : gmap string double) (name : string)
  : double * gmap string double :=
  match variables !! name with
  | Some v => (v, variables)
  | None => (Double.lit 0.0, <[name := Double.lit 0.0]> variables)
  end.

(** The loop that maps the input arguments: it stops at the shorter of the
    two vectors. *)
Fixpoint bind_inputs (variables : gmap string double) (input_variables : list string)
    (args : list double) : gmap string double :=
  match input_variables, args with
  | name :: names, arg :: args => bind_inputs (<[name := arg]> variables) names args
  | _, _ => variables
  end.

(** One instruction of the loop of [executeExpression]. The two operands of
    a binary operation are read in the order A, B. *)
Definition step (variables : gmap string double) (instr : SimpleTACLine.t)
  : gmap string double :=
  let binary (f : double -> double -> double) :=
    let '(a, variables) := read variables (SimpleTACLine.operandA instr) in
    let '(b, variables) := read variables (SimpleTACLine.operandB instr) in
    (f a b, variables) in
  let '(result, variables) :=
    match SimpleTACLine.operation instr with
    | SimpleTACLine.LOAD_CONST => (SimpleTACLine.constant_value instr, variables)
    | SimpleTACLine.LOAD_VAR => read variables (SimpleTACLine.operandA instr)
    | SimpleTACLine.ADD => binary Double.add
    | SimpleTACLine.SUB => binary Double.sub
    | SimpleTACLine.MUL => binary Double.mul
    | SimpleTACLine.DIV => binary Double.div
    | SimpleTACLine.POW => binary pow
    | SimpleTACLine.ASSIGN => (Double.lit 0.0, variables)
    end in
  <[SimpleTACLine.result instr := result]> variables.

(** [executeExpression]: the value returned. *)
Definition executeExpression (expr : SimpleExpression) (args : list double) : double :=
  let variables := bind_inputs ∅ (input_variables expr) args in
  let variables := fold_left step (instructions expr) variables in
  fst (read variables (output_variable expr)).

End Interpreter.

End InterpreterSimulator.

(* ===================================================================== *)
(** * MiniScriptJIT.cpp: running the compiled function *)
(* ===================================================================== *)

(** The meaning of the IR built by [generateLLVMIR]: [fadd], [fsub], [fmul]
    and [fdiv] on [double] are the IEEE 754 operations, the intrinsic
    [llvm.pow] is [pow], and an argument is the actual parameter at its
    position. [args] are the actual parameters of the call. *)
Fixpoint eval_value `{Libm} (args : list double) (v : LLVM.Value) : double :=
  match v with
  | LLVM.Argument index => default (Double.lit 0.0) (args !! index)
  | LLVM.ConstantFP d => d
  | LLVM.FAdd l r => Double.add (eval_value args l) (eval_value args r)
  | LLVM.FSub l r => Double.sub (eval_value args l) (eval_value args r)
  | LLVM.FMul l r => Double.mul (eval_value args l) (eval_value args r)
  | LLVM.FDiv l r => Double.div (eval_value args l) (eval_value args r)
  | LLVM.CallPow l r => pow (eval_value args l) (eval_value args r)
  end.

(** The four actual parameters that [executeCompiledFunction] passes: the
    first four of [args], padded with zeros. *)
Definition padded_args (args : list double) : list double :=
  [default (Double.lit 0.0) (args !! 0%nat);
   default (Double.lit 0.0) (args !! 1%nat);
   default (Double.lit 0.0) (args !! 2%nat);
   default (Double.lit 0.0) (args !! 3%nat)].

(** *** Notions used in the statements *)

(** Every argument that a value refers to is one of the first [n]. *)
Fixpoint arguments_below (n : nat) (v : LLVM.Value) : Prop :=
  match v with
  | LLVM.Argument index => (index < n)%nat
  | LLVM.ConstantFP _ => True
  | LLVM.FAdd l r | LLVM.FSub l r | LLVM.FMul l r | LLVM.FDiv l r | LLVM.CallPow l r =>
      arguments_below n l /\ arguments_below n r
  end.

(** The names an instruction reads. *)
Definition reads (instr : SimpleTACLine.t) : list string :=
  match SimpleTACLine.operation instr with
  | SimpleTACLine.LOAD_CONST => []
  | SimpleTACLine.LOAD_VAR => [SimpleTACLine.operandA instr]
  | SimpleTACLine.ASSIGN => []
  | _ => [SimpleTACLine.operandA instr; SimpleTACLine.operandB instr]
  end.

(** A sequence is well scoped from the names [bound]: no instruction is an
    [ASSIGN], and each one reads only names that are inputs or results of
    earlier instructions. *)
Fixpoint well_scoped (bound : list string) (instrs : list SimpleTACLine.t) : Prop :=
  match instrs with
  | [] => True
  | instr :: rest =>
      SimpleTACLine.operation instr <> SimpleTACLine.ASSIGN /\
      (forall name, name ∈ reads instr -> name ∈ bound) /\
      well_scoped (SimpleTACLine.result instr :: bound) rest
  end.

(** The names bound after a sequence. *)
Definition bound_after (bound : list string) (instrs : list SimpleTACLine.t) : list string :=
  fold_left (fun bound instr => SimpleTACLine.result instr :: bound) instrs bound.
(* ===================================================================== *)
(** * SimpleExpressionJIT.cpp and AdvancedJIT.cpp: the expression trees of
      the first JIT prototypes *)
(* ===================================================================== *)

Module ExpressionNode.

(** The enumeration [TACLine::Op] that the two standalone prototypes declare
    for themselves. *)
Inductive Op := APlusB | AMinusB | ATimesB | ADividedByB | AToTheBthPower.

(** A node and what it owns: [type] selects the constructor. *)
Inductive t :=
| NUMBER (number_value : double)
| VARIABLE (variable_name : ascii)
| BINARY_OP (operation : Op) (left right : t).

Definition createNumber (value : double) : t := NUMBER value.
Definition createVariable (name : ascii) : t := VARIABLE name.
Definition createBinaryOp (op : Op) (l r : t) : t := BINARY_OP op l r.

Section Evaluate.
Context `{Libm}.

(** [a != b] on doubles: true when the two differ or one is a NaN. *)
Definition neb (a b : double) : bool := negb (SFeqb a b).

(** [interpret]. *)
Fixpoint interpret (e : t) (a b c d : double) : double :=
  match e with
  | NUMBER number_value => number_value
  | VARIABLE variable_name =>
      if decide (variable_name = "a"%char) then a
      else if decide (variable_name = "b"%char) then b
      else if decide (variable_name = "c"%char) then c
      else if decide (variable_name = "d"%char) then d
      else Double.lit 0.0
  | BINARY_OP operation l r =>
      let left_val := interpret l a b c d in
      let right_val := interpret r a b c d in
      match operation with
      | APlusB => Double.add left_val right_val
      | AMinusB => Double.sub left_val right_val
      | ATimesB => Double.mul left_val right_val
      | ADividedByB => Double.div left_val right_val
      | AToTheBthPower => pow left_val right_val
      end
  end.

(** [SimpleExpressionJIT::evaluateOptimized]: the variable is looked up by
    [variable_name - 'a'] in the array of the four arguments. *)
Fixpoint evaluateOptimized (e : t) (a b c d : double) : double :=
  match e with
  | NUMBER number_value => number_value
  | VARIABLE variable_name =>
      let vars := [a; b; c; d] in
      let index := Z.of_nat (nat_of_ascii variable_name) - Z.of_nat (nat_of_ascii "a") in
      if (0 <=? index) && (index <? 4)
      then default (Double.lit 0.0) (vars !! Z.to_nat index)
      else Double.lit 0.0
  | BINARY_OP operation l r =>
      let left_val := evaluateOptimized l a b c d in
      let right_val := evaluateOptimized r a b c d in
      match operation with
      | APlusB => Double.add left_val right_val
      | AMinusB => Double.sub left_val right_val
      | ATimesB => Double.mul left_val right_val
      | ADividedByB =>
          if neb right_val (Double.lit 0.0) then Double.div left_val right_val
          else Double.lit 0.0
      | AToTheBthPower => pow left_val right_val
      end
  end.

(** Every division of the tree has a divisor that is not zero (a NaN
    divisor counts as not zero), on the arguments given. *)
Fixpoint no_zero_divisor (e : t) (a b c d : double) : Prop :=
  match e with
  | BINARY_OP operation l r =>
      no_zero_divisor l a b c d /\ no_zero_divisor r a b c d /\
      (operation = ADividedByB -> neb (interpret r a b c d) (Double.lit 0.0) = true)
  | _ => True
  end.

End Evaluate.

(** [ExpressionFactory::createSimpleExpression]: a + b * 2.5. *)
Definition createSimpleExpression : t :=
  let a := createVariable "a" in
  let b := createVariable "b" in
  let constant := createNumber (Double.lit 2.5) in
  let multiply := createBinaryOp ATimesB b constant in
  createBinaryOp APlusB a multiply.

(** [ExpressionFactory::createComplexExpression]: (a + b) * (c - d) / 3.14159. *)
Definition createComplexExpression : t :=
  let a := createVariable "a" in
  let b := createVariable "b" in
  let c := createVariable "c" in
  let d := createVariable "d" in
  let pi := createNumber (Double.lit 3.14159) in
  let add := createBinaryOp APlusB a b in
  let sub := createBinaryOp AMinusB c d in
  let multiply := createBinaryOp ATimesB add sub in
  createBinaryOp ADividedByB multiply pi.

End ExpressionNode.

(** ** SimpleExpressionJIT *)
Module SimpleExpressionJIT.

(** A compiled function is the closure [[expr](a, b, c, d) { return
    evaluateOptimized(expr, a, b, c, d); }]: it is known by the expression it
    captured. *)
Definition CompiledExpressionFunc : Type := ExpressionNode.t.

Record t := {
  compiled_cache : gmap string CompiledExpressionFunc;
}.

Definition new : t := {| compiled_cache := ∅ |}.

Definition compileExpression (jit : t) (expr : ExpressionNode.t) (name : string)
  : CompiledExpressionFunc * t :=
  match compiled_cache jit !! name with
  | Some f => (f, jit)                                   (* Check cache first *)
  | None => (expr, {| compiled_cache := <[name := expr]> (compiled_cache jit) |})
  end.

(** Calling a compiled function. *)
Definition run `{Libm} (f : CompiledExpressionFunc) (a b c d : double) : double :=
  ExpressionNode.evaluateOptimized f a b c d.

End SimpleExpressionJIT.

(** ** AdvancedJIT.cpp *)
Module OptimizedExpressions.

(** [SimpleExpression::evaluate]. *)
Definition SimpleExpression_evaluate (a b c d : double) : double :=
  Double.add a (Double.mul b (Double.lit 2.5)).

(** [ComplexExpression::evaluate]. *)
Definition ComplexExpression_evaluate (a b c d : double) : double :=
  Double.mul (Double.mul (Double.add a b) (Double.sub c d)) (Double.lit 0.318309886184).

End OptimizedExpressions.

Module BytecodeJIT.

Inductive Operation :=
| LOAD_VAR (var_index : Z)       (* 0=a, 1=b, 2=c, 3=d *)
| LOAD_CONST (constant : double)
| ADD | SUB | MUL | DIV | POW.

Definition simple_bytecode : list Operation :=
  [LOAD_VAR 0; LOAD_VAR 1; LOAD_CONST (Double.lit 2.5); MUL; ADD].

Definition complex_bytecode : list Operation :=
  [LOAD_VAR 0; LOAD_VAR 1; ADD; LOAD_VAR 2; LOAD_VAR 3; SUB; MUL;
   LOAD_CONST (Double.lit 0.318309886184); MUL].

Section Execute.
Context `{Libm}.

(** The live part of [double stack[16]]: the entries [stack[0 .. sp]], with
    [stack[sp]] at the head. An access outside the array, or a read of
    [variables] outside its four entries, is undefined: [None]. *)
Definition push (stack : list double) (v : double) : option (list double) :=
  if (length stack <? 16)%nat then Some (v :: stack) else None.

Definition binary (stack : list double) (f : double -> double -> double)
  : option (list double) :=
  match stack with
  | top :: below :: rest => Some (f below top :: rest)
  | _ => None
  end.

Definition step (variables : list double) (stack : list double) (op : Operation)
  : option (list double) :=
  match op with
  | LOAD_VAR var_index =>
      if (0 <=? var_index) && (var_index <? 4)
      then v ← variables !! Z.to_nat var_index; push stack v
      else None
  | LOAD_CONST constant => push stack constant
  | ADD => binary stack Double.add
  | SUB => binary stack Double.sub
  | MUL => binary stack Double.mul
  | DIV => binary stack Double.div
  | POW => binary stack pow
  end.

Fixpoint run (variables : list double) (stack : list double) (bytecode : list Operation)
  : option (list double) :=
  match bytecode with
  | [] => Some stack
  | op :: rest => stack ← step variables stack op; run variables stack rest
  end.

(** [executeBytecode] returns [stack[0]], the bottom of the stack; it has
    been written when the stack is not empty at the end. *)
Definition executeBytecode (bytecode : list Operation) (a b c d : double) : option double :=
  stack ← run [a; b; c; d] [] bytecode; last stack.

Definition evaluateSimple (a b c d : double) : option double :=
  executeBytecode simple_bytecode a b c d.

Definition evaluateComplex (a b c d : double) : option double :=
  executeBytecode complex_bytecode a b c d.

End Execute.

(** *** Notions used in the statements *)

(** The index of a variable in the array of the arguments. *)
Definition var_index_of (name : ascii) : option Z :=
  if decide (name = "a"%char) then Some 0
  else if decide (name = "b"%char) then Some 1
  else if decide (name = "c"%char) then Some 2
  else if decide (name = "d"%char) then Some 3
  else None.

Definition operation_of (op : ExpressionNode.Op) : Operation :=
  match op with
  | ExpressionNode.APlusB => ADD
  | ExpressionNode.AMinusB => SUB
  | ExpressionNode.ATimesB => MUL
  | ExpressionNode.ADividedByB => DIV
  | ExpressionNode.AToTheBthPower => POW
  end.

(** The postfix form of an expression tree, the scheme by which the two
    bytecode programs of the constructor were written: left operand, right
    operand, operation. *)
Fixpoint postfix (e : ExpressionNode.t) : option (list Operation) :=
  match e with
  | ExpressionNode.NUMBER v => Some [LOAD_CONST v]
  | ExpressionNode.VARIABLE name => i ← var_index_of name; Some [LOAD_VAR i]
  | ExpressionNode.BINARY_OP op l r =>
      pl ← postfix l; pr ← postfix r; Some (pl ++ pr ++ [operation_of op])
  end.

(** The stack slots the postfix form of a tree needs. *)
Fixpoint stack_need (e : ExpressionNode.t) : nat :=
  match e with
  | ExpressionNode.BINARY_OP _ l r => Nat.max (stack_need l) (S (stack_need r))
  | _ => 1
  end.

End BytecodeJIT.

(* ===================================================================== *)
(** * SpecializedInstructions.cpp: type inference for specialised operations *)
(* ===================================================================== *)

Module TypeInferenceEngine.

(** Modelled from the spec: the host's [ValueType] (MiniscriptTypes.h is not
    part of these sources; the JIT sources name the enumerators [Null],
    [Number], [String], [List], [Map], [Var] and [Temp], and §6 of the
    specification lists the value variants Null, Number, String, List, Map,
    must-be-interpreted). [OtherType] stands for the others. *)
Inductive ValueType :=
| Null | Number | String | List | Map | Temp | Var | OtherType (code : Z).

#[global] Instance ValueType_eq_dec : EqDecision ValueType.
Proof. solve_decision. Defined.

(** [SpecializedOps::OpCode]; [NoOp] is the value 0 returned when no
    specialisation is available. *)
Inductive OpCode :=
| NoOp
| NUMBER_ADD | NUMBER_SUB | NUMBER_MUL | NUMBER_DIV
| STRING_CONCAT | STRING_REPEAT
| MAP_GET_STRING | MAP_SET_STRING | LIST_GET_INDEX | LIST_SET_INDEX
| ASSIGN_LOCAL_NUMBER | ASSIGN_LOCAL_STRING
| NUMBER_EQUAL | NUMBER_LESS | STRING_EQUAL.

#[global] Instance OpCode_eq_dec : EqDecision OpCode.
Proof. solve_decision. Defined.

(** The enumerator values. *)
Definition OpCode_value (o : OpCode) : Z :=
  match o with
  | NoOp => 0
  | NUMBER_ADD => 1000 | NUMBER_SUB => 1001 | NUMBER_MUL => 1002 | NUMBER_DIV => 1003
  | STRING_CONCAT => 1004 | STRING_REPEAT => 1005
  | MAP_GET_STRING => 1006 | MAP_SET_STRING => 1007
  | LIST_GET_INDEX => 1008 | LIST_SET_INDEX => 1009
  | ASSIGN_LOCAL_NUMBER => 1010 | ASSIGN_LOCAL_STRING => 1011
  | NUMBER_EQUAL => 1012 | NUMBER_LESS => 1013 | STRING_EQUAL => 1014
  end.

(** [inferResultType]. The case [ElemBofA] returns [Null] on every path, as
    the default does. *)
Definition inferResultType (op : TACLine.Op) (typeA typeB : ValueType) : ValueType :=
  match op with
  | TACLine.APlusB =>
      if bool_decide (typeA = Number) && bool_decide (typeB = Number) then Number
      else if bool_decide (typeA = String) && bool_decide (typeB = String) then String
      else Null
  | TACLine.AMinusB | TACLine.ATimesB | TACLine.ADividedByB =>
      if bool_decide (typeA = Number) && bool_decide (typeB = Number) then Number else Null
  | TACLine.AEqualB | TACLine.ANotEqualB | TACLine.AGreaterThanB | TACLine.ALessThanB =>
      Number
  | _ => Null
  end.

Definition canSpecialize (op : TACLine.Op) (typeA typeB : ValueType) : bool :=
  match op with
  | TACLine.APlusB =>
      (bool_decide (typeA = Number) && bool_decide (typeB = Number))
      || (bool_decide (typeA = String) && bool_decide (typeB = String))
  | TACLine.AMinusB | TACLine.ATimesB | TACLine.ADividedByB =>
      bool_decide (typeA = Number) && bool_decide (typeB = Number)
  | TACLine.AEqualB | TACLine.ANotEqualB =>
      (bool_decide (typeA = Number) && bool_decide (typeB = Number))
      || (bool_decide (typeA = String) && bool_decide (typeB = String))
  | _ => false
  end.

Definition getSpecializedOp (op : TACLine.Op) (typeA typeB : ValueType) : OpCode :=
  match op with
  | TACLine.APlusB =>
      if bool_decide (typeA = Number) && bool_decide (typeB = Number) then NUMBER_ADD
      else if bool_decide (typeA = String) && bool_decide (typeB = String) then STRING_CONCAT
      else NoOp
  | TACLine.AMinusB =>
      if bool_decide (typeA = Number) && bool_decide (typeB = Number) then NUMBER_SUB else NoOp
  | TACLine.ATimesB =>
      if bool_decide (typeA = Number) && bool_decide (typeB = Number) then NUMBER_MUL else NoOp
  | TACLine.ADividedByB =>
      if bool_decide (typeA = Number) && bool_decide (typeB = Number) then NUMBER_DIV else NoOp
  | TACLine.AEqualB =>
      if bool_decide (typeA = Number) && bool_decide (typeB = Number) then NUMBER_EQUAL
      else if bool_decide (typeA = String) && bool_decide (typeB = String) then STRING_EQUAL
      else NoOp
  | _ => NoOp
  end.

(** [SpecializingTACProcessor::inferOperandType], on the type tag of the
    operand. *)
Definition inferOperandType (type : ValueType) : ValueType :=
  if decide (type = Number) then Number
  else if decide (type = String) then String
  else if decide (type = Map) then Map
  else if decide (type = List) then List
  else Null.

(** [trySpecializeOperation], on the operator and the type tags of the two
    operands of the line. *)
Definition trySpecializeOperation (op : TACLine.Op) (tagA tagB : ValueType) : bool :=
  canSpecialize op (inferOperandType tagA) (inferOperandType tagB).

(** [processContext]: the two counters after the lines given. *)
Definition processContext (counters : Z * Z) (lines : list (TACLine.Op * ValueType * ValueType))
  : Z * Z :=
  fold_left (fun '(total_operations, specialized_operations) '(op, tagA, tagB) =>
               (total_operations + 1,
                if trySpecializeOperation op tagA tagB
                then specialized_operations + 1 else specialized_operations))
            lines counters.

(** *** Notions used in the statements *)

(** The type of the result of a specialised operation. *)
Definition OpCode_result (o : OpCode) : option ValueType :=
  match o with
  | NUMBER_ADD | NUMBER_SUB | NUMBER_MUL | NUMBER_DIV => Some Number
  | STRING_CONCAT | STRING_REPEAT => Some String
  | NUMBER_EQUAL | NUMBER_LESS | STRING_EQUAL => Some Number
  | _ => None
  end.

End TypeInferenceEngine.

(* ===================================================================== *)
(** * Worked examples for the statements above *)
(* ===================================================================== *)

(** A C library for the worked examples, none of which raises to a power:
    its [pow] answers NaN. *)
Definition example_libm : Libm := {| pow := fun _ _ => S754_nan |}.

(** The arguments of the benchmarks. *)
Definition testArgs : list double :=
  [Double.lit 10.5; Double.lit 7.3; Double.lit 15.2; Double.lit 4.8].

(** A quotient by zero: a / (b - b). *)
Definition quotient_by_zero : ExpressionNode.t :=
  ExpressionNode.BINARY_OP ExpressionNode.ADividedByB
    (ExpressionNode.VARIABLE "a")
    (ExpressionNode.BINARY_OP ExpressionNode.AMinusB
       (ExpressionNode.VARIABLE "b") (ExpressionNode.VARIABLE "b")).

(** Its reciprocal: 1 / (a / (b - b)). *)
Definition reciprocal_of_quotient_by_zero : ExpressionNode.t :=
  ExpressionNode.BINARY_OP ExpressionNode.ADividedByB
    (ExpressionNode.NUMBER (Double.lit 1.0)) quotient_by_zero.

(** 51 dispatches in the context at address 4096 and 7 in the one at 8192. *)
Definition fifty_one_dispatches : list (Z * Context * Context * Z) :=
  replicate 51 (4096, far_loop_context, far_loop_context', 0)
  ++ replicate 7 (8192, loop_context, loop_context, 0).
(* ===================================================================== *)
(** * testing/jit-development/simple_pool_test.cpp: the block allocator *)
(* ===================================================================== *)

Module SimplePool.

Definition BLOCK_SIZE : Z := 64.

(** A block, without the storage of its entries: [free_list] and
    [used_count]. The link [next] is the order of the list of blocks. *)
Record Block := {
  free_list : list bool;               (* bool free_list[BLOCK_SIZE] *)
  used_count : Z;                      (* size_t *)
}.

(** The constructor of [Block]. *)
Definition new_Block : Block := {|
  free_list := replicate (Z.to_nat BLOCK_SIZE) true;
  used_count := 0;
|}.

(** The pool: the blocks from [first_block] along [next], the newest first
    (no block is freed before the pool is). *)
Record t := {
  first_block : list Block;
  total_allocations : Z;               (* size_t *)
}.

Definition new : t := {| first_block := []; total_allocations := 0 |}.

(** A [T*] that points into the pool: the block, by its number in the order
    of creation, and the index in its [entries]. [nullptr] is [None]. *)
Definition Ptr : Type := (nat * nat)%type.

(** The block with the number [id]: new blocks are linked in at the head. *)
Definition block_of (blocks : list Block) (id : nat) : option Block :=
  if (id <? length blocks)%nat then blocks !! (length blocks - 1 - id)%nat else None.

(** The walk [while (block) { if (block->used_count < BLOCK_SIZE) break;
    block = block->next; }]: the position of the block it stops at. *)
Fixpoint find_block (blocks : list Block) : option nat :=
  match blocks with
  | [] => None
  | block :: next =>
      if used_count block <? BLOCK_SIZE then Some 0%nat else S <$> find_block next
  end.

(** The loop [for (i = 0; i < BLOCK_SIZE; ++i) if (block->free_list[i])]. *)
Fixpoint find_slot (free_list : list bool) : option nat :=
  match free_list with
  | [] => None
  | free :: rest => if free then Some 0%nat else S <$> find_slot rest
  end.

(** [allocate]: the pointer returned and the pool after the call. *)
Definition allocate (p : t) : option Ptr * t :=
  let total := wrap64 (total_allocations p + 1) in
  (* Find block with free space, create new block if needed *)
  let '(blocks, pos) :=
    match find_block (first_block p) with
    | Some pos => (first_block p, pos)
    | None => (new_Block :: first_block p, 0%nat)
    end in
  match blocks !! pos with
  | Some block =>
      (* Find free slot *)
      match find_slot (free_list block) with
      | Some i =>
          let block := {| free_list := <[i := false]> (free_list block);
                          used_count := wrap64 (used_count block + 1) |} in
          (Some ((length blocks - 1 - pos)%nat, i),
           {| first_block := <[pos := block]> blocks; total_allocations := total |})
      | None => (None, {| first_block := blocks; total_allocations := total |})
      end
  | None => (None, {| first_block := blocks; total_allocations := total |})
  end.

(** [deallocate]: the walk finds the block whose [entries] hold the pointer,
    if there is one. *)
Definition deallocate (p : t) (entry : option Ptr) : t :=
  match entry with
  | None => p
  | Some (id, index) =>
      let blocks := first_block p in
      match block_of blocks id with
      | Some block =>
          if (index <? Z.to_nat BLOCK_SIZE)%nat then
            let block := {| free_list := <[index := true]> (free_list block);
                            used_count := wrap64 (used_count block - 1) |} in
            {| first_block := <[(length blocks - 1 - id)%nat := block]> blocks;
               total_allocations := total_allocations p |}
          else p
      | None => p
      end
  end.

Definition get_allocations (p : t) : Z := total_allocations p.

(** *** Notions used in the statements *)

(** The entries of a block that are in use. *)
Fixpoint in_use (free_list : list bool) : nat :=
  match free_list with
  | [] => 0
  | free :: rest => (if free then 0 else 1) + in_use rest
  end.

(** A block is well formed: [BLOCK_SIZE] flags, and [used_count] counts the
    entries in use. *)
Definition block_ok (block : Block) : Prop :=
  length (free_list block) = Z.to_nat BLOCK_SIZE /\
  used_count block = Z.of_nat (in_use (free_list block)).

Definition ok (p : t) : Prop := Forall block_ok (first_block p).

(** The entry a pointer designates has been handed out and not given back. *)
Definition allocated (p : t) (ptr : Ptr) : bool :=
  match block_of (first_block p) ptr.1 with
  | Some block =>
      match free_list block !! ptr.2 with
      | Some free => negb free
      | None => false
      end
  | None => false
  end.

End SimplePool.

(** A worked example: the pool after [n] allocations and nothing given
    back. *)
Definition pool_after (n : nat) : SimplePool.t :=
  Nat.iter n (fun p => (SimplePool.allocate p).2) SimplePool.new.
(* ===================================================================== *)
(** * RuntimeJIT.cpp: compileContextRange, one critical section at a time *)
(* ===================================================================== *)

(** [compileContextRange] holds [mutex_] while it looks the fingerprint up
    and releases it; it extracts, checks and generates without the lock; it
    takes [mutex_] again to store the region. Callers on several threads
    interleave at these points. *)
Module Interleaved.

(** Where a caller stands in [compileContextRange]. *)
Inductive Position :=
| AtLookup                          (* before the locked lookup *)
| AtGenerate                        (* the lookup missed; before extractTACSequence *)
| AtStore (compiledFunction : Z)    (* generated; before the locked store *)
| Finished (result : bool).         (* returned *)

(** A caller: its arguments, the reading its [compilationTimer] gives on the
    success path, and where it stands. *)
Record Caller := {
  arg_ctx : Z;
  arg_context : Context;
  arg_startLine : Z;
  arg_endLine : Z;
  timer : double;
  position : Position;
}.

(** A caller about to enter [compileContextRange]. *)
Definition caller (ctx : Z) (context : Context) (startLine endLine : Z) (timer : double)
  : Caller :=
  {| arg_ctx := ctx; arg_context := context; arg_startLine := startLine;
     arg_endLine := endLine; timer := timer; position := AtLookup |}.

Definition moved (c : Caller) (p : Position) : Caller :=
  {| arg_ctx := arg_ctx c; arg_context := arg_context c;
     arg_startLine := arg_startLine c; arg_endLine := arg_endLine c;
     timer := timer c; position := p |}.

Section Interleaved.
Context `{Platform} `{Host} `{CodeGenerator}.

(** One caller moves to its next point: the locked lookup; the part without
    the lock, up to the reading of the timer (the call of the generator,
    which the sources do not synchronise, taken as indivisible); the locked
    store. The result is the shared object, the caller and the calls made to
    the generator. *)
Definition step (jit : RuntimeJIT) (c : Caller) : RuntimeJIT * Caller * list Event :=
  let fingerprint :=
    generateContextFingerprint (arg_ctx c) (arg_context c) (arg_startLine c) (arg_endLine c) in
  match position c with
  | AtLookup =>
      match compiledRegions_ jit !! fingerprint with
      | Some _ => (jit, moved c (Finished true), [])        (* Already compiled *)
      | None => (jit, moved c AtGenerate, [])
      end
  | AtGenerate =>
      let tacSequence :=
        extractTACSequence (arg_context c) (arg_startLine c) (arg_endLine c) in
      if negb (isCompilableSequence
                 (SubList (code (arg_context c)) (arg_startLine c)
                          (arg_endLine c - arg_startLine c + 1)))
      then (jit, moved c (Finished false), [])
      else
        let functionName := "jit_context_" +:+ fingerprint in
        let '(outcome, gen) := generateFunction (irGenerator_ jit) tacSequence functionName in
        let jit := {| irGenerator_ := gen;
                      compiledRegions_ := compiledRegions_ jit;
                      stats_ := stats_ jit |} in
        match outcome with
        | Returned (Some f) => (jit, moved c (AtStore f), [EvGenerate functionName tacSequence])
        | _ => (jit, moved c (Finished false), [EvGenerate functionName tacSequence])
        end
  | AtStore f =>
      let region := {| function := Some f;
                       startLine := arg_startLine c; endLine := arg_endLine c;
                       region_fingerprint := fingerprint;
                       compilationTime := timer c;
                       executionCount := 0 |} in
      let s := stats_ jit in
      ({| irGenerator_ := irGenerator_ jit;
          compiledRegions_ := <[fingerprint := region]> (compiledRegions_ jit);
          stats_ := {| totalInstructions := totalInstructions s;
                       jitCompiledInstructions :=
                         wrap64 (jitCompiledInstructions s
                                 + (arg_endLine c - arg_startLine c + 1));
                       jitExecutions := jitExecutions s;
                       interpreterExecutions := interpreterExecutions s;
                       jitCompilationTime := Double.add (jitCompilationTime s) (timer c);
                       jitExecutionTime := jitExecutionTime s;
                       interpreterExecutionTime := interpreterExecutionTime s |} |},
       moved c (Finished true), [])
  | Finished _ => (jit, c, [])
  end.

(** The callers share the object. A schedule names, move after move, the
    caller that moves next. *)
Definition run_step (state : RuntimeJIT * list Caller * list Event) (i : nat)
  : RuntimeJIT * list Caller * list Event :=
  let '(jit, callers, evs) := state in
  match callers !! i with
  | Some c => let '(jit, c, evs') := step jit c in (jit, <[i := c]> callers, evs ++ evs')
  | None => state
  end.

Definition run (jit : RuntimeJIT) (callers : list Caller) (schedule : list nat)
  : RuntimeJIT * list Caller * list Event :=
  fold_left run_step schedule (jit, callers, []).

(** *** Notions used in the statements *)

(** The callers of one region, one per timer reading. *)
Definition callers_of (ctx : Z) (context : Context) (startLine endLine : Z)
    (timers : list double) : list Caller :=
  caller ctx context startLine endLine <$> timers.

(** The schedule in which every one of [n] callers has done its lookup
    before any of them generates, and has generated before any of them
    stores. *)
Definition lookups_first (n : nat) : list nat := seq 0 n ++ seq 0 n ++ seq 0 n.

(** What a caller is after the part without the lock, and after its
    return. *)
Definition generated (c : Caller) : Prop :=
  position c = Finished false \/ exists f, position c = AtStore f.

Definition finished (c : Caller) : Prop := exists result, position c = Finished result.

End Interleaved.

End Interleaved.
(* ===================================================================== *)
(** * Further worked examples *)
(* ===================================================================== *)




(** A context is done when its line is past its code. *)
Definition example_Done (c : Context) : bool := Count c <=? lineNum c.

(** A context that has finished. *)
Definition finished_context : Context := {| code := [line_add]; lineNum := 1 |}.

(** Four steps of the derived machine: on the loop, on an empty stack, on
    the loop below a finished context, and on a finished context alone. *)
Definition four_steps : list (@RuntimeJITMachine.Call) :=
  [RuntimeJITMachine.CallStep [(4096, loop_context)] [] (Double.lit 0.0);
   RuntimeJITMachine.CallStep [] [] (Double.lit 0.0);
   RuntimeJITMachine.CallStep [(8192, finished_context); (4096, loop_context)] []
     (Double.lit 0.0);
   RuntimeJITMachine.CallStep [(8192, finished_context)] [] (Double.lit 0.0)].

(** Two callers of [compileContextRange] for the loop, on one new
    [RuntimeJIT]; the timer of the first reads 120 microseconds, that of the
    second 80. *)
Definition two_callers : list Interleaved.Caller :=
  Interleaved.callers_of 4096 loop_context 0 4 [Double.lit 120.0; Double.lit 80.0].

(** Both look up before either stores. *)
Definition two_racing_callers
  : @RuntimeJIT example_generator * list Interleaved.Caller * list Event :=
  @Interleaved.run example_platform example_host example_generator
    fresh_jit two_callers (Interleaved.lookups_first 2).

(** The second enters when the first has returned. *)
Definition two_callers_in_turn
  : @RuntimeJIT example_generator * list Interleaved.Caller * list Event :=
  @Interleaved.run example_platform example_host example_generator
    fresh_jit two_callers [0; 0; 0; 1; 1; 1]%nat.

(* ===================================================================== *)
(** * Facts about binary64 rounding *)
(* ===================================================================== *)

Section Rounding.

Lemma digits2_pos_bounds (p : positive) :
  2 ^ (Zpos (digits2_pos p) - 1) <= Zpos p < 2 ^ Zpos (digits2_pos p).
Proof.
  induction p as [p IH | p IH |]; cbn [digits2_pos].
  - rewrite Pos2Z.inj_succ, Z.pow_succ_r by lia.
    replace (Z.succ (Zpos (digits2_pos p)) - 1) with (Z.succ (Zpos (digits2_pos p) - 1)) by lia.
    rewrite Z.pow_succ_r by lia. lia.
  - rewrite Pos2Z.inj_succ, Z.pow_succ_r by lia.
    replace (Z.succ (Zpos (digits2_pos p)) - 1) with (Z.succ (Zpos (digits2_pos p) - 1)) by lia.
    rewrite Z.pow_succ_r by lia. lia.
  - cbn. lia.
Qed.

Lemma digits2_pos_unique (p : positive) (d : Z) :
  0 < d -> 2 ^ (d - 1) <= Zpos p < 2 ^ d -> Zpos (digits2_pos p) = d.
Proof.
  intros Hd [Hlo Hhi].
  pose proof (digits2_pos_bounds p) as [Blo Bhi].
  destruct (Z.lt_trichotomy (Zpos (digits2_pos p)) d) as [Hlt | [Heq | Hgt]]; [ | exact Heq | ].
  - assert (2 ^ Zpos (digits2_pos p) <= 2 ^ (d - 1)) by (apply Z.pow_le_mono_r; lia). lia.
  - assert (2 ^ d <= 2 ^ (Zpos (digits2_pos p) - 1)) by (apply Z.pow_le_mono_r; lia). lia.
Qed.

Lemma shr_1_m (mrs : shr_record) :
  0 <= shr_m mrs -> shr_m (shr_1 mrs) = shr_m mrs / 2.
Proof.
  destruct mrs as [m r s]; cbn [shr_m shr_1].
  destruct m as [| [p | p |] | p]; intros Hm; cbn [shr_m]; try lia.
  - reflexivity.
  - rewrite Pos2Z.inj_xI. apply (Z.div_unique _ 2 _ 1); lia.
  - rewrite Pos2Z.inj_xO. apply (Z.div_unique _ 2 _ 0); lia.
  - reflexivity.
Qed.

Lemma iter_shr_1_m (n : positive) : forall mrs : shr_record,
  0 <= shr_m mrs ->
  shr_m (SpecFloat.iter_pos shr_1 n mrs) = shr_m mrs / 2 ^ Zpos n.
Proof.
  assert (Hnn : forall mrs, 0 <= shr_m mrs -> 0 <= shr_m (shr_1 mrs)).
  { intros mrs Hm. rewrite shr_1_m by exact Hm. apply Z.div_pos; lia. }
  induction n as [n IH | n IH |]; intros mrs Hm; cbn [SpecFloat.iter_pos].
  - assert (Hp : 0 < 2 ^ Zpos n) by (apply Z.pow_pos_nonneg; lia).
    assert (H1 : 0 <= shr_m (shr_1 mrs)) by auto.
    assert (H2 : 0 <= shr_m (SpecFloat.iter_pos shr_1 n (shr_1 mrs)))
      by (rewrite IH by auto; apply Z.div_pos; lia).
    rewrite (IH _ H2), (IH _ H1), shr_1_m by auto.
    rewrite !Z.div_div by lia.
    f_equal. change (Zpos n~1) with (2 * Zpos n + 1).
    replace (2 * Zpos n + 1) with (1 + Zpos n + Zpos n) by lia.
    rewrite !Z.pow_add_r by lia. ring.
  - assert (Hp : 0 < 2 ^ Zpos n) by (apply Z.pow_pos_nonneg; lia).
    assert (H2 : 0 <= shr_m (SpecFloat.iter_pos shr_1 n mrs))
      by (rewrite IH by auto; apply Z.div_pos; lia).
    rewrite (IH _ H2), (IH _ Hm).
    rewrite !Z.div_div by lia.
    f_equal. change (Zpos n~0) with (2 * Zpos n).
    replace (2 * Zpos n) with (Zpos n + Zpos n) by lia.
    rewrite Z.pow_add_r by lia. ring.
  - rewrite shr_1_m by exact Hm. reflexivity.
Qed.

Lemma round_nearest_even_cases (q : Z) (l : location) :
  round_nearest_even q l = q \/ round_nearest_even q l = q + 1.
Proof.
  destruct l as [| []]; cbn [round_nearest_even]; auto.
  destruct (Z.even q); auto.
Qed.


Lemma fexp_normal (x : Z) : -1074 <= x - 53 -> fexp 53 1024 x = x - 53.
Proof. intros Hx. unfold fexp, emin. lia. Qed.

(** The first shift of [binary_round_aux] on a mantissa of [d >= 54] bits. *)
Lemma shr_fexp_long (p : positive) (ex : Z) (l : location) :
  54 <= Zpos (digits2_pos p) ->
  -1074 <= Zpos (digits2_pos p) + ex - 53 ->
  exists mrs,
    shr_fexp 53 1024 (Zpos p) ex l = (mrs, ex + (Zpos (digits2_pos p) - 53)) /\
    shr_m mrs = Zpos p / 2 ^ (Zpos (digits2_pos p) - 53).
Proof.
  intros Hd He. unfold shr_fexp. cbn [Zdigits2].
  rewrite fexp_normal by lia.
  replace (Zpos (digits2_pos p) + ex - 53 - ex) with (Zpos (digits2_pos p) - 53) by lia.
  destruct (Zpos (digits2_pos p) - 53) as [| s | s] eqn:Hs; try lia.
  cbn [shr]. eexists. split; [reflexivity |].
  rewrite iter_shr_1_m; destruct l as [| []]; cbn [shr_record_of_loc shr_m]; lia.
Qed.

(** The second shift: nothing to do on 53 bits, one position on [2^53]. *)
Lemma shr_fexp_53 (m : positive) (e : Z) :
  2 ^ 52 <= Zpos m < 2 ^ 53 -> -1074 <= e ->
  shr_fexp 53 1024 (Zpos m) e loc_Exact = (Build_shr_record (Zpos m) false false, e).
Proof.
  intros Hm He. unfold shr_fexp. cbn [Zdigits2].
  rewrite (digits2_pos_unique m 53) by lia.
  rewrite fexp_normal by lia.
  replace (53 + e - 53 - e) with 0 by lia. reflexivity.
Qed.

Lemma shr_fexp_carry (e : Z) :
  -1074 <= e ->
  shr_fexp 53 1024 (2 ^ 53) e loc_Exact = (Build_shr_record (2 ^ 52) false false, e + 1).
Proof.
  intros He. unfold shr_fexp.
  change (Zdigits2 (2 ^ 53)) with 54.
  rewrite fexp_normal by lia.
  replace (54 + e - 53 - e) with 1 by lia. reflexivity.
Qed.

(** Rounding a product of [d >= 54] bits to binary64, away from the subnormal
    and overflow ranges: the result is a normal number whose mantissa is the
    truncated quotient [q] or [q + 1], or the carry [2^52] one exponent up. *)
Lemma binary_round_aux_normal (p : positive) (ex : Z) :
  54 <= Zpos (digits2_pos p) ->
  -1074 <= Zpos (digits2_pos p) + ex - 53 ->
  Zpos (digits2_pos p) + ex - 53 + 1 <= 971 ->
  exists m3 e3,
    binary_round_aux 53 1024 false (Zpos p) ex loc_Exact = S754_finite false m3 e3 /\
    2 ^ 52 <= Zpos m3 < 2 ^ 53 /\
    ((e3 = ex + (Zpos (digits2_pos p) - 53) /\
      (Zpos m3 = Zpos p / 2 ^ (Zpos (digits2_pos p) - 53) \/
       Zpos m3 = Zpos p / 2 ^ (Zpos (digits2_pos p) - 53) + 1)) \/
     (e3 = ex + (Zpos (digits2_pos p) - 53) + 1 /\ Zpos m3 = 2 ^ 52 /\
      Zpos p / 2 ^ (Zpos (digits2_pos p) - 53) + 1 = 2 ^ 53)).
Proof.
  intros Hd Hlo Hhi.
  destruct (shr_fexp_long p ex loc_Exact Hd Hlo) as (mrs & Hshr & Hq).
  pose proof (digits2_pos_bounds p) as [Blo Bhi].
  set (d := Zpos (digits2_pos p)) in *.
  set (q := Zpos p / 2 ^ (d - 53)) in *.
  assert (Hpow : 0 < 2 ^ (d - 53)) by (apply Z.pow_pos_nonneg; lia).
  assert (Hq52 : 2 ^ 52 <= q).
  { apply Z.div_le_lower_bound; [exact Hpow |].
    rewrite <- Z.pow_add_r by lia. replace (d - 53 + 52) with (d - 1) by lia. exact Blo. }
  assert (Hq53 : q < 2 ^ 53).
  { apply Z.div_lt_upper_bound; [exact Hpow |].
    rewrite <- Z.pow_add_r by lia. replace (d - 53 + 53) with d by lia. exact Bhi. }
  unfold binary_round_aux. rewrite Hshr, Hq.
  destruct (round_nearest_even_cases q (loc_of_shr_record mrs)) as [Hr | Hr]; rewrite Hr.
  - destruct q as [| qp | qp] eqn:Eq; try lia.
    rewrite shr_fexp_53 by lia. cbn [shr_m].
    replace (ex + (d - 53) <=? 1024 - 53) with true by (symmetry; apply Z.leb_le; lia).
    exists qp, (ex + (d - 53)). split; [reflexivity |]. split; [lia |]. left. auto.
  - destruct (Z.eq_dec (q + 1) (2 ^ 53)) as [Hc | Hc].
    + rewrite Hc, shr_fexp_carry by lia. cbn [shr_m].
      change (2 ^ 52) with (Zpos (2 ^ 52)%positive).
      replace (ex + (d - 53) + 1 <=? 1024 - 53) with true by (symmetry; apply Z.leb_le; lia).
      exists (2 ^ 52)%positive, (ex + (d - 53) + 1). split; [reflexivity |].
      split; [lia |]. right. auto.
    + destruct (q + 1) as [| qp | qp] eqn:Eq; try lia.
      rewrite shr_fexp_53 by lia. cbn [shr_m].
      replace (ex + (d - 53) <=? 1024 - 53) with true by (symmetry; apply Z.leb_le; lia).
      exists qp, (ex + (d - 53)). split; [reflexivity |]. split; [lia |]. left. auto.
Qed.

End Rounding.

(* ===================================================================== *)
(** * Order and multiplication on positive normal doubles *)
(* ===================================================================== *)

Lemma leb_finite (m1 m2 : positive) (e1 e2 : Z) :
  Double.leb (S754_finite false m1 e1) (S754_finite false m2 e2) = true <->
  e1 < e2 \/ (e1 = e2 /\ Zpos m1 <= Zpos m2).
Proof.
  unfold Double.leb, SFleb, SFcompare.
  change (Pos.compare_cont Eq m1 m2) with (m1 ?= m2)%positive.
  destruct (Z.compare_spec e1 e2); [destruct (Pos.compare_spec m1 m2) | |];
    split; intros; try discriminate; try reflexivity; lia.
Qed.

Lemma ltb_finite (m1 m2 : positive) (e1 e2 : Z) :
  Double.ltb (S754_finite false m1 e1) (S754_finite false m2 e2) = true <->
  e1 < e2 \/ (e1 = e2 /\ Zpos m1 < Zpos m2).
Proof.
  unfold Double.ltb, SFltb, SFcompare.
  change (Pos.compare_cont Eq m1 m2) with (m1 ?= m2)%positive.
  destruct (Z.compare_spec e1 e2); [destruct (Pos.compare_spec m1 m2) | |];
    split; intros; try discriminate; try reflexivity; lia.
Qed.

Lemma lit_0_9 : Double.lit 0.9 = S754_finite false 8106479329266893 (-53).
Proof. vm_compute. reflexivity. Qed.
Lemma lit_1_1 : Double.lit 1.1 = S754_finite false 4953959590107546 (-52).
Proof. vm_compute. reflexivity. Qed.
Lemma lit_50 : Double.lit 50.0 = S754_finite false 7036874417766400 (-47).
Proof. vm_compute. reflexivity. Qed.
Lemma lit_500 : Double.lit 500.0 = S754_finite false 8796093022208000 (-44).
Proof. vm_compute. reflexivity. Qed.

(** The bit length of a product of two 53-bit mantissas. *)
Lemma digits2_product (p : positive) :
  2 ^ 104 <= Zpos p < 2 ^ 106 ->
  Zpos (digits2_pos p) = 105 \/ Zpos (digits2_pos p) = 106.
Proof.
  intros [Hlo Hhi].
  pose proof (digits2_pos_bounds p) as [Blo Bhi].
  destruct (Z_lt_le_dec (Zpos (digits2_pos p)) 105) as [Hlt | Hge].
  - assert (2 ^ Zpos (digits2_pos p) <= 2 ^ 104) by (apply Z.pow_le_mono_r; lia). lia.
  - destruct (Z_lt_le_dec 106 (Zpos (digits2_pos p))) as [Hgt | Hle]; [| lia].
    assert (2 ^ 106 <= 2 ^ (Zpos (digits2_pos p) - 1)) by (apply Z.pow_le_mono_r; lia). lia.
Qed.

(** Multiplying a positive normal double by 0.9 yields a normal double that
    is not larger. *)
Lemma mul_0_9_le (m : positive) (e : Z) :
  2 ^ 52 <= Zpos m < 2 ^ 53 -> -1000 <= e <= 900 ->
  exists m3 e3,
    Double.mul (S754_finite false m e) (Double.lit 0.9) = S754_finite false m3 e3 /\
    2 ^ 52 <= Zpos m3 < 2 ^ 53 /\
    (e3 < e \/ (e3 = e /\ Zpos m3 <= Zpos m)).
Proof.
  intros Hm He. rewrite lit_0_9. unfold Double.mul. cbn [SFmul xorb].
  set (p := (m * 8106479329266893)%positive).
  assert (Hp : Zpos p = Zpos m * 8106479329266893) by (subst p; apply Pos2Z.inj_mul).
  assert (Hd : Zpos (digits2_pos p) = 105 \/ Zpos (digits2_pos p) = 106)
    by (apply digits2_product; lia).
  destruct (binary_round_aux_normal p (e + -53)) as (m3 & e3 & Hr & Hn & Hc); try lia.
  exists m3, e3. split; [exact Hr |]. split; [exact Hn |].
  destruct Hd as [Hd | Hd]; rewrite Hd in Hc.
  - lia.
  - change (106 - 53) with 53 in Hc.
    assert (Hq : Zpos p / 2 ^ 53 < Zpos m)
      by (apply Z.div_lt_upper_bound; lia).
    lia.
Qed.

(** Multiplying a positive normal double by 1.1 yields a normal double that
    is not smaller. *)
Lemma mul_1_1_ge (m : positive) (e : Z) :
  2 ^ 52 <= Zpos m < 2 ^ 53 -> -1000 <= e <= 900 ->
  exists m3 e3,
    Double.mul (S754_finite false m e) (Double.lit 1.1) = S754_finite false m3 e3 /\
    2 ^ 52 <= Zpos m3 < 2 ^ 53 /\
    (e < e3 \/ (e3 = e /\ Zpos m <= Zpos m3)).
Proof.
  intros Hm He. rewrite lit_1_1. unfold Double.mul. cbn [SFmul xorb].
  set (p := (m * 4953959590107546)%positive).
  assert (Hp : Zpos p = Zpos m * 4953959590107546) by (subst p; apply Pos2Z.inj_mul).
  assert (Hd : Zpos (digits2_pos p) = 105 \/ Zpos (digits2_pos p) = 106)
    by (apply digits2_product; lia).
  destruct (binary_round_aux_normal p (e + -52)) as (m3 & e3 & Hr & Hn & Hc); try lia.
  exists m3, e3. split; [exact Hr |]. split; [exact Hn |].
  destruct Hd as [Hd | Hd]; rewrite Hd in Hc.
  - change (105 - 53) with 52 in Hc.
    assert (Hq : Zpos m <= Zpos p / 2 ^ 52)
      by (apply Z.div_le_lower_bound; lia).
    lia.
  - lia.
Qed.

(** ** The invariant of the adaptive thresholds is preserved *)

Lemma frequency_ok_exponent (m : positive) (e : Z) :
  frequency_ok (S754_finite false m e) -> -47 <= e <= -44.
Proof.
  intros (_ & H50 & H500). rewrite lit_50 in H50. rewrite lit_500 in H500.
  apply leb_finite in H50. apply leb_finite in H500. lia.
Qed.

Lemma lower_frequency_ok (f : double) :
  frequency_ok f -> frequency_ok (lower_frequency f).
Proof.
  intros Hf. pose proof Hf as ((m & e & -> & Hm) & H50 & H500).
  pose proof (frequency_ok_exponent _ _ Hf) as He.
  destruct (mul_0_9_le m e Hm) as (m3 & e3 & Hmul & Hn & Hle); [lia |].
  unfold lower_frequency, Double.max. rewrite Hmul.
  destruct (Double.ltb (Double.lit 50.0) (S754_finite false m3 e3)) eqn:Hlt.
  - split; [exists m3, e3; auto |].
    rewrite lit_50 in *. rewrite lit_500 in *.
    apply ltb_finite in Hlt. apply leb_finite in H500.
    split; apply leb_finite; lia.
  - split; [eexists _, _; split; [apply lit_50 | lia] |].
    split; rewrite ?lit_50, ?lit_500; reflexivity.
Qed.

Lemma raise_frequency_ok (f : double) :
  frequency_ok f -> frequency_ok (raise_frequency f).
Proof.
  intros Hf. pose proof Hf as ((m & e & -> & Hm) & H50 & H500).
  pose proof (frequency_ok_exponent _ _ Hf) as He.
  destruct (mul_1_1_ge m e Hm) as (m3 & e3 & Hmul & Hn & Hge); [lia |].
  unfold raise_frequency, Double.min. rewrite Hmul.
  destruct (Double.ltb (S754_finite false m3 e3) (Double.lit 500.0)) eqn:Hlt.
  - split; [exists m3, e3; auto |].
    rewrite lit_50 in *. rewrite lit_500 in *.
    apply ltb_finite in Hlt. apply leb_finite in H50.
    split; apply leb_finite; lia.
  - split; [eexists _, _; split; [apply lit_500 | lia] |].
    split; rewrite ?lit_50, ?lit_500; reflexivity.
Qed.

Lemma count_steps_checked :
  forallb count_step_checked (map (fun n => 500 + Z.of_nat n) (seq 0 4501)) = true.
Proof. vm_compute. reflexivity. Qed.

Lemma count_step_ok (c : Z) :
  count_ok c -> count_ok (lower_count c) /\ count_ok (raise_count c).
Proof.
  intros Hc. pose proof count_steps_checked as Hall.
  rewrite forallb_forall in Hall.
  assert (Hin : In c (map (fun n => 500 + Z.of_nat n) (seq 0 4501))).
  { apply in_map_iff. exists (Z.to_nat (c - 500)). unfold count_ok in Hc.
    split; [lia |]. apply in_seq. lia. }
  specialize (Hall c Hin). unfold count_step_checked in Hall.
  unfold count_ok. lia.
Qed.

Lemma adjustThresholds_ok (t : CompilationThresholds) (r s : double) :
  thresholds_ok t -> thresholds_ok (adjustThresholds t r s).
Proof.
  intros [Hc Hf]. unfold adjustThresholds.
  repeat match goal with |- context [if ?b then _ else _] => destruct b end;
    split; cbn [min_execution_count min_execution_frequency];
    auto using lower_frequency_ok, raise_frequency_ok;
    apply count_step_ok; exact Hc.
Qed.

Lemma default_thresholds_ok : thresholds_ok default_thresholds.
Proof.
  split; [unfold count_ok; cbn; lia |].
  split; [| split; vm_compute; reflexivity].
  eexists _, _. split; [vm_compute; reflexivity | lia].
Qed.

Lemma adjustThresholds_cast_in_range (c : Z) :
  count_ok c ->
  cast_in_range (Double.mul (Double.of_uint c) (Double.lit 0.9)) = true /\
  cast_in_range (Double.mul (Double.of_uint c) (Double.lit 1.1)) = true.
Proof.
  intros Hc. pose proof count_steps_checked as Hall.
  rewrite forallb_forall in Hall.
  assert (Hin : In c (map (fun n => 500 + Z.of_nat n) (seq 0 4501))).
  { apply in_map_iff. exists (Z.to_nat (c - 500)). unfold count_ok in Hc.
    split; [lia |]. apply in_seq. lia. }
  specialize (Hall c Hin). unfold count_step_checked in Hall.
  apply andb_prop in Hall as [Hall H11]. apply andb_prop in Hall as [_ H09]. auto.
Qed.

Lemma thresholds_ok_within_bounds (t : CompilationThresholds) :
  thresholds_ok t -> within_bounds t.
Proof. intros [Hc (_ & H50 & H500)]. repeat split; auto; apply Hc. Qed.

Lemma adjust_all_ok (observed : list (double * double)) : forall t,
  thresholds_ok t -> thresholds_ok (adjust_all t observed).
Proof.
  induction observed as [| o observed IH]; intros t Ht; [exact Ht |].
  apply IH, adjustThresholds_ok, Ht.
Qed.

Lemma updateThresholds_ok (pr : ExpressionProfiler) (order : list (Z * ExpressionProfile)) :
  thresholds_ok (thresholds pr) -> thresholds_ok (thresholds (updateThresholds pr order)).
Proof.
  intros Ht. unfold updateThresholds.
  destruct (_ =? 0); [exact Ht |].
  destruct (fold_left _ _ _) as [total_speedup speedup_samples].
  cbn [with_thresholds thresholds]. apply adjustThresholds_ok, Ht.
Qed.

(** ** The direction of an adjustment *)

Lemma count_directions_checked :
  forallb count_direction_checked (map (fun n => 500 + Z.of_nat n) (seq 0 4501)) = true.
Proof. vm_compute. reflexivity. Qed.

Lemma count_direction (c : Z) :
  count_ok c -> lower_count c <= c <= raise_count c.
Proof.
  intros Hc. pose proof count_directions_checked as Hall.
  rewrite forallb_forall in Hall.
  assert (Hin : In c (map (fun n => 500 + Z.of_nat n) (seq 0 4501))).
  { apply in_map_iff. exists (Z.to_nat (c - 500)). unfold count_ok in Hc.
    split; [lia |]. apply in_seq. lia. }
  specialize (Hall c Hin). unfold count_direction_checked in Hall. lia.
Qed.

Lemma lower_frequency_le (f : double) :
  frequency_ok f -> Double.leb (lower_frequency f) f = true.
Proof.
  intros Hf. pose proof Hf as ((m & e & -> & Hm) & H50 & H500).
  pose proof (frequency_ok_exponent _ _ Hf) as He.
  destruct (mul_0_9_le m e Hm) as (m3 & e3 & Hmul & Hn & Hle); [lia |].
  unfold lower_frequency, Double.max. rewrite Hmul.
  destruct (Double.ltb (Double.lit 50.0) (S754_finite false m3 e3)); [| exact H50].
  apply leb_finite. lia.
Qed.

Lemma raise_frequency_ge (f : double) :
  frequency_ok f -> Double.leb f (raise_frequency f) = true.
Proof.
  intros Hf. pose proof Hf as ((m & e & -> & Hm) & H50 & H500).
  pose proof (frequency_ok_exponent _ _ Hf) as He.
  destruct (mul_1_1_ge m e Hm) as (m3 & e3 & Hmul & Hn & Hge); [lia |].
  unfold raise_frequency, Double.min. rewrite Hmul.
  destruct (Double.ltb (S754_finite false m3 e3) (Double.lit 500.0)); [| exact H500].
  apply leb_finite. lia.
Qed.

(** X1. The adjustment rule: with the smoothed success rate above 0.8 and the
    smoothed speedup above 2.0 the two adaptive thresholds do not increase
    ("compile more"); otherwise, with the success rate below 0.5 or the
    speedup below 1.2, they do not decrease ("compile less"); otherwise they
    hold. *)
Theorem adjustThresholds_direction (t : CompilationThresholds) (r s : double) :
  thresholds_ok t ->
  let t' := adjustThresholds t r s in
  if Double.gtb (success_rate t') (Double.lit 0.8)
     && Double.gtb (average_speedup t') (Double.lit 2.0)
  then min_execution_count t' <= min_execution_count t /\
       Double.leb (min_execution_frequency t') (min_execution_frequency t) = true
  else if Double.ltb (success_rate t') (Double.lit 0.5)
          || Double.ltb (average_speedup t') (Double.lit 1.2)
  then min_execution_count t <= min_execution_count t' /\
       Double.leb (min_execution_frequency t) (min_execution_frequency t') = true
  else min_execution_count t' = min_execution_count t /\
       min_execution_frequency t' = min_execution_frequency t.
Proof.
  intros [Hc Hf]. cbv zeta. unfold adjustThresholds.
  set (sr := Double.add _ (Double.mul _ (success_rate t))).
  set (sp := Double.add _ (Double.mul _ (average_speedup t))).
  destruct (Double.gtb sr (Double.lit 0.8) && Double.gtb sp (Double.lit 2.0)) eqn:Hup;
    cbn [success_rate average_speedup min_execution_count min_execution_frequency].
  - rewrite Hup. split; [apply count_direction, Hc | apply lower_frequency_le, Hf].
  - destruct (Double.ltb sr (Double.lit 0.5) || Double.ltb sp (Double.lit 1.2)) eqn:Hdown;
      cbn [success_rate average_speedup min_execution_count min_execution_frequency];
      rewrite Hup, Hdown.
    + split; [apply count_direction, Hc | apply raise_frequency_ge, Hf].
    + split; reflexivity.
Qed.

Lemma adjustThresholds_direction_witness :
  thresholds_ok default_thresholds /\
  min_execution_count (adjustThresholds default_thresholds (Double.lit 1.0) (Double.lit 5.0))
  >= min_execution_count default_thresholds.
Proof.
  split; [exact default_thresholds_ok |].
  pose proof (adjustThresholds_direction default_thresholds (Double.lit 1.0) (Double.lit 5.0)
                default_thresholds_ok) as Hd.
  cbv zeta in Hd.
  set (t' := adjustThresholds default_thresholds (Double.lit 1.0) (Double.lit 5.0)) in *.
  assert (Hup : Double.gtb (success_rate t') (Double.lit 0.8)
                && Double.gtb (average_speedup t') (Double.lit 2.0) = false)
    by (vm_compute; reflexivity).
  assert (Hdown : Double.ltb (success_rate t') (Double.lit 0.5)
                  || Double.ltb (average_speedup t') (Double.lit 1.2) = true)
    by (vm_compute; reflexivity).
  rewrite Hup, Hdown in Hd. lia.
Defined.

Section ProfilerThresholds.
Context `{Platform}.

(** Only [updateThresholds] writes the thresholds of a profiler. *)
Lemma apply_op_thresholds (w : World) (op : ProfilerOp) :
  thresholds (profiler (apply_op w op)) =
  match op with
  | UpdateThresholds order => thresholds (updateThresholds (profiler w) order)
  | _ => thresholds (profiler w)
  end.
Proof.
  destruct op as [expr t now now' | expr | expr success t | expr t | order];
    cbn [apply_op]; [| | | | reflexivity].
  - unfold recordExecution.
    destruct (fingerprint _ _) as [fp st].
    unfold getOrCreateProfile.
    destruct (profiles (profiler w) !! fp);
      [| destruct (analyzeComplexity _) as [[oc d] cx]];
      destruct (analyzeForCompilation _ _ _ _); repeat case_decide; reflexivity.
  - unfold shouldCompile. destruct (fingerprint _ _) as [fp st].
    destruct (profiles (profiler w) !! fp); reflexivity.
  - unfold recordCompilation. destruct (fingerprint _ _) as [fp st].
    destruct (profiles (profiler w) !! fp); [destruct success |]; reflexivity.
  - unfold recordJITExecution. destruct (fingerprint _ _) as [fp st].
    destruct (profiles (profiler w) !! fp); reflexivity.
Qed.

Lemma run_ops_thresholds_ok (ops : list ProfilerOp) : forall w,
  thresholds_ok (thresholds (profiler w)) ->
  thresholds_ok (thresholds (profiler (run_ops w ops))).
Proof.
  induction ops as [| op ops IH]; intros w Hw; [exact Hw |].
  cbn [run_ops fold_left]. apply IH. rewrite apply_op_thresholds.
  destruct op; auto using updateThresholds_ok.
Qed.

(** C5. Starting from the default configuration, after any finite series of
    [adjustThresholds] calls with arbitrary observed success rates and
    speedups, and after any finite series of profiler operations (among them
    [updateThresholds], with any enumeration order of the profiles),
    [min_execution_count] lies between 500 and 5000 and
    [min_execution_frequency] between 50.0 and 500.0. *)
Theorem threshold_bounds (observed : list (double * double)) (ops : list ProfilerOp) :
  within_bounds (adjust_all default_thresholds observed) /\
  within_bounds (thresholds (profiler (run_ops world_init ops))).
Proof.
  split; apply thresholds_ok_within_bounds.
  - apply adjust_all_ok, default_thresholds_ok.
  - apply run_ops_thresholds_ok, default_thresholds_ok.
Qed.

End ProfilerThresholds.

(* ===================================================================== *)
(** * The fingerprinter *)
(* ===================================================================== *)

Lemma prefix_r_inj : Inj (=) (=) prefix_r.
Proof.
  intros s1 s2 Heq. unfold prefix_r in Heq.
  vm_compute in Heq. injection Heq as ->. reflexivity.
Qed.

Section FingerprinterFacts.
Context `{Platform}.

(** C1. The code at the failing input: [result = a + b] is fingerprinted in a
    fresh process, then the same sequence with every name renamed by the
    injective [prefix_r]. The canonical form handed to the hasher is
    ["1:v0,v1,;"] for the first and ["1:v2,v3,;"] for the second, because
    [normalizeVariable] numbers names in one map shared by all calls; fingerprinted
    first, the renamed sequence would have had the canonical form ["1:v0,v1,;"].
    So the fingerprints differ as soon as the hasher separates the two strings. *)
Theorem renamed_sequence_changes_fingerprint :
  let S := sum_ab in
  let S' := rename_instr prefix_r <$> S in
  let after_S := snd (fingerprint statics_init S) in
  fst (canonical statics_init S) = "1:v0,v1,;" /\
  fst (canonical after_S S') = "1:v2,v3,;" /\
  fst (canonical statics_init S') = "1:v0,v1,;" /\
  (hash_string "1:v0,v1,;" <> hash_string "1:v2,v3,;" ->
   fst (fingerprint after_S S') <> fst (fingerprint statics_init S) /\
   fst (fingerprint after_S S') <> fst (fingerprint statics_init S')).
Proof.
  cbv zeta.
  assert (E1 : fst (canonical statics_init sum_ab) = "1:v0,v1,;")
    by (vm_compute; reflexivity).
  assert (E2 : fst (canonical (snd (fingerprint statics_init sum_ab))
                              (rename_instr prefix_r <$> sum_ab)) = "1:v2,v3,;")
    by (vm_compute; reflexivity).
  assert (E3 : fst (canonical statics_init (rename_instr prefix_r <$> sum_ab)) = "1:v0,v1,;")
    by (vm_compute; reflexivity).
  split; [exact E1 |]. split; [exact E2 |]. split; [exact E3 |].
  intros Hsep.
  assert (F1 : fst (fingerprint statics_init sum_ab) = hash_string "1:v0,v1,;")
    by (vm_compute; reflexivity).
  assert (F2 : fst (fingerprint (snd (fingerprint statics_init sum_ab))
                                (rename_instr prefix_r <$> sum_ab))
               = hash_string "1:v2,v3,;")
    by (vm_compute; reflexivity).
  assert (F3 : fst (fingerprint statics_init (rename_instr prefix_r <$> sum_ab))
               = hash_string "1:v0,v1,;")
    by (vm_compute; reflexivity).
  rewrite F1, F2, F3. split; congruence.
Qed.

(** ** What does hold: a sequence keeps its fingerprint once it was seen *)

Lemma append_assoc (s1 s2 s3 : string) : (s1 +:+ s2) +:+ s3 = s1 +:+ (s2 +:+ s3).
Proof.
  induction s1 as [| c s1 IH]; [reflexivity |].
  change (String c ((s1 +:+ s2) +:+ s3) = String c (s1 +:+ (s2 +:+ s3))).
  rewrite IH. reflexivity.
Qed.

Lemma append_nil_r (s : string) : s +:+ "" = s.
Proof.
  induction s as [| c s IH]; [reflexivity |].
  change (String c (s +:+ "") = String c s). rewrite IH. reflexivity.
Qed.

Lemma extends_refl (st : FingerprinterStatics) : extends st st.
Proof. intros v n Hv. exact Hv. Qed.

Lemma extends_trans (st1 st2 st3 : FingerprinterStatics) :
  extends st1 st2 -> extends st2 st3 -> extends st1 st3.
Proof. intros H12 H23 v n Hv. apply H23, H12, Hv. Qed.

Lemma normalizeVariable_spec (st : FingerprinterStatics) (v : string) :
  extends st (snd (normalizeVariable st v)) /\
  var_map (snd (normalizeVariable st v)) !! v = Some (fst (normalizeVariable st v)).
Proof.
  unfold normalizeVariable.
  destruct (var_map st !! v) as [n |] eqn:Hv; cbn [fst snd var_map].
  - split; [apply extends_refl | exact Hv].
  - split; [| apply lookup_insert_eq].
    intros v' n' Hv'. cbn [var_map].
    rewrite lookup_insert_ne by congruence. exact Hv'.
Qed.

Lemma normalizeVariable_known (st : FingerprinterStatics) (v n : string) :
  var_map st !! v = Some n -> normalizeVariable st v = (n, st).
Proof. intros Hv. unfold normalizeVariable. rewrite Hv. reflexivity. Qed.

(** The accumulated stream is only appended to. *)
Lemma fingerprint_step_prefix (ss : string) (st : FingerprinterStatics)
    (instr : SimpleTACLine.t) :
  fingerprint_step (ss, st) instr =
  (ss +:+ fst (fingerprint_step ("", st) instr), snd (fingerprint_step ("", st) instr)).
Proof.
  unfold fingerprint_step.
  repeat case_decide;
    repeat match goal with
           | |- context [normalizeVariable ?s ?v] => destruct (normalizeVariable s v)
           end;
    cbn [fst snd]; f_equal; rewrite ?append_assoc; reflexivity.
Qed.

Lemma fold_fingerprint_prefix (S : list SimpleTACLine.t) :
  forall (acc : string) (st : FingerprinterStatics),
  fold_left fingerprint_step S (acc, st) =
  (acc +:+ fst (fold_left fingerprint_step S ("", st)),
   snd (fold_left fingerprint_step S ("", st))).
Proof.
  induction S as [| i S IH]; intros acc st; cbn [fold_left].
  - cbn [fst snd]. rewrite append_nil_r. reflexivity.
  - rewrite (fingerprint_step_prefix acc).
    destruct (fingerprint_step ("", st) i) as [t st']. cbn [fst snd].
    rewrite (IH (acc +:+ t)), (IH t). cbn [fst snd].
    rewrite append_assoc. reflexivity.
Qed.

Lemma canonical_cons (st : FingerprinterStatics) (instr : SimpleTACLine.t)
    (S : list SimpleTACLine.t) :
  canonical st (instr :: S) =
  (fst (fingerprint_step ("", st) instr)
     +:+ fst (canonical (snd (fingerprint_step ("", st) instr)) S),
   snd (canonical (snd (fingerprint_step ("", st) instr)) S)).
Proof.
  unfold canonical. cbn [fold_left].
  destruct (fingerprint_step ("", st) instr) as [t st']. cbn [fst snd].
  apply fold_fingerprint_prefix.
Qed.

(** One instruction: its names are numbered afterwards, and in any later
    numbering it yields the same token and numbers nothing new. *)
Lemma fingerprint_step_stable (st : FingerprinterStatics) (instr : SimpleTACLine.t) :
  extends st (snd (fingerprint_step ("", st) instr)) /\
  forall st2, extends (snd (fingerprint_step ("", st) instr)) st2 ->
    fingerprint_step ("", st2) instr = (fst (fingerprint_step ("", st) instr), st2).
Proof.
  unfold fingerprint_step.
  destruct (decide (SimpleTACLine.operandA instr = "")) as [Ha | Ha];
    destruct (decide (SimpleTACLine.operandB instr = "")) as [Hb | Hb].
  - cbn [fst snd]. split; [apply extends_refl | reflexivity].
  - pose proof (normalizeVariable_spec st (SimpleTACLine.operandB instr)) as [Hext Hknown].
    destruct (normalizeVariable st _) as [n st1]. cbn [fst snd] in *.
    split; [exact Hext |]. intros st2 H2.
    rewrite (normalizeVariable_known st2 _ n) by (apply H2, Hknown). reflexivity.
  - pose proof (normalizeVariable_spec st (SimpleTACLine.operandA instr)) as [Hext Hknown].
    destruct (normalizeVariable st _) as [n st1]. cbn [fst snd] in *.
    split; [exact Hext |]. intros st2 H2.
    rewrite (normalizeVariable_known st2 _ n) by (apply H2, Hknown). reflexivity.
  - pose proof (normalizeVariable_spec st (SimpleTACLine.operandA instr)) as [Hext Hknown].
    destruct (normalizeVariable st _) as [n st1]. cbn [fst snd] in *.
    pose proof (normalizeVariable_spec st1 (SimpleTACLine.operandB instr)) as [Hext' Hknown'].
    destruct (normalizeVariable st1 _) as [n' st1']. cbn [fst snd] in *.
    split; [exact (extends_trans _ _ _ Hext Hext') |]. intros st2 H2.
    rewrite (normalizeVariable_known st2 _ n) by (apply H2, Hext', Hknown).
    rewrite (normalizeVariable_known st2 _ n') by (apply H2, Hknown'). reflexivity.
Qed.

Lemma canonical_stable (S : list SimpleTACLine.t) : forall st,
  extends st (snd (canonical st S)) /\
  forall st2, extends (snd (canonical st S)) st2 ->
    canonical st2 S = (fst (canonical st S), st2).
Proof.
  induction S as [| instr S IH]; intros st.
  - split; [apply extends_refl | reflexivity].
  - rewrite canonical_cons. cbn [fst snd].
    destruct (fingerprint_step_stable st instr) as [Hext Hstep].
    destruct (IH (snd (fingerprint_step ("", st) instr))) as [Hext' Hrest].
    split; [exact (extends_trans _ _ _ Hext Hext') |].
    intros st2 H2. rewrite canonical_cons.
    rewrite (Hstep st2) by exact (extends_trans _ _ _ Hext' H2).
    cbn [fst snd]. rewrite (Hrest st2 H2). reflexivity.
Qed.

Lemma fingerprint_all_extends (others : list (list SimpleTACLine.t)) : forall st,
  extends st (fingerprint_all st others).
Proof.
  induction others as [| S others IH]; intros st; [apply extends_refl |].
  cbn [fingerprint_all fold_left]. eapply extends_trans; [| apply IH].
  unfold fingerprint. destruct (canonical_stable S st) as [Hext _].
  destruct (canonical st S). exact Hext.
Qed.

(** X4. Once a sequence has been fingerprinted, every later call on the same
    sequence returns the same fingerprint and numbers no new name, whatever
    other sequences are fingerprinted in between. *)
Theorem fingerprint_stable_once_seen (st : FingerprinterStatics)
    (S : list SimpleTACLine.t) (others : list (list SimpleTACLine.t)) :
  let later := fingerprint_all (snd (fingerprint st S)) others in
  fingerprint later S = (fst (fingerprint st S), later).
Proof.
  cbv zeta.
  pose proof (fingerprint_all_extends others (snd (fingerprint st S))) as Hext.
  destruct (canonical_stable S st) as [_ Hstable].
  unfold fingerprint in *. destruct (canonical st S) as [c st1]. cbn [fst snd] in *.
  rewrite (Hstable _ Hext). reflexivity.
Qed.

End FingerprinterFacts.

(* ===================================================================== *)
(** * The profiler *)
(* ===================================================================== *)

Section ProfilerFacts.
Context `{Platform}.

Lemma status_set_status (p : ExpressionProfile) (s : CompilationStatus) :
  status (set_status p s) = s.
Proof. reflexivity. Qed.

Lemma recordExecution_status (w : World) (expr : SimpleExpression)
    (t now now' : Z) (fp : Z) (s : CompilationStatus) :
  status_of w fp = Some s -> s <> NOT_ANALYZED ->
  status_of (recordExecution w expr t now now') fp = Some s.
Proof.
  unfold status_of, recordExecution. intros Hs Hna.
  destruct (fingerprint _ _) as [key st].
  unfold getOrCreateProfile.
  destruct (decide (fp = key)) as [-> | Hne].
  - destruct (profiles (profiler w) !! key) as [p |] eqn:Hp; [| discriminate].
    cbn in Hs. injection Hs as Hs.
    case_decide as Hd; [cbn in Hd; congruence |].
    cbn. rewrite lookup_insert_eq. cbn. f_equal. exact Hs.
  - destruct (profiles (profiler w) !! key) as [p |] eqn:Hp.
    + destruct (if decide _ then _ else _) as [s' jc].
      cbn. rewrite lookup_insert_ne by congruence. exact Hs.
    + destruct (analyzeComplexity _) as [[oc d] cx].
      destruct (if decide _ then _ else _) as [s' jc].
      cbn. rewrite !lookup_insert_ne by congruence. exact Hs.
Qed.

(** C2, as the code has it. A status other than [NOT_ANALYZED] is left alone
    by [recordExecution], [shouldCompile], [recordJITExecution] and
    [updateThresholds]; [recordCompilation] overwrites the status of the profile
    of its expression with [JIT_COMPILED] or [JIT_FAILED], whatever the status
    was, and leaves the other profiles alone. *)
Theorem status_after_operation (w : World) (op : ProfilerOp) (fp : Z)
    (s : CompilationStatus) :
  status_of w fp = Some s -> s <> NOT_ANALYZED ->
  status_of (apply_op w op) fp =
    match op with
    | RecordCompilation expr success _ =>
        if decide (fp = fst (fingerprint (statics w) (instructions expr)))
        then Some (if success then JIT_COMPILED else JIT_FAILED)
        else Some s
    | _ => Some s
    end.
Proof.
  intros Hs Hna.
  destruct op as [expr t now now' | expr | expr success t | expr t | order];
    cbn [apply_op].
  - apply recordExecution_status; assumption.
  - unfold status_of, shouldCompile in *. destruct (fingerprint _ _) as [key st].
    destruct (profiles (profiler w) !! key); exact Hs.
  - unfold status_of, recordCompilation in *. destruct (fingerprint _ _) as [key st].
    cbn [fst].
    destruct (decide (fp = key)) as [-> | Hne].
    + destruct (profiles (profiler w) !! key) as [p |] eqn:Hp; [| discriminate].
      destruct success; cbn; rewrite lookup_insert_eq; reflexivity.
    + destruct (profiles (profiler w) !! key) as [p |] eqn:Hp; [| exact Hs].
      destruct success; cbn; rewrite lookup_insert_ne by congruence; exact Hs.
  - unfold status_of, recordJITExecution in *. destruct (fingerprint _ _) as [key st].
    destruct (profiles (profiler w) !! key) as [p |] eqn:Hp; [| exact Hs].
    cbn. destruct (decide (fp = key)) as [-> | Hne].
    + rewrite lookup_insert_eq. rewrite Hp in Hs. exact Hs.
    + rewrite lookup_insert_ne by congruence. exact Hs.
  - unfold status_of, updateThresholds in *. cbn.
    destruct (_ =? 0); [exact Hs |].
    destruct (fold_left _ _ _). exact Hs.
Qed.

(** C3. The candidacy test run by [recordExecution] on a profile that is
    [NOT_ANALYZED] (stored, or fresh on first sight): with the statistics of
    this run recorded, the status stays [NOT_ANALYZED] below the count
    threshold; from the threshold on it becomes [INTERPRETER_ONLY] exactly when
    the frequency is below [min_execution_frequency], or the average time is
    below [min_avg_execution_time_ns], or the operation count is above
    [max_complexity], and [JIT_CANDIDATE] otherwise. *)
Theorem candidacy_test (w : World) (expr : SimpleExpression) (t now now' : Z) :
  let fp := fst (fingerprint (statics w) (instructions expr)) in
  let p := record_run (profile_before w expr) t now in
  let th := thresholds (profiler w) in
  let rejected :=
    Double.ltb (getExecutionFrequency p now') (min_execution_frequency th) = true \/
    Double.ltb (getAverageExecutionTime p) (min_avg_execution_time_ns th) = true \/
    max_complexity th < operation_count p in
  status (profile_before w expr) = NOT_ANALYZED ->
  exists s, status_of (recordExecution w expr t now now') fp = Some s /\
    (execution_count p < min_execution_count th -> s = NOT_ANALYZED) /\
    (min_execution_count th <= execution_count p ->
       (s = INTERPRETER_ONLY <-> rejected) /\
       (s = JIT_CANDIDATE <-> ~ rejected)).
Proof.
  cbv zeta. unfold profile_before, status_of, recordExecution.
  destruct (fingerprint _ _) as [key st]. cbn [fst].
  destruct (getOrCreateProfile (profiler w) key expr) as [p0 pr] eqn:Hg.
  assert (Hth : thresholds pr = thresholds (profiler w)).
  { unfold getOrCreateProfile in Hg.
    destruct (profiles (profiler w) !! key); [congruence |].
    destruct (analyzeComplexity _) as [[oc d] cx]. injection Hg as _ <-. reflexivity. }
  cbn [fst]. intros Hna.
  case_decide as Hd; [| cbn in Hd; congruence].
  unfold analyzeForCompilation. rewrite Hth.
  set (p := record_run p0 t now).
  set (th := thresholds (profiler w)).
  destruct (execution_count p <? min_execution_count th) eqn:Hc.
  - apply Z.ltb_lt in Hc. eexists. cbn [profiles profiler].
    rewrite lookup_insert_eq.
    split; [reflexivity |]. split; [intros _; exact Hna | lia].
  - apply Z.ltb_ge in Hc.
    destruct (Double.ltb (getExecutionFrequency p now') _) eqn:Hf;
      [| destruct (Double.ltb (getAverageExecutionTime p) _) eqn:Ha;
         [| destruct (max_complexity th <? operation_count p) eqn:Hm]];
      eexists; cbn [profiles profiler]; rewrite lookup_insert_eq;
      (split; [reflexivity |]); (split; [lia |]); intros _;
      cbn [status set_status];
      try apply Z.ltb_lt in Hm; try apply Z.ltb_ge in Hm.
    + split; split; [auto | reflexivity | discriminate | intros Hx; exfalso; auto].
    + split; split; [auto | reflexivity | discriminate | intros Hx; exfalso; auto].
    + split; split; [auto | reflexivity | discriminate | intros Hx; exfalso; auto].
    + split; split; [discriminate | | | reflexivity].
      * intros [Hx | [Hx | Hx]]; [congruence | congruence | lia].
      * intros _ [Hx | [Hx | Hx]]; [congruence | congruence | lia].
Qed.

(** X2. [shouldCompile] answers [true] exactly when the profile of the
    expression is a [JIT_CANDIDATE]; an expression without a profile gets
    [false]. The profiles are left as they are. *)
Theorem shouldCompile_iff_candidate (w : World) (expr : SimpleExpression) :
  (fst (shouldCompile w expr) = true <->
   status_of w (fst (fingerprint (statics w) (instructions expr))) = Some JIT_CANDIDATE) /\
  profiler (snd (shouldCompile w expr)) = profiler w.
Proof.
  unfold shouldCompile, status_of. destruct (fingerprint _ _) as [key st]. cbn [fst].
  destruct (profiles (profiler w) !! key) as [p |]; cbn.
  - split; [| reflexivity]. rewrite bool_decide_eq_true. split; congruence.
  - split; [| reflexivity]. split; discriminate.
Qed.

(** X3. The static complexity of a profile (operation count, depth, complex
    operations) is computed when the profile is created and no operation
    changes it afterwards; no operation removes a profile. *)
Theorem complexity_is_immutable (w : World) (op : ProfilerOp) (fp : Z)
    (p : ExpressionProfile) :
  profiles (profiler w) !! fp = Some p ->
  exists p', profiles (profiler (apply_op w op)) !! fp = Some p' /\
    operation_count p' = operation_count p /\ depth p' = depth p /\
    has_complex_ops p' = has_complex_ops p.
Proof.
  intros Hp.
  destruct op as [expr t now now' | expr | expr success t | expr t | order];
    cbn [apply_op].
  - unfold recordExecution. destruct (fingerprint _ _) as [key st].
    unfold getOrCreateProfile.
    destruct (decide (fp = key)) as [-> | Hne].
    + rewrite Hp. destruct (if decide _ then _ else _) as [s' jc].
      cbn [profiles profiler]. rewrite lookup_insert_eq. eauto.
    + destruct (profiles (profiler w) !! key) as [q |].
      * destruct (if decide _ then _ else _) as [s' jc].
        cbn [profiles profiler]. rewrite lookup_insert_ne by congruence. eauto.
      * destruct (analyzeComplexity _) as [[oc d] cx].
        destruct (if decide _ then _ else _) as [s' jc].
        cbn [profiles profiler]. rewrite !lookup_insert_ne by congruence. eauto.
  - unfold shouldCompile. destruct (fingerprint _ _) as [key st].
    destruct (profiles (profiler w) !! key); cbn; eauto.
  - unfold recordCompilation. destruct (fingerprint _ _) as [key st].
    destruct (decide (fp = key)) as [-> | Hne].
    + rewrite Hp. destruct success; cbn [profiles profiler];
        rewrite lookup_insert_eq; eauto.
    + destruct (profiles (profiler w) !! key) as [q |]; [| cbn; eauto].
      destruct success; cbn [profiles profiler];
        rewrite lookup_insert_ne by congruence; eauto.
  - unfold recordJITExecution. destruct (fingerprint _ _) as [key st].
    destruct (decide (fp = key)) as [-> | Hne].
    + rewrite Hp. cbn [profiles profiler with_profiles]. rewrite lookup_insert_eq. eauto.
    + destruct (profiles (profiler w) !! key) as [q |]; [| cbn; eauto].
      cbn [profiles profiler with_profiles]. rewrite lookup_insert_ne by congruence. eauto.
  - unfold updateThresholds. cbn [profiler].
    destruct (_ =? 0); [eauto |]. destruct (fold_left _ _ _). cbn. eauto.
Qed.

End ProfilerFacts.

(* ===================================================================== *)
(** * The key of the compiled-region cache *)
(* ===================================================================== *)

Lemma pretty_N_go_sep_free (x : N) : forall s,
  sep_free s -> sep_free (pretty_N_go x s).
Proof.
  induction (N.lt_wf_0 x) as [x _ IH]; intros s Hs.
  destruct (decide (x = 0)%N) as [-> | Hx]; [rewrite pretty_N_go_0; exact Hs |].
  rewrite pretty_N_go_step by lia. apply IH; [apply N.div_lt; lia |].
  split; [| exact Hs].
  unfold pretty_N_char. repeat case_match; discriminate.
Qed.

Lemma pretty_N_sep_free (x : N) : sep_free (pretty x).
Proof.
  unfold pretty, pretty_N. case_decide.
  - split; [discriminate | exact I].
  - apply pretty_N_go_sep_free. exact I.
Qed.

Lemma pretty_Z_sep_free (z : Z) : sep_free (pretty z).
Proof.
  destruct z as [| p | p]; unfold pretty, pretty_Z.
  - split; [discriminate | exact I].
  - apply pretty_N_sep_free.
  - split; [discriminate | apply pretty_N_sep_free].
Qed.

(** Two strings that agree up to their first separator agree before and
    after it. *)
Lemma split_at_sep (a : string) : forall (b r r' : string),
  sep_free a -> sep_free b ->
  a +:+ String "_" r = b +:+ String "_" r' -> a = b /\ r = r'.
Proof.
  induction a as [| c a IH]; intros [| c' b] r r' Ha Hb Heq; cbn in Heq.
  - injection Heq as ->. auto.
  - injection Heq as <- _. destruct Hb as [Hb _]. congruence.
  - injection Heq as -> _. destruct Ha as [Ha _]. congruence.
  - injection Heq as -> Heq.
    destruct (IH b r r') as [-> ->]; auto; [apply Ha | apply Hb].
Qed.

Section CacheKey.
Context `{Platform} `{Host} `{CodeGenerator}.

Lemma opHash_ops (c1 c2 : Context) (s1 e1 s2 e2 : Z) :
  range_ops c1 s1 e1 = range_ops c2 s2 e2 -> opHash c1 s1 e1 = opHash c2 s2 e2.
Proof.
  unfold opHash, range_ops, range_code.
  generalize (omap (code_at c1) (lines_of_range c1 s1 e1)).
  generalize (omap (code_at c2) (lines_of_range c2 s2 e2)).
  generalize 0.
  intros h l2 l1. revert h l2.
  induction l1 as [| x l1 IH]; intros h [| y l2] Hops; try discriminate; [reflexivity |].
  injection Hops as Hop Hops. cbn [fold_left].
  unfold opHash_step at 2 4. rewrite Hop. apply IH, Hops.
Qed.

(** C4, as the code has it. Two regions get the same cache key exactly when
    they have the same context address, the same start line, the same end
    line and the same operator hash; in particular regions of one context and
    one line range with the same operator sequence share the key, whatever
    their operands, and regions of different contexts or of different line
    ranges never do. *)
Theorem context_fingerprint_key (ctx1 ctx2 : Z) (c1 c2 : Context) (s1 e1 s2 e2 : Z) :
  (generateContextFingerprint ctx1 c1 s1 e1 = generateContextFingerprint ctx2 c2 s2 e2 <->
   ctx1 = ctx2 /\ s1 = s2 /\ e1 = e2 /\ opHash c1 s1 e1 = opHash c2 s2 e2) /\
  (range_ops c1 s1 e1 = range_ops c2 s1 e1 ->
   generateContextFingerprint ctx1 c1 s1 e1 = generateContextFingerprint ctx1 c2 s1 e1).
Proof.
  assert (Hkey : forall ctx c s e,
    generateContextFingerprint ctx c s e =
    "ctx_" +:+ pretty ctx +:+ String "_" ("lines_" +:+ pretty s +:+ String "_"
      (pretty e +:+ String "_" ("hash_" +:+ pretty (opHash c s e))))) by reflexivity.
  split.
  - rewrite !Hkey. split.
    + intros Heq. cbn in Heq. injection Heq as Heq.
      apply split_at_sep in Heq as [Hctx Heq]; try apply pretty_Z_sep_free.
      cbn in Heq. injection Heq as Heq.
      apply split_at_sep in Heq as [Hs Heq]; try apply pretty_Z_sep_free.
      apply split_at_sep in Heq as [He Heq]; try apply pretty_Z_sep_free.
      cbn in Heq. injection Heq as Hh.
      apply pretty_Z_inj in Hctx, Hs, He, Hh.
      repeat split; assumption.
    + intros (-> & -> & -> & ->). reflexivity.
  - intros Hops. rewrite !Hkey. rewrite (opHash_ops _ _ _ _ _ _ Hops). reflexivity.
Qed.

End CacheKey.

(* ===================================================================== *)
(** * The compiled-region cache of RuntimeJIT *)
(* ===================================================================== *)

Section RegionCache.
Context `{Platform} `{Host} `{CodeGenerator}.

(** A hit returns at once: no state change, no call to the generator. *)
Lemma compileContextRange_hit (jit : RuntimeJIT) (ctx : Z) (context : Context)
    (startLine endLine : Z) (elapsed : double) :
  is_Some (compiledRegions_ jit !! generateContextFingerprint ctx context startLine endLine) ->
  compileContextRange jit ctx context startLine endLine elapsed = (true, jit, []).
Proof. intros [r Hr]. unfold compileContextRange. rewrite Hr. reflexivity. Qed.

(** The cases of a miss. *)
Lemma compileContextRange_miss (jit : RuntimeJIT) (ctx : Z) (context : Context)
    (startLine endLine : Z) (elapsed : double) :
  let fingerprint := generateContextFingerprint ctx context startLine endLine in
  let tacSequence := extractTACSequence context startLine endLine in
  let generated := generateFunction (irGenerator_ jit) tacSequence ("jit_context_" +:+ fingerprint) in
  compiledRegions_ jit !! fingerprint = None ->
  match compileContextRange jit ctx context startLine endLine elapsed with
  | (ok, jit', evs) =>
      if negb (isCompilableSequence
                 (SubList (code context) startLine (endLine - startLine + 1)))
      then ok = false /\ jit' = jit /\ evs = []
      else
        evs = [EvGenerate ("jit_context_" +:+ fingerprint) tacSequence] /\
        irGenerator_ jit' = snd generated /\
        match fst generated with
        | Returned (Some f) =>
            ok = true /\
            exists region, function region = Some f /\
              compiledRegions_ jit' = <[fingerprint := region]> (compiledRegions_ jit)
        | _ => ok = false /\ compiledRegions_ jit' = compiledRegions_ jit
        end
  end.
Proof.
  cbv zeta. intros Hmiss. unfold compileContextRange. rewrite Hmiss.
  destruct (negb _); [auto |].
  destruct (generateFunction _ _ _) as [[[f |] |] gen]; cbn [fst snd].
  - repeat split. eexists. split; [| reflexivity]. reflexivity.
  - repeat split.
  - repeat split.
Qed.



Lemma compileContextRange_functions (jit : RuntimeJIT) (ctx : Z) (context : Context)
    (startLine endLine : Z) (elapsed : double) :
  regions_have_functions (compiledRegions_ jit) ->
  regions_have_functions
    (compiledRegions_ (compileContextRange jit ctx context startLine endLine elapsed).1.2).
Proof.
  intros Hwf.
  destruct (compiledRegions_ jit !! generateContextFingerprint ctx context startLine endLine)
    as [r' |] eqn:Hfp.
  - rewrite compileContextRange_hit by eauto. exact Hwf.
  - pose proof (compileContextRange_miss jit ctx context startLine endLine elapsed Hfp) as Hm.
    cbv zeta in Hm.
    destruct (compileContextRange _ _ _ _ _ _) as [[ok jit'] evs]. cbn [fst snd].
    destruct (negb _); [destruct Hm as (_ & -> & _); exact Hwf |].
    destruct Hm as (_ & _ & Hm).
    destruct (fst _) as [[f |] |]; try (destruct Hm as (_ & ->); exact Hwf).
    destruct Hm as (_ & region & Hf & ->).
    intros k r Hk. apply lookup_insert_Some in Hk as [[_ <-] | [_ Hk]]; [congruence | eauto].
Qed.

End RegionCache.

(* ===================================================================== *)
(** * The function cache of MiniScriptJIT *)
(* ===================================================================== *)

Section FunctionCache.
Context `{LLJIT}.
Import MiniScriptJIT.

Lemma compileExpression_hit (j : MiniScriptJIT.t) (expr : SimpleExpression)
    (functionName : string) (compileTime addr : Z) :
  CompiledFunctions j !! functionName = Some addr ->
  compileExpression j expr functionName compileTime = (inr addr, j, []).
Proof. intros Hc. unfold compileExpression. rewrite Hc. reflexivity. Qed.

(** On a miss the cache is either left as it was, with an error returned, or
    extended by the returned address under [functionName]; the IR is
    generated once. *)
Lemma compileExpression_miss (j : MiniScriptJIT.t) (expr : SimpleExpression)
    (functionName : string) (compileTime : Z) :
  CompiledFunctions j !! functionName = None ->
  match compileExpression j expr functionName compileTime with
  | (inl err, j', evs) =>
      CompiledFunctions j' = CompiledFunctions j /\ ir_generations evs = 1%nat
  | (inr addr, j', evs) =>
      CompiledFunctions j' = <[functionName := addr]> (CompiledFunctions j) /\
      ir_generations evs = 1%nat
  end.
Proof.
  intros Hmiss. unfold compileExpression. rewrite Hmiss.
  destruct (generateLLVMIR expr) as [err | result]; [auto |].
  destruct (verifyFunction _); [auto |].
  destruct (addIRModule _ _) as [[err |] jit]; [auto |].
  destruct (lookup _ _) as [[err | addr] jit']; auto.
Qed.

(** The error paths of a miss: IR generation, verification, adding the
    module, looking the symbol up. *)
Lemma compileExpression_failure (j : MiniScriptJIT.t) (expr : SimpleExpression)
    (functionName : string) (compileTime : Z) :
  CompiledFunctions j !! functionName = None ->
  (exists err, generateLLVMIR expr = inl err) \/
  (exists result, generateLLVMIR expr = inr result /\
     verifyFunction {| LLVM.name := functionName;
                       LLVM.arity := length (input_variables expr);
                       LLVM.ret := result |} = true) ->
  exists err, (compileExpression j expr functionName compileTime).1.1 = inl err.
Proof.
  intros Hmiss Hfail. unfold compileExpression. rewrite Hmiss.
  destruct Hfail as [[err ->] | (result & -> & ->)]; eauto.
Qed.

End FunctionCache.

(* ===================================================================== *)
(** * The scan of executeJITOrFallback *)
(* ===================================================================== *)

Section Dispatch.
Context `{Platform} `{Host} `{CodeGenerator}.

Lemma covers_decide (r : CompiledRegion) (line : Z) :
  (startLine r <=? line) && (line <=? endLine r) = true <-> covers r line.
Proof. unfold covers. rewrite andb_true_iff, !Z.leb_le. tauto. Qed.

(** The scan keeps a covering region of the largest span, whatever the order
    of the entries; it keeps nothing only when no entry covers the line. *)
Lemma find_best_spec (order : list (string * CompiledRegion)) (line : Z) :
  match find_best order line with
  | None => forall k r, (k, r) ∈ order -> ~ covers r line
  | Some (k, r) =>
      (k, r) ∈ order /\ covers r line /\
      forall k' r', (k', r') ∈ order -> covers r' line -> span r' <= span r
  end.
Proof.
  induction order as [| [k r] order IH] using rev_ind.
  - cbn. intros k r Hin. inversion Hin.
  - unfold find_best in *. rewrite fold_left_app. cbn [fold_left].
    destruct (fold_left (best_step line) order None) as [[kb rb] |];
      unfold best_step;
      destruct ((startLine r <=? line) && (line <=? endLine r)) eqn:Hcov.
    + apply covers_decide in Hcov. destruct IH as (Hin & Hb & Hmax).
      destruct (endLine rb - startLine rb <? endLine r - startLine r) eqn:Hlt.
      * apply Z.ltb_lt in Hlt. split; [set_solver |]. split; [exact Hcov |].
        intros k' r' Hin' Hc'. apply elem_of_app in Hin' as [Hin' | Hin'].
        -- specialize (Hmax k' r' Hin' Hc'). unfold span in *. lia.
        -- apply list_elem_of_singleton in Hin'. injection Hin' as -> ->. lia.
      * apply Z.ltb_ge in Hlt. split; [set_solver |]. split; [exact Hb |].
        intros k' r' Hin' Hc'. apply elem_of_app in Hin' as [Hin' | Hin'].
        -- exact (Hmax k' r' Hin' Hc').
        -- apply list_elem_of_singleton in Hin'. injection Hin' as -> ->.
           unfold span. lia.
    + destruct IH as (Hin & Hb & Hmax).
      split; [set_solver |]. split; [exact Hb |].
      intros k' r' Hin' Hc'. apply elem_of_app in Hin' as [Hin' | Hin'].
      * exact (Hmax k' r' Hin' Hc').
      * apply list_elem_of_singleton in Hin'. injection Hin' as -> ->.
        apply covers_decide in Hc'. congruence.
    + apply covers_decide in Hcov. split; [set_solver |]. split; [exact Hcov |].
      intros k' r' Hin' Hc'. apply elem_of_app in Hin' as [Hin' | Hin'].
      * destruct (IH k' r' Hin' Hc').
      * apply list_elem_of_singleton in Hin'. injection Hin' as -> ->. lia.
    + intros k' r' Hin' Hc'. apply elem_of_app in Hin' as [Hin' | Hin'].
      * exact (IH k' r' Hin' Hc').
      * apply list_elem_of_singleton in Hin'. injection Hin' as -> ->.
        apply covers_decide in Hc'. congruence.
Qed.



(** A dispatch leaves the generator alone, and the cache too, up to the
    execution counter of the region that ran. *)
Lemma executeJITOrFallback_cache (jit : RuntimeJIT)
    (order : list (string * CompiledRegion)) (ctx line : Z) (elapsed : double) :
  order ≡ₚ map_to_list (compiledRegions_ jit) ->
  irGenerator_ (executeJITOrFallback jit order ctx line elapsed).1.1.2 = irGenerator_ jit /\
  (compiledRegions_ (executeJITOrFallback jit order ctx line elapsed).1.1.2
   = compiledRegions_ jit \/
   exists k r r',
     compiledRegions_ jit !! k = Some r /\ same_artifact r r' /\
     compiledRegions_ (executeJITOrFallback jit order ctx line elapsed).1.1.2
     = <[k := r']> (compiledRegions_ jit)).
Proof.
  intros Hperm.
  pose proof (find_best_spec order line) as Hbest.
  unfold executeJITOrFallback.
  destruct (find_best order line) as [[k r] |]; [| cbn; auto].
  destruct Hbest as (Hin & _). rewrite Hperm in Hin. apply elem_of_map_to_list in Hin.
  destruct (function r) as [f |] eqn:Hf; [| cbn; auto].
  destruct (executeCompiledFunction _ _); [| cbn; auto].
  cbn [fst snd irGenerator_ compiledRegions_]. split; [reflexivity |].
  right. eexists k, r, _. split; [exact Hin |]. split; [| reflexivity].
  repeat split; cbn; congruence.
Qed.



(** Every cache built by calls from an empty one holds functions only. *)
Lemma jit_step_functions (jit jit' : RuntimeJIT) :
  jit_step jit jit' ->
  regions_have_functions (compiledRegions_ jit) ->
  regions_have_functions (compiledRegions_ jit').
Proof.
  intros [jit0 ctx context s e t | jit0 order ctx line t Hperm] Hwf.
  - apply compileContextRange_functions, Hwf.
  - destruct (executeJITOrFallback_cache jit0 order ctx line t Hperm)
      as (_ & [-> | (k0 & r0 & r0' & Hk0 & Hsame & ->)]); [exact Hwf |].
    intros k r Hk. apply lookup_insert_Some in Hk as [[_ <-] | [_ Hk]]; [| eauto].
    destruct Hsame as (-> & _). eauto.
Qed.

Lemma jit_steps_functions (jit jit' : RuntimeJIT) :
  rtc jit_step jit jit' ->
  regions_have_functions (compiledRegions_ jit) ->
  regions_have_functions (compiledRegions_ jit').
Proof.
  induction 1 as [jit | jit jit1 jit2 Hstep _ IH]; intros Hwf; [exact Hwf |].
  apply IH. eapply jit_step_functions; eauto.
Qed.

Lemma reachable_regions_have_functions (jit jit' : RuntimeJIT) :
  compiledRegions_ jit = ∅ -> rtc jit_step jit jit' ->
  regions_have_functions (compiledRegions_ jit').
Proof.
  intros Hempty Hsteps. apply (jit_steps_functions _ _ Hsteps).
  intros k r Hk. rewrite Hempty, lookup_empty in Hk. discriminate.
Qed.

(** C10. [executeJITOrFallback], for any order in which the cache is
    enumerated and a cache whose regions hold functions: it returns [true]
    exactly when some cached region covers the current line and the
    execution succeeds (the context pointer is set); then the region that ran
    covers the line and no covering region has a larger span, and the current
    line is that region's [endLine + 1]; when it returns [false] the current
    line is unchanged. *)
Theorem executeJITOrFallback_runs_widest (jit : RuntimeJIT)
    (order : list (string * CompiledRegion)) (ctx line : Z) (elapsed : double) :
  order ≡ₚ map_to_list (compiledRegions_ jit) ->
  regions_have_functions (compiledRegions_ jit) ->
  match executeJITOrFallback jit order ctx line elapsed with
  | (ok, jit', line', evs) =>
      (ok = true <->
       (exists k r, compiledRegions_ jit !! k = Some r /\ covers r line) /\ ctx <> 0) /\
      (ok = true ->
       exists k r,
         compiledRegions_ jit !! k = Some r /\ covers r line /\
         (forall k' r', compiledRegions_ jit !! k' = Some r' -> covers r' line ->
                        span r' <= span r) /\
         evs = [EvExecute k (function r)] /\
         line' = endLine r + 1) /\
      (ok = false -> line' = line)
  end.
Proof.
  intros Hperm Hwf.
  assert (Hmem : forall k r, (k, r) ∈ order <-> compiledRegions_ jit !! k = Some r).
  { intros k r. rewrite Hperm. apply elem_of_map_to_list. }
  pose proof (find_best_spec order line) as Hbest.
  unfold executeJITOrFallback.
  destruct (find_best order line) as [[k r] |].
  - destruct Hbest as (Hin & Hcov & Hmax). apply Hmem in Hin.
    destruct (function r) as [f |] eqn:Hf; [| destruct (Hwf k r Hin Hf)].
    unfold executeCompiledFunction.
    destruct (ctx =? 0) eqn:Hctx; cbn [negb].
    + apply Z.eqb_eq in Hctx. split; [| split]; try discriminate; [| reflexivity].
      split; [discriminate | intros [_ Hne]; contradiction].
    + apply Z.eqb_neq in Hctx. split; [| split]; try discriminate.
      * split; [intros _; eauto | reflexivity].
      * intros _. exists k, r. rewrite Hf.
        split; [exact Hin |]. split; [exact Hcov |].
        split; [| split; reflexivity].
        intros k' r' Hk' Hc'. apply (Hmax k' r'); [apply Hmem, Hk' | exact Hc'].
  - split; [| split]; try discriminate; [| reflexivity].
    split; [discriminate |].
    intros [(k & r & Hk & Hcov) _]. destruct (Hbest k r); [apply Hmem, Hk | exact Hcov].
Qed.

End Dispatch.

Section CompileOnce.
Context `{Platform} `{Host} `{CodeGenerator} `{LLJIT}.
Import MiniScriptJIT.




(** C7. A compile request that fails leaves the cache as it was. For
    [compileContextRange]: whenever it returns [false] the region cache is
    unchanged, and on a miss of a compilable range it returns [false] as soon
    as the generator throws or returns a null pointer. For
    [compileExpression]: whenever it returns an error the function cache is
    unchanged, and on a miss it returns an error as soon as IR generation
    fails or the verifier rejects the function. *)
Theorem failed_compile_keeps_cache
    (jit : RuntimeJIT) (ctx : Z) (context : Context) (startLine endLine : Z)
    (elapsed : double)
    (j : MiniScriptJIT.t) (expr : SimpleExpression) (functionName : string)
    (compileTime : Z) :
  let fingerprint := generateContextFingerprint ctx context startLine endLine in
  let generated :=
    generateFunction (irGenerator_ jit) (extractTACSequence context startLine endLine)
                     ("jit_context_" +:+ fingerprint) in
  let compiled := compileContextRange jit ctx context startLine endLine elapsed in
  let expected := compileExpression j expr functionName compileTime in
  (compiled.1.1 = false -> compiledRegions_ compiled.1.2 = compiledRegions_ jit) /\
  (compiledRegions_ jit !! fingerprint = None ->
   isCompilableSequence (SubList (code context) startLine (endLine - startLine + 1)) = true ->
   fst generated = Thrown \/ fst generated = Returned None ->
   compiled.1.1 = false) /\
  (forall err, expected.1.1 = inl err ->
     CompiledFunctions expected.1.2 = CompiledFunctions j) /\
  (CompiledFunctions j !! functionName = None ->
   (exists err, generateLLVMIR expr = inl err) \/
   (exists result, generateLLVMIR expr = inr result /\
      verifyFunction {| LLVM.name := functionName;
                        LLVM.arity := length (input_variables expr);
                        LLVM.ret := result |} = true) ->
   exists err, expected.1.1 = inl err).
Proof.
  cbv zeta. split; [| split; [| split]].
  - destruct (compiledRegions_ jit !! generateContextFingerprint ctx context startLine endLine)
      as [r' |] eqn:Hfp.
    + rewrite compileContextRange_hit by eauto. reflexivity.
    + pose proof (compileContextRange_miss jit ctx context startLine endLine elapsed Hfp) as Hm.
      cbv zeta in Hm.
      destruct (compileContextRange _ _ _ _ _ _) as [[ok jit'] evs]. cbn [fst snd].
      destruct (negb _); [destruct Hm as (_ & -> & _); reflexivity |].
      destruct Hm as (_ & _ & Hm). intros ->.
      destruct (fst _) as [[f |] |]; destruct Hm as (Hok & Hm); [discriminate | exact Hm ..].
  - intros Hfp Hcomp Hgen.
    pose proof (compileContextRange_miss jit ctx context startLine endLine elapsed Hfp) as Hm.
    cbv zeta in Hm. rewrite Hcomp in Hm. cbn [negb] in Hm.
    destruct (compileContextRange _ _ _ _ _ _) as [[ok jit'] evs]. cbn [fst snd].
    destruct Hm as (_ & _ & Hm).
    destruct Hgen as [Hg | Hg]; rewrite Hg in Hm; apply Hm.
  - intros err Herr.
    destruct (CompiledFunctions j !! functionName) as [a |] eqn:Hf.
    + rewrite (compileExpression_hit _ _ _ _ _ Hf) in Herr. discriminate.
    + pose proof (compileExpression_miss j expr functionName compileTime Hf) as Hm.
      destruct (compileExpression _ _ _ _) as [[[e | a] j'] evs]; cbn [fst snd] in *;
        [apply Hm | discriminate].
  - apply compileExpression_failure.
Qed.

End CompileOnce.


(* ===================================================================== *)
(** * The dispatcher of JITMachine.cpp *)
(* ===================================================================== *)

Section Machine.
Context `{Host}.
Import JITMachine.

Lemma containsHotPaths_spec (context : Context) :
  JITIntegration.containsHotPaths context = true <->
  exists (i : nat) (line : MSTACLine),
    code context !! i = Some line /\ plain_backward_jump (Z.of_nat i) line.
Proof.
  unfold JITIntegration.containsHotPaths, plain_backward_jump.
  rewrite existsb_exists. split.
  - intros ([i line] & Hin & Hb).
    apply list_elem_of_In, elem_of_lookup_imap in Hin as (i' & line' & Heq & Hl).
    injection Heq as -> ->. exists i', line'. split; [exact Hl |].
    destruct (op line'); try discriminate;
      (destruct (rhsA line') as [| d | | | |] eqn:Ha; try discriminate;
       apply Z.ltb_lt in Hb; eauto 7).
  - intros (i & line & Hl & Hop & (d & Ha) & Hlt). exists (i, line).
    split; [apply list_elem_of_In, elem_of_lookup_imap; eauto |].
    destruct Hop as [-> | ->]; rewrite Ha; rewrite Ha in Hlt; apply Z.ltb_lt, Hlt.
Qed.

Lemma HasHotPaths_spec (ctx : Z) (context : Context) :
  HasHotPaths ctx context = true <->
  ctx <> 0 /\ 5 <= Count context /\ context_has_backward_jump context.
Proof.
  unfold HasHotPaths, context_has_backward_jump.
  destruct (ctx =? 0) eqn:Hctx; cbn [orb].
  { apply Z.eqb_eq in Hctx. split; [discriminate | intros [? _]; contradiction]. }
  apply Z.eqb_neq in Hctx.
  destruct (Count context <? 5) eqn:Hcount.
  { apply Z.ltb_lt in Hcount. split; [discriminate | lia]. }
  apply Z.ltb_ge in Hcount.
  rewrite existsb_exists. split.
  - intros ([i line] & Hin & Hb).
    apply list_elem_of_In, elem_of_lookup_imap in Hin as (i' & line' & Heq & Hl).
    injection Heq as -> ->. eauto 6.
  - intros (_ & _ & i & line & Hl & Hb). exists (i, line). split; [| exact Hb].
    apply list_elem_of_In, elem_of_lookup_imap. eauto.
Qed.

Lemma ShouldConsiderJIT_after_update (jm : JITMachine.t) (ctx lineNum now : Z) :
  ShouldConsiderJIT (UpdateExecutionProfile jm ctx lineNum now) ctx = true <->
  jit_ jm = true /\ jitEnabled_ jm = true /\
  50 < wrap64 (counter (contextExecutionCounts (profile_ jm)) ctx + 1).
Proof.
  unfold ShouldConsiderJIT, UpdateExecutionProfile.
  cbn [jit_ jitEnabled_ profile_ contextExecutionCounts].
  rewrite lookup_insert_eq.
  destruct (jit_ jm), (jitEnabled_ jm); cbn [negb orb];
    rewrite ?Z.ltb_lt; intuition discriminate.
Qed.

(** What [ExecuteWithJITOrFallback] does in any state, also one whose [jit_]
    is set (which no constructor or method of the sources produces): it
    attempts a compilation exactly when [jit_] is set and enabled, the
    context has been stepped more than 50 times, and the context as a whole
    (of at least 5 lines) holds a backward jump: a Goto-family instruction at
    some line [i] whose numeric target is below [i]. The window attempted is
    the 10 lines around the current line, clipped to the code; the backward
    jump may lie anywhere in the context, inside the window or not.
    [JITIntegration::containsHotPaths] scans the whole context in the same
    way, for [GotoA] and [GotoAifB]. The numeric operands are taken within
    the range of [long], where the casts of the two scans are defined. *)
Lemma compile_attempt_needs_loop_in_context (jm : JITMachine.t) (ctx : Z)
    (context context' : Context) (now : Z) (s e : Z) :
  jump_targets_in_range context' ->
  (EvCompileContextRange s e ∈ (ExecuteWithJITOrFallback jm ctx context context' now).2 <->
   jit_ jm = true /\ jitEnabled_ jm = true /\
   50 < wrap64 (counter (contextExecutionCounts (profile_ jm)) ctx + 1) /\
   ctx <> 0 /\ 5 <= Count context' /\ context_has_backward_jump context' /\
   s = Z.max 0 (lineNum context - 10) /\
   e = Z.min (Count context' - 1) (lineNum context + 10)) /\
  (JITIntegration.containsHotPaths context' = true <->
   exists (i : nat) (line : MSTACLine),
     code context' !! i = Some line /\ plain_backward_jump (Z.of_nat i) line).
Proof.
  intros _. split; [| apply containsHotPaths_spec].
  unfold ExecuteWithJITOrFallback. cbn [negb].
  pose proof (ShouldConsiderJIT_after_update jm ctx (lineNum context) now) as Hshould.
  pose proof (HasHotPaths_spec ctx context') as Hhot.
  destruct (ShouldConsiderJIT _ ctx); [destruct (HasHotPaths ctx context') |]; cbn [snd].
  - rewrite !elem_of_cons, elem_of_nil. split.
    + intros [Hev | [Hev | []]]; [discriminate |]. injection Hev as -> ->.
      destruct Hshould as [Hshould _], Hhot as [Hhot _].
      specialize (Hshould eq_refl). specialize (Hhot eq_refl). intuition.
    + intros (_ & _ & _ & _ & _ & _ & -> & ->). auto.
  - rewrite !elem_of_cons, elem_of_nil. split.
    + intros [Hev | []]; discriminate.
    + intros (_ & _ & _ & Hctx & Hcount & Hjump & _).
      destruct Hhot as [_ Hhot]. discriminate Hhot. auto.
  - rewrite !elem_of_cons, elem_of_nil. split.
    + intros [Hev | []]; discriminate.
    + intros (Hj & He & Hc & _).
      destruct Hshould as [_ Hshould]. discriminate Hshould. auto.
Qed.


End Machine.
(* ===================================================================== *)
(** * Dictionary.h: the hash function and the table sizes *)
(* ===================================================================== *)

Lemma wrap32_range (z : Z) : 0 <= wrap32 z < 2 ^ 32.
Proof. unfold wrap32. apply Z.mod_pos_bound. lia. Qed.

Lemma wrap32_small (z : Z) : 0 <= z < 2 ^ 32 -> wrap32 z = z.
Proof. intros Hz. unfold wrap32. apply Z.mod_small. exact Hz. Qed.

Lemma testbit_above (x : Z) (n : Z) : 0 <= x < 2 ^ 32 -> 32 <= n -> Z.testbit x n = false.
Proof.
  intros Hx Hn. destruct (Z.eq_dec x 0) as [-> | Hne].
  - apply Z.bits_0.
  - apply Z.bits_above_log2; [lia |].
    assert (Z.log2 x < 32) by (apply Z.log2_lt_pow2; lia). lia.
Qed.

(** The step [x ^ (x >> 16)] loses nothing on 32 bits. *)
Lemma xorshift16_inj (x y : Z) :
  0 <= x < 2 ^ 32 -> 0 <= y < 2 ^ 32 ->
  Z.lxor (Z.shiftr x 16) x = Z.lxor (Z.shiftr y 16) y -> x = y.
Proof.
  intros Hx Hy Heq.
  assert (Hbit : forall n, 0 <= n ->
            xorb (Z.testbit x (n + 16)) (Z.testbit x n)
            = xorb (Z.testbit y (n + 16)) (Z.testbit y n)).
  { intros n Hn.
    rewrite <- !(Z.shiftr_spec _ 16 n) by lia.
    rewrite <- !Z.lxor_spec. now rewrite Heq. }
  assert (Hhigh : forall n, 16 <= n -> Z.testbit x n = Z.testbit y n).
  { intros n Hn. specialize (Hbit n ltac:(lia)).
    rewrite !(testbit_above _ (n + 16)) in Hbit by lia.
    exact Hbit. }
  apply Z.bits_inj'. intros n Hn.
  destruct (Z_lt_le_dec n 16) as [Hlow | Hge].
  - specialize (Hbit n Hn). rewrite (Hhigh (n + 16)) in Hbit by lia.
    destruct (Z.testbit x n), (Z.testbit y n), (Z.testbit y (n + 16));
      simpl in Hbit; congruence.
  - apply Hhigh. exact Hge.
Qed.

Lemma xorshift16_range (x : Z) :
  0 <= x < 2 ^ 32 -> 0 <= Z.lxor (Z.shiftr x 16) x < 2 ^ 32.
Proof.
  intros Hx.
  assert (Hs : 0 <= Z.shiftr x 16) by (apply Z.shiftr_nonneg; lia).
  assert (Hnn : 0 <= Z.lxor (Z.shiftr x 16) x) by (apply Z.lxor_nonneg; lia).
  split; [exact Hnn |].
  destruct (Z.eq_dec (Z.lxor (Z.shiftr x 16) x) 0) as [-> | Hne]; [lia |].
  apply Z.log2_lt_pow2; [lia |].
  assert (Hsl : Z.shiftr x 16 <= x).
  { rewrite Z.shiftr_div_pow2 by lia.
    apply Z.div_le_upper_bound; [lia |]. nia. }
  pose proof (Z.log2_lxor (Z.shiftr x 16) x Hs ltac:(lia)) as Hl.
  assert (Z.log2 x < 32).
  { destruct (Z.eq_dec x 0) as [-> | ?]; [simpl; lia |].
    apply Z.log2_lt_pow2; lia. }
  assert (Z.log2 (Z.shiftr x 16) <= Z.log2 x) by (apply Z.log2_le_mono; lia).
  lia.
Qed.

(** Multiplying by the odd constant is invertible modulo 2^32. *)
Lemma mul_45d9f3b_inj (x y : Z) :
  0 <= x < 2 ^ 32 -> 0 <= y < 2 ^ 32 ->
  wrap32 (x * 0x45d9f3b) = wrap32 (y * 0x45d9f3b) -> x = y.
Proof.
  intros Hx Hy Heq. unfold wrap32 in Heq.
  assert (Hinv : forall z, 0 <= z < 2 ^ 32 ->
            ((z * 0x45d9f3b) mod 2 ^ 32 * 0x119de1f3) mod 2 ^ 32 = z).
  { intros z Hz. rewrite Z.mul_mod_idemp_l by lia.
    rewrite <- Z.mul_assoc.
    change (0x45d9f3b * 0x119de1f3) with (1 + 2 ^ 32 * 5040344).
    replace (z * (1 + 2 ^ 32 * 5040344)) with (z + z * 5040344 * 2 ^ 32) by ring.
    rewrite Z.mod_add by lia. apply Z.mod_small. exact Hz. }
  rewrite <- (Hinv x Hx), <- (Hinv y Hy). now rewrite Heq.
Qed.

(** X5. Distinct 32-bit keys have distinct hashes: [hashUInt] is a permutation
    of the 32-bit values, so collisions in a table come from the reduction
    modulo the table size only. *)
Theorem hashUInt_injective (x y : Z) :
  0 <= x < 2 ^ 32 -> 0 <= y < 2 ^ 32 -> x <> y -> hashUInt x <> hashUInt y.
Proof.
  intros Hx Hy Hne Heq. apply Hne. unfold hashUInt in Heq.
  pose proof (xorshift16_range x Hx) as Hx1.
  pose proof (xorshift16_range y Hy) as Hy1.
  set (x1 := wrap32 (Z.lxor (Z.shiftr x 16) x * 0x45d9f3b)) in *.
  set (y1 := wrap32 (Z.lxor (Z.shiftr y 16) y * 0x45d9f3b)) in *.
  pose proof (wrap32_range (Z.lxor (Z.shiftr x 16) x * 0x45d9f3b)) as Hx2.
  pose proof (wrap32_range (Z.lxor (Z.shiftr y 16) y * 0x45d9f3b)) as Hy2.
  fold x1 in Hx2. fold y1 in Hy2.
  pose proof (xorshift16_range x1 Hx2) as Hx3.
  pose proof (xorshift16_range y1 Hy2) as Hy3.
  set (x2 := wrap32 (Z.lxor (Z.shiftr x1 16) x1 * 0x45d9f3b)) in *.
  set (y2 := wrap32 (Z.lxor (Z.shiftr y1 16) y1 * 0x45d9f3b)) in *.
  assert (H2 : x2 = y2).
  { apply xorshift16_inj; [apply wrap32_range | apply wrap32_range | exact Heq]. }
  assert (H1 : x1 = y1).
  { apply xorshift16_inj; [exact Hx2 | exact Hy2 |].
    apply mul_45d9f3b_inj; [exact Hx3 | exact Hy3 | exact H2]. }
  apply xorshift16_inj; [exact Hx | exact Hy |].
  apply mul_45d9f3b_inj; [exact Hx1 | exact Hy1 | exact H1].
Qed.

(** The hash never leaves the range of [unsigned int]. *)
Lemma hashUInt_range (x : Z) : 0 <= x < 2 ^ 32 -> 0 <= hashUInt x < 2 ^ 32.
Proof.
  intros Hx. unfold hashUInt. apply xorshift16_range, wrap32_range.
Qed.

Lemma next_from_listed (c : Z) :
  2 <= c ->
  match DictInternal.next_from DictInternal.PRIME_SIZES c with
  | Some next => c < next /\ DictInternal.prev_from DictInternal.PRIME_SIZES next = Some c
  | None => DictInternal.prev_from DictInternal.PRIME_SIZES (c * 2) = None
  end.
Proof.
  intros Hc. unfold DictInternal.PRIME_SIZES. cbn [DictInternal.next_from].
  repeat match goal with
         | |- context [?p =? c] =>
             destruct (Z.eqb_spec p c) as [<- | ?];
             [split; [lia | vm_compute; reflexivity] |]
         end.
  cbn [DictInternal.prev_from].
  repeat match goal with
         | |- context [?p =? c * 2] =>
             destruct (Z.eqb_spec p (c * 2)) as [? | ?]; [lia |]
         end.
  reflexivity.
Qed.

(** X6. Growing the table and shrinking it again gives back the size one started
    from, for every size from 2 on: along the listed primes, and by doubling
    and halving beyond them. The next size is always larger. *)
Theorem table_size_round_trip (c : Z) :
  2 <= c < 2 ^ 63 ->
  c < DictInternal.GetNextTableSize c /\
  DictInternal.GetPrevTableSize (DictInternal.GetNextTableSize c) = c.
Proof.
  intros Hc.
  pose proof (next_from_listed c ltac:(lia)) as H.
  unfold DictInternal.GetNextTableSize, DictInternal.GetPrevTableSize.
  destruct (DictInternal.next_from DictInternal.PRIME_SIZES c) as [next |].
  - destruct H as [Hlt ->]. split; [exact Hlt | reflexivity].
  - assert (Hw : wrap64 (c * 2) = c * 2).
    { unfold wrap64. apply Z.mod_small. lia. }
    rewrite Hw, H. split; [lia |].
    destruct (Z.ltb_spec 2 (c * 2)); [| lia].
    apply Z.div_mul. lia.
Qed.
(* ===================================================================== *)
(** * Dictionary.h: insertion, removal, resizing and enumeration *)
(* ===================================================================== *)

Section DictionaryFacts.
Context {K V : Type} `{EqDecision K}.
Variable HASH : K -> Z.

#[local] Abbreviation DictionaryStorage := (@Dictionary.DictionaryStorage K V).
#[local] Abbreviation dict := (@Dictionary.t K V).
#[local] Abbreviation hash_mod := (Dictionary.hash_mod HASH).
#[local] Abbreviation hashKey := (@Dictionary.hashKey K V HASH).
#[local] Abbreviation rep := (@Dictionary.rep K V HASH).
#[local] Abbreviation rep_t := (@Dictionary.rep_t K V HASH).

(** ** Chains *)

Lemma assoc_unique (l : list (K * V)) (k : K) (v v' : V) :
  NoDup l.*1 -> (k, v) ∈ l -> (k, v') ∈ l -> v = v'.
Proof.
  induction l as [| [k0 v0] l IH]; intros Hnd Hv Hv'.
  - inversion Hv.
  - rewrite fmap_cons in Hnd. apply NoDup_cons in Hnd as [Hnotin Hnd].
    apply elem_of_cons in Hv as [Hv | Hv], Hv' as [Hv' | Hv'].
    + congruence.
    + exfalso. apply Hnotin. inversion Hv; subst.
      apply list_elem_of_fmap. exists (k0, v'). split; [reflexivity | exact Hv'].
    + exfalso. apply Hnotin. inversion Hv'; subst.
      apply list_elem_of_fmap. exists (k0, v). split; [reflexivity | exact Hv].
    + apply IH; assumption.
Qed.

Lemma chain_find_elem (chain : list (K * V)) (k : K) (v : V) :
  Dictionary.chain_find chain k = Some v -> (k, v) ∈ chain.
Proof.
  induction chain as [| [k0 v0] chain IH]; cbn; [discriminate |].
  destruct (decide (k0 = k)) as [-> | Hne].
  - intros [= ->]. apply list_elem_of_here.
  - intros Hf. apply list_elem_of_further, IH, Hf.
Qed.

Lemma chain_find_None (chain : list (K * V)) (k : K) :
  Dictionary.chain_find chain k = None <-> k ∉ chain.*1.
Proof.
  induction chain as [| [k0 v0] chain IH]; cbn.
  - split; [intros _ Hin; inversion Hin | reflexivity].
  - destruct (decide (k0 = k)) as [-> | Hne].
    + split; [discriminate |]. intros Hnotin. exfalso. apply Hnotin, list_elem_of_here.
    + rewrite IH. rewrite not_elem_of_cons. split; [intros ?; split; [congruence | assumption] | intros [_ ?]; assumption].
Qed.

Lemma chain_find_nodup (chain : list (K * V)) (k : K) (v : V) :
  NoDup chain.*1 -> (k, v) ∈ chain -> Dictionary.chain_find chain k = Some v.
Proof.
  intros Hnd Hin.
  destruct (Dictionary.chain_find chain k) as [v' |] eqn:Hf.
  - f_equal. apply (assoc_unique chain k); [exact Hnd | apply chain_find_elem, Hf | exact Hin].
  - exfalso. apply chain_find_None in Hf. apply Hf.
    apply list_elem_of_fmap. exists (k, v). split; [reflexivity | exact Hin].
Qed.

Lemma chain_set_Some (chain chain' : list (K * V)) (k : K) (v : V) :
  Dictionary.chain_set chain k v = Some chain' ->
  chain'.*1 = chain.*1 /\
  is_Some (Dictionary.chain_find chain k) /\
  forall k', Dictionary.chain_find chain' k'
             = if decide (k' = k) then Some v else Dictionary.chain_find chain k'.
Proof.
  revert chain'. induction chain as [| [k0 v0] chain IH]; intros chain'; cbn; [discriminate |].
  destruct (decide (k0 = k)) as [-> | Hne].
  - intros [= <-]. split; [reflexivity |]. split; [eexists; reflexivity |].
    intros k'. cbn. destruct (decide (k = k')) as [<- | Hne'].
    + rewrite decide_True by reflexivity. reflexivity.
    + rewrite decide_False by congruence. reflexivity.
  - destruct (Dictionary.chain_set chain k v) as [rest' |] eqn:Hs; [| discriminate].
    intros [= <-]. destruct (IH rest' eq_refl) as (Hk & Hsome & Hfind).
    split; [cbn; now rewrite Hk |]. split; [exact Hsome |].
    intros k'. cbn. destruct (decide (k0 = k')) as [<- | Hne'].
    + rewrite decide_False by congruence. reflexivity.
    + apply Hfind.
Qed.

Lemma chain_set_None (chain : list (K * V)) (k : K) (v : V) :
  Dictionary.chain_set chain k v = None -> Dictionary.chain_find chain k = None.
Proof.
  induction chain as [| [k0 v0] chain IH]; cbn; [reflexivity |].
  destruct (decide (k0 = k)); [discriminate |].
  destruct (Dictionary.chain_set chain k v); [discriminate | intros _; apply IH; reflexivity].
Qed.

Lemma chain_remove_Some (chain chain' : list (K * V)) (k : K) (out : V) :
  Dictionary.chain_remove chain k = Some (out, chain') ->
  Dictionary.chain_find chain k = Some out /\
  chain ≡ₚ (k, out) :: chain' /\
  forall k', k' <> k -> Dictionary.chain_find chain' k' = Dictionary.chain_find chain k'.
Proof.
  revert chain'. induction chain as [| [k0 v0] chain IH]; intros chain'; cbn; [discriminate |].
  destruct (decide (k0 = k)) as [-> | Hne].
  - intros [= <- <-]. split; [reflexivity |]. split; [reflexivity |].
    intros k' Hk'. rewrite decide_False by congruence. reflexivity.
  - destruct (Dictionary.chain_remove chain k) as [[out' rest'] |] eqn:Hr; [| discriminate].
    intros [= <- <-]. destruct (IH rest' eq_refl) as (Hf & Hp & Hfind).
    split; [exact Hf |]. split.
    + rewrite Hp. apply Permutation_swap.
    + intros k' Hk'. cbn. destruct (decide (k0 = k')); [reflexivity | apply Hfind, Hk'].
Qed.

Lemma chain_remove_None (chain : list (K * V)) (k : K) :
  Dictionary.chain_remove chain k = None -> Dictionary.chain_find chain k = None.
Proof.
  induction chain as [| [k0 v0] chain IH]; cbn; [reflexivity |].
  destruct (decide (k0 = k)); [discriminate |].
  destruct (Dictionary.chain_remove chain k) as [[? ?] |]; [discriminate | intros _; apply IH; reflexivity].
Qed.

(** ** Bins *)

Lemma hash_mod_range (n : Z) (k : K) :
  0 < n -> 0 <= hash_mod n k < n /\ hash_mod n k = wrap32 (HASH k) mod n.
Proof.
  intros Hn. unfold Dictionary.hash_mod.
  pose proof (wrap32_range (HASH k)) as Hh.
  pose proof (Z.mod_pos_bound (wrap32 (HASH k)) n Hn) as Hm.
  assert (wrap32 (HASH k) mod n <= wrap32 (HASH k)) by (apply Z.mod_le; lia).
  rewrite wrap32_small by lia. split; [exact Hm | reflexivity].
Qed.

Lemma hashKey_hash_mod (ds : DictionaryStorage) (k : K) :
  0 < Dictionary.mTableSize ds <= 2 ^ 31 ->
  hashKey (Some ds) k = hash_mod (Dictionary.mTableSize ds) k.
Proof.
  intros Hn. unfold Dictionary.hashKey, Dictionary.to_int.
  destruct (hash_mod_range (Dictionary.mTableSize ds) k ltac:(lia)) as [Hr _].
  destruct (Z.ltb_spec (hash_mod (Dictionary.mTableSize ds) k) (2 ^ 31)); [reflexivity | lia].
Qed.

Lemma bin_lookup (table : list (list (K * V))) (h : Z) :
  0 <= h < Z.of_nat (length table) ->
  table !! Z.to_nat h = Some (Dictionary.bin table h).
Proof.
  intros Hh. unfold Dictionary.bin.
  destruct (Z.ltb_spec h 0); [lia |].
  destruct (table !! Z.to_nat h) eqn:Hl; [reflexivity |].
  apply lookup_ge_None in Hl. lia.
Qed.

Lemma lookup_bin (table : list (list (K * V))) (i : nat) (chain : list (K * V)) :
  table !! i = Some chain -> Dictionary.bin table (Z.of_nat i) = chain.
Proof.
  intros Hl. unfold Dictionary.bin.
  destruct (Z.ltb_spec (Z.of_nat i) 0); [lia |].
  rewrite Nat2Z.id, Hl. reflexivity.
Qed.

Lemma bin_set_bin (table : list (list (K * V))) (h h' : Z) (chain : list (K * V)) :
  0 <= h < Z.of_nat (length table) -> 0 <= h' ->
  Dictionary.bin (Dictionary.set_bin table h chain) h'
  = if decide (h' = h) then chain else Dictionary.bin table h'.
Proof.
  intros Hh Hh'. unfold Dictionary.bin, Dictionary.set_bin.
  destruct (Z.ltb_spec h 0); [lia |]. destruct (Z.ltb_spec h' 0); [lia |].
  destruct (decide (h' = h)) as [-> | Hne].
  - rewrite list_lookup_insert_eq by lia. reflexivity.
  - rewrite list_lookup_insert_ne by lia. reflexivity.
Qed.

Lemma set_bin_length (table : list (list (K * V))) (h : Z) (chain : list (K * V)) :
  length (Dictionary.set_bin table h chain) = length table.
Proof.
  unfold Dictionary.set_bin. destruct (h <? 0); [reflexivity | apply length_insert].
Qed.

Lemma set_bin_lookup (table : list (list (K * V))) (h : Z) (chain c : list (K * V)) (i : nat) :
  0 <= h ->
  Dictionary.set_bin table h chain !! i = Some c ->
  (i = Z.to_nat h /\ c = chain) \/ (i <> Z.to_nat h /\ table !! i = Some c).
Proof.
  intros Hh. unfold Dictionary.set_bin. destruct (Z.ltb_spec h 0); [lia |].
  intros Hl. apply list_lookup_insert_Some in Hl as [(-> & -> & _) | [Hne Hl]].
  - left. split; reflexivity.
  - right. split; [congruence | exact Hl].
Qed.

(** The entries before and after one bin is replaced. *)
Lemma set_bin_concat (table : list (list (K * V))) (h : Z) (chain : list (K * V)) :
  0 <= h < Z.of_nat (length table) ->
  exists A B, concat table = A ++ Dictionary.bin table h ++ B /\
              concat (Dictionary.set_bin table h chain) = A ++ chain ++ B.
Proof.
  intros Hh. pose proof (bin_lookup table h Hh) as Hl.
  exists (concat (take (Z.to_nat h) table)), (concat (drop (S (Z.to_nat h)) table)).
  split.
  - rewrite <- (take_drop_middle table (Z.to_nat h) _ Hl) at 1.
    rewrite concat_app, concat_cons. reflexivity.
  - unfold Dictionary.set_bin. destruct (Z.ltb_spec h 0); [lia |].
    rewrite insert_take_drop by lia.
    rewrite concat_app, concat_cons. reflexivity.
Qed.

Lemma elem_of_concat {A : Type} (x : A) (ls : list (list A)) :
  x ∈ concat ls <-> exists l, x ∈ l /\ l ∈ ls.
Proof.
  induction ls as [| l0 ls IH]; cbn.
  - split; [intros Hin; inversion Hin | intros (l & _ & Hin); inversion Hin].
  - rewrite elem_of_app, IH. split.
    + intros [Hin | (l & Hin & Hl)].
      * exists l0. split; [exact Hin | apply list_elem_of_here].
      * exists l. split; [exact Hin | apply list_elem_of_further, Hl].
    + intros (l & Hin & Hl). apply elem_of_cons in Hl as [-> | Hl].
      * left. exact Hin.
      * right. exists l. split; assumption.
Qed.

Lemma elem_of_entries (ds : DictionaryStorage) (k : K) (v : V) :
  (k, v) ∈ Dictionary.entries ds <->
  exists (i : nat) (chain : list (K * V)),
    Dictionary.mTable ds !! i = Some chain /\ (k, v) ∈ chain.
Proof.
  unfold Dictionary.entries. rewrite elem_of_concat. split.
  - intros (chain & Hin & Hc). apply list_elem_of_lookup in Hc as [i Hi].
    exists i, chain. split; assumption.
  - intros (i & chain & Hi & Hin). exists chain. split; [exact Hin |].
    apply list_elem_of_lookup. exists i. exact Hi.
Qed.

(** [Get] finds exactly the entries of the table. *)
Lemma Get_elem (ds : DictionaryStorage) (k : K) (v : V) :
  rep ds -> Dictionary.mTableSize ds <= 2 ^ 31 ->
  Dictionary.Get HASH (Some ds) k = Some v <-> (k, v) ∈ Dictionary.entries ds.
Proof.
  intros Hrep Hsmall. destruct Hrep as [Hsize Hlen Hplaced Hnd Hcount].
  unfold Dictionary.TABLE_SIZE in Hsize.
  cbn [Dictionary.Get]. rewrite hashKey_hash_mod by lia.
  destruct (hash_mod_range (Dictionary.mTableSize ds) k ltac:(lia)) as [Hr _].
  pose proof (bin_lookup (Dictionary.mTable ds) (hash_mod (Dictionary.mTableSize ds) k)
                ltac:(lia)) as Hbin.
  split.
  - intros Hf. apply chain_find_elem in Hf. apply elem_of_entries. eauto.
  - intros Hin. pose proof Hin as Hin'. apply elem_of_entries in Hin as (i & chain & Hi & Hc).
    pose proof (Hplaced i chain k v Hi Hc) as Hh.
    rewrite Hh. rewrite (lookup_bin _ _ _ Hi).
    destruct (Dictionary.chain_find chain k) as [v' |] eqn:Hf.
    + f_equal. apply (assoc_unique (Dictionary.entries ds) k); [exact Hnd | | exact Hin'].
      apply elem_of_entries. exists i, chain. split; [exact Hi | apply chain_find_elem, Hf].
    + exfalso. apply chain_find_None in Hf. apply Hf.
      apply list_elem_of_fmap. exists (k, v). split; [reflexivity | exact Hc].
Qed.


Lemma Get_ext (ds ds' : DictionaryStorage) (k : K) :
  rep ds -> Dictionary.mTableSize ds <= 2 ^ 31 ->
  rep ds' -> Dictionary.mTableSize ds' <= 2 ^ 31 ->
  (forall v, (k, v) ∈ Dictionary.entries ds' <-> (k, v) ∈ Dictionary.entries ds) ->
  Dictionary.Get HASH (Some ds') k = Dictionary.Get HASH (Some ds) k.
Proof.
  intros Hrep Hs Hrep' Hs' Hiff. apply option_eq. intros v.
  rewrite !Get_elem by assumption. apply Hiff.
Qed.

Lemma ContainsKey_Get (d : dict) (k : K) :
  Dictionary.ContainsKey HASH d k
  = match Dictionary.Get HASH d k with Some _ => true | None => false end.
Proof. destruct d; reflexivity. Qed.

Lemma rep_check_sound (ds : DictionaryStorage) :
  Dictionary.rep_check HASH ds = true -> rep ds.
Proof.
  unfold Dictionary.rep_check. rewrite !andb_true_iff.
  intros ((((Hsize & Hlen) & Hplaced) & Hnd) & Hcount).
  constructor.
  - apply Z.leb_le, Hsize.
  - apply Z.eqb_eq, Hlen.
  - intros i chain k v Hi Hin. rewrite forallb_forall in Hplaced.
    specialize (Hplaced (i, chain)). cbn in Hplaced.
    assert (Hall : forallb (fun entry => hash_mod (Dictionary.mTableSize ds) (fst entry)
                                         =? Z.of_nat i) chain = true).
    { apply Hplaced. apply list_elem_of_In, elem_of_lookup_imap. eauto. }
    rewrite forallb_forall in Hall. apply Z.eqb_eq.
    apply (Hall (k, v)). apply list_elem_of_In, Hin.
  - apply bool_decide_eq_true in Hnd. exact Hnd.
  - apply Z.eqb_eq, Hcount.
Qed.

(** ** The fresh table *)

Lemma concat_replicate_nil {A : Type} (n : nat) : concat (replicate n (@nil A)) = [].
Proof. induction n as [| n IH]; cbn; [reflexivity | exact IH]. Qed.

Lemma rep_fresh (n : Z) :
  Dictionary.TABLE_SIZE <= n ->
  rep {| Dictionary.mSize := 0; Dictionary.mTableSize := n;
         Dictionary.mTable := replicate (Z.to_nat n) [] |}.
Proof.
  intros Hn. unfold Dictionary.TABLE_SIZE in Hn. constructor; cbn.
  - exact Hn.
  - rewrite length_replicate. lia.
  - intros i chain k v Hi Hin. apply lookup_replicate in Hi as [-> _]. inversion Hin.
  - unfold Dictionary.entries. cbn. rewrite concat_replicate_nil. constructor.
  - unfold Dictionary.entries. cbn. rewrite concat_replicate_nil. reflexivity.
Qed.

(** ** ResizeTable *)

Lemma rehash_step_spec (n : Z) (table : list (list (K * V))) (size : Z) (entry : K * V) :
  0 < n -> length table = Z.to_nat n ->
  (forall (i : nat) chain k v, table !! i = Some chain -> (k, v) ∈ chain ->
                               hash_mod n k = Z.of_nat i) ->
  exists table',
    Dictionary.rehash_step HASH n (table, size) entry = (table', size + 1) /\
    length table' = Z.to_nat n /\
    (forall (i : nat) chain k v, table' !! i = Some chain -> (k, v) ∈ chain ->
                                 hash_mod n k = Z.of_nat i) /\
    concat table' ≡ₚ entry :: concat table.
Proof.
  intros Hn Hlen Hplaced. unfold Dictionary.rehash_step.
  destruct (hash_mod_range n (fst entry) Hn) as [Hr _].
  set (h := hash_mod n (fst entry)) in *.
  eexists. split; [reflexivity |]. split; [rewrite set_bin_length; exact Hlen |]. split.
  - intros i chain k v Hi Hin.
    apply set_bin_lookup in Hi as [[-> ->] | [Hne Hi]]; [| | lia].
    + apply elem_of_cons in Hin as [Heq | Hin].
      * subst entry. cbn in h. subst h. lia.
      * assert (Hb : table !! Z.to_nat h = Some (Dictionary.bin table h))
          by (apply bin_lookup; lia).
        rewrite (Hplaced _ _ _ _ Hb Hin). reflexivity.
    + eapply Hplaced; eassumption.
  - destruct (set_bin_concat table h (entry :: Dictionary.bin table h) ltac:(lia))
      as (A & B & -> & ->).
    cbn. symmetry. apply Permutation_middle.
Qed.

Lemma rehash_fold_spec (n : Z) (es : list (K * V)) :
  0 < n -> forall (table : list (list (K * V))) (size : Z),
  length table = Z.to_nat n ->
  (forall (i : nat) chain k v, table !! i = Some chain -> (k, v) ∈ chain ->
                               hash_mod n k = Z.of_nat i) ->
  exists table',
    fold_left (Dictionary.rehash_step HASH n) es (table, size)
    = (table', size + Z.of_nat (length es)) /\
    length table' = Z.to_nat n /\
    (forall (i : nat) chain k v, table' !! i = Some chain -> (k, v) ∈ chain ->
                                 hash_mod n k = Z.of_nat i) /\
    concat table' ≡ₚ es ++ concat table.
Proof.
  intros Hn. induction es as [| e es IH]; intros table size Hlen Hplaced.
  - exists table. cbn. rewrite Z.add_0_r.
    split; [reflexivity |]. split; [exact Hlen |]. split; [exact Hplaced | reflexivity].
  - destruct (rehash_step_spec n table size e Hn Hlen Hplaced)
      as (table1 & Hstep & Hlen1 & Hplaced1 & Hperm1).
    destruct (IH table1 (size + 1) Hlen1 Hplaced1) as (table' & Hfold & Hlen' & Hplaced' & Hperm').
    exists table'. cbn [fold_left]. rewrite Hstep, Hfold.
    split; [f_equal; cbn [length]; lia |]. split; [exact Hlen' |]. split; [exact Hplaced' |].
    rewrite Hperm', Hperm1. cbn. symmetry. apply Permutation_middle.
Qed.

(** Resizing keeps the invariant and the entries. *)
Lemma ResizeTable_spec (ds : DictionaryStorage) (newSize : Z) :
  rep ds -> Dictionary.TABLE_SIZE <= newSize ->
  rep (Dictionary.ResizeTable HASH ds newSize) /\
  Dictionary.mTableSize (Dictionary.ResizeTable HASH ds newSize) = newSize /\
  Dictionary.mSize (Dictionary.ResizeTable HASH ds newSize) = Dictionary.mSize ds /\
  Dictionary.entries (Dictionary.ResizeTable HASH ds newSize) ≡ₚ Dictionary.entries ds.
Proof.
  intros Hrep Hn. unfold Dictionary.ResizeTable.
  destruct (Z.eqb_spec (Dictionary.mTableSize ds) newSize) as [Heq | Hne].
  - split; [exact Hrep |]. split; [exact Heq |]. split; reflexivity.
  - unfold Dictionary.TABLE_SIZE in Hn.
    destruct (rep_fresh newSize Hn) as [_ Hlen0 Hplaced0 _ _]. cbn in Hlen0, Hplaced0.
    destruct (rehash_fold_spec newSize (concat (Dictionary.mTable ds)) ltac:(lia)
                (replicate (Z.to_nat newSize) []) 0 ltac:(rewrite length_replicate; lia) Hplaced0)
      as (table' & Hfold & Hlen' & Hplaced' & Hperm').
    rewrite Hfold. rewrite concat_replicate_nil, app_nil_r in Hperm'.
    destruct Hrep as [Hsize Hlen Hplaced Hnd Hcount].
    assert (Hent : Dictionary.entries
                     {| Dictionary.mSize := 0 + Z.of_nat (length (concat (Dictionary.mTable ds)));
                        Dictionary.mTableSize := newSize; Dictionary.mTable := table' |}
                   ≡ₚ Dictionary.entries ds) by exact Hperm'.
    split; [constructor; cbn |].
    + exact Hn.
    + lia.
    + exact Hplaced'.
    + rewrite Hent. exact Hnd.
    + rewrite Hent. reflexivity.
    + cbn. split; [reflexivity |]. split; [exact (eq_sym Hcount) | exact Hent].
Qed.

Lemma ResizeTable_Get (ds : DictionaryStorage) (newSize : Z) (k : K) :
  rep ds -> Dictionary.mTableSize ds <= 2 ^ 31 ->
  Dictionary.TABLE_SIZE <= newSize <= 2 ^ 31 ->
  Dictionary.Get HASH (Some (Dictionary.ResizeTable HASH ds newSize)) k
  = Dictionary.Get HASH (Some ds) k.
Proof.
  intros Hrep Hs Hn.
  destruct (ResizeTable_spec ds newSize Hrep ltac:(lia)) as (Hrep' & Hsz & _ & Hperm).
  apply Get_ext; [exact Hrep | exact Hs | exact Hrep' | lia |].
  intros v. rewrite Hperm. reflexivity.
Qed.


Lemma Get_fresh (k : K) :
  Dictionary.Get HASH (Some (@Dictionary.new_storage K V)) k = None.
Proof.
  destruct (Dictionary.Get HASH (Some Dictionary.new_storage) k) as [v |] eqn:Hg;
    [| reflexivity].
  apply Get_elem in Hg.
  - unfold Dictionary.entries, Dictionary.new_storage in Hg. cbn in Hg.
    rewrite concat_replicate_nil in Hg. inversion Hg.
  - apply (rep_fresh Dictionary.TABLE_SIZE). reflexivity.
  - cbn. unfold Dictionary.TABLE_SIZE. lia.
Qed.

Lemma next_from_bound (c next : Z) :
  DictInternal.next_from DictInternal.PRIME_SIZES c = Some next ->
  c < next <= 16575841.
Proof.
  unfold DictInternal.PRIME_SIZES. cbn [DictInternal.next_from].
  repeat match goal with
         | |- context [?p =? c] =>
             destruct (Z.eqb_spec p c) as [<- | ?]; [intros [= <-]; lia |]
         end.
  discriminate.
Qed.

Lemma prev_from_bound (c prev : Z) :
  DictInternal.prev_from DictInternal.PRIME_SIZES c = Some prev ->
  Dictionary.TABLE_SIZE <= prev < c.
Proof.
  unfold DictInternal.PRIME_SIZES, Dictionary.TABLE_SIZE. cbn [DictInternal.prev_from].
  repeat match goal with
         | |- context [?p =? c] =>
             destruct (Z.eqb_spec p c) as [<- | ?]; [intros [= <-]; lia |]
         end.
  discriminate.
Qed.

Lemma GetNextTableSize_bounds (c : Z) :
  1 <= c <= 2 ^ 30 -> c < DictInternal.GetNextTableSize c <= 2 ^ 31.
Proof.
  intros Hc. unfold DictInternal.GetNextTableSize.
  destruct (DictInternal.next_from DictInternal.PRIME_SIZES c) as [next |] eqn:Hn.
  - apply next_from_bound in Hn. lia.
  - unfold wrap64. rewrite Z.mod_small by lia. lia.
Qed.

Lemma GetPrevTableSize_bounds (c : Z) :
  0 <= c -> DictInternal.GetPrevTableSize c <= c.
Proof.
  intros Hc. unfold DictInternal.GetPrevTableSize.
  destruct (DictInternal.prev_from DictInternal.PRIME_SIZES c) as [prev |] eqn:Hp.
  - apply prev_from_bound in Hp. lia.
  - destruct (Z.ltb_spec 2 c); [| lia]. apply Z.div_le_upper_bound; lia.
Qed.

(** ** The steps of SetValue and Remove *)

Lemma grow_if_loaded_spec (ds : DictionaryStorage) :
  rep ds -> Dictionary.mTableSize ds <= 2 ^ 30 ->
  rep (Dictionary.grow_if_loaded HASH ds) /\
  Dictionary.mTableSize (Dictionary.grow_if_loaded HASH ds) <= 2 ^ 31 /\
  Dictionary.mSize (Dictionary.grow_if_loaded HASH ds) = Dictionary.mSize ds /\
  forall k, Dictionary.Get HASH (Some (Dictionary.grow_if_loaded HASH ds)) k
            = Dictionary.Get HASH (Some ds) k.
Proof.
  intros Hrep Hs. unfold Dictionary.grow_if_loaded.
  pose proof (Dictionary.rep_size _ _ Hrep) as Hsize. unfold Dictionary.TABLE_SIZE in Hsize.
  destruct (Double.gtb _ _).
  - pose proof (GetNextTableSize_bounds (Dictionary.mTableSize ds) ltac:(lia)) as Hb.
    destruct (ResizeTable_spec ds (DictInternal.GetNextTableSize (Dictionary.mTableSize ds))
                Hrep ltac:(unfold Dictionary.TABLE_SIZE; lia)) as (Hrep' & Hsz & Hm & _).
    split; [exact Hrep' |]. split; [lia |]. split; [exact Hm |].
    intros k. apply ResizeTable_Get; [exact Hrep | lia | unfold Dictionary.TABLE_SIZE; lia].
  - split; [exact Hrep |]. split; [lia |]. split; reflexivity.
Qed.

Lemma shrink_if_sparse_spec (ds : DictionaryStorage) :
  rep ds -> Dictionary.mTableSize ds <= 2 ^ 31 ->
  rep (Dictionary.shrink_if_sparse HASH ds) /\
  Dictionary.mTableSize (Dictionary.shrink_if_sparse HASH ds) <= Dictionary.mTableSize ds /\
  Dictionary.mSize (Dictionary.shrink_if_sparse HASH ds) = Dictionary.mSize ds /\
  forall k, Dictionary.Get HASH (Some (Dictionary.shrink_if_sparse HASH ds)) k
            = Dictionary.Get HASH (Some ds) k.
Proof.
  intros Hrep Hs. unfold Dictionary.shrink_if_sparse.
  pose proof (Dictionary.rep_size _ _ Hrep) as Hsize. unfold Dictionary.TABLE_SIZE in Hsize.
  destruct (_ && _); [| split; [exact Hrep |]; split; [lia |]; split; reflexivity].
  destruct (Z.leb_spec Dictionary.TABLE_SIZE
              (DictInternal.GetPrevTableSize (Dictionary.mTableSize ds))) as [Hle | _];
    [| split; [exact Hrep |]; split; [lia |]; split; reflexivity].
  pose proof (GetPrevTableSize_bounds (Dictionary.mTableSize ds) ltac:(lia)) as Hb.
  destruct (ResizeTable_spec ds (DictInternal.GetPrevTableSize (Dictionary.mTableSize ds))
              Hrep Hle) as (Hrep' & Hsz & Hm & _).
  split; [exact Hrep' |]. split; [lia |]. split; [exact Hm |].
  intros k. apply ResizeTable_Get; [exact Hrep | lia | lia].
Qed.

Lemma Get_unfold (ds : DictionaryStorage) (k : K) :
  0 < Dictionary.mTableSize ds <= 2 ^ 31 ->
  Dictionary.Get HASH (Some ds) k
  = Dictionary.chain_find
      (Dictionary.bin (Dictionary.mTable ds) (hash_mod (Dictionary.mTableSize ds) k)) k.
Proof. intros Hs. cbn [Dictionary.Get]. rewrite hashKey_hash_mod by exact Hs. reflexivity. Qed.

Lemma store_spec (ds : DictionaryStorage) (key : K) (value : V) :
  rep ds -> Dictionary.mTableSize ds <= 2 ^ 31 ->
  rep (Dictionary.store HASH ds key value) /\
  Dictionary.mTableSize (Dictionary.store HASH ds key value) = Dictionary.mTableSize ds /\
  (forall k, Dictionary.Get HASH (Some (Dictionary.store HASH ds key value)) k
             = if decide (k = key) then Some value else Dictionary.Get HASH (Some ds) k) /\
  Dictionary.mSize (Dictionary.store HASH ds key value)
  = Dictionary.mSize ds
    + match Dictionary.Get HASH (Some ds) key with Some _ => 0 | None => 1 end.
Proof.
  intros Hrep Hs. pose proof Hrep as [Hsize Hlen Hplaced Hnd Hcount].
  unfold Dictionary.TABLE_SIZE in Hsize.
  unfold Dictionary.store. rewrite hashKey_hash_mod by lia.
  destruct (hash_mod_range (Dictionary.mTableSize ds) key ltac:(lia)) as [Hr _].
  set (h := hash_mod (Dictionary.mTableSize ds) key) in *.
  pose proof (bin_lookup (Dictionary.mTable ds) h ltac:(lia)) as Hb.
  set (c := Dictionary.bin (Dictionary.mTable ds) h) in *.
  assert (Hgetkey : Dictionary.Get HASH (Some ds) key = Dictionary.chain_find c key).
  { rewrite Get_unfold by lia. reflexivity. }
  assert (Hget : forall (c' : list (K * V)) (m : Z) (k : K),
            (forall k', Dictionary.chain_find c' k'
                        = if decide (k' = key) then Some value else Dictionary.chain_find c k') ->
            Dictionary.Get HASH
              (Some {| Dictionary.mSize := m; Dictionary.mTableSize := Dictionary.mTableSize ds;
                       Dictionary.mTable := Dictionary.set_bin (Dictionary.mTable ds) h c' |}) k
            = if decide (k = key) then Some value else Dictionary.Get HASH (Some ds) k).
  { intros c' m k Hfind. rewrite !Get_unfold by (cbn; lia). cbn.
    destruct (hash_mod_range (Dictionary.mTableSize ds) k ltac:(lia)) as [Hrk _].
    rewrite bin_set_bin by lia.
    destruct (decide (hash_mod (Dictionary.mTableSize ds) k = h)) as [Heq | Hne].
    - rewrite Hfind, Heq. reflexivity.
    - rewrite decide_False; [reflexivity |]. intros ->. apply Hne. reflexivity. }
  destruct (set_bin_concat (Dictionary.mTable ds) h
              (default [] (Dictionary.chain_set c key value)) ltac:(lia)) as (A & B & HA & _).
  fold c in HA.
  destruct (Dictionary.chain_set c key value) as [c' |] eqn:Hset.
  - apply chain_set_Some in Hset as (Hkeys & Hsome & Hfind).
    destruct (set_bin_concat (Dictionary.mTable ds) h c' ltac:(lia)) as (A' & B' & HA' & HB').
    fold c in HA'.
    split; [constructor; cbn [Dictionary.mSize Dictionary.mTableSize Dictionary.mTable] |].
    + exact Hsize.
    + rewrite set_bin_length. exact Hlen.
    + intros i chain k v Hi Hin.
      apply set_bin_lookup in Hi as [[-> ->] | [Hne Hi]]; [| | lia].
      * assert (Hk : k ∈ c.*1).
        { rewrite <- Hkeys. apply list_elem_of_fmap. exists (k, v). split; [reflexivity | exact Hin]. }
        apply list_elem_of_fmap in Hk as ([k0 v0] & -> & Hin0). cbn.
        rewrite (Hplaced _ _ _ _ Hb Hin0). lia.
      * eapply Hplaced; eassumption.
    + unfold Dictionary.entries in *. cbn [Dictionary.mTable]. rewrite HB'. rewrite HA' in Hnd.
      rewrite !fmap_app in *. rewrite Hkeys. exact Hnd.
    + unfold Dictionary.entries in *. cbn [Dictionary.mTable]. rewrite HB'. rewrite Hcount, HA'.
      rewrite !length_app. f_equal.
      assert (length c' = length c) by (rewrite <- (length_fmap fst c'), Hkeys, length_fmap; reflexivity).
      lia.
    + cbn [Dictionary.mTableSize Dictionary.mSize]. split; [reflexivity |]. split.
      * intros k. apply Hget. exact Hfind.
      * rewrite Hgetkey. destruct Hsome as [v0 ->]. lia.
  - apply chain_set_None in Hset.
    destruct (set_bin_concat (Dictionary.mTable ds) h ((key, value) :: c) ltac:(lia))
      as (A' & B' & HA' & HB').
    fold c in HA'.
    assert (Hperm : A' ++ ((key, value) :: c) ++ B' ≡ₚ (key, value) :: Dictionary.entries ds).
    { unfold Dictionary.entries. rewrite HA'. cbn. symmetry. apply Permutation_middle. }
    split; [constructor; cbn [Dictionary.mSize Dictionary.mTableSize Dictionary.mTable] |].
    + exact Hsize.
    + rewrite set_bin_length. exact Hlen.
    + intros i chain k v Hi Hin.
      apply set_bin_lookup in Hi as [[-> ->] | [Hne Hi]]; [| | lia].
      * apply elem_of_cons in Hin as [[= -> ->] | Hin]; [fold h; lia |].
        rewrite (Hplaced _ _ _ _ Hb Hin). lia.
      * eapply Hplaced; eassumption.
    + unfold Dictionary.entries at 1. cbn [Dictionary.mTable]. rewrite HB', Hperm.
      rewrite fmap_cons. cbn [fst]. apply NoDup_cons. split; [| exact Hnd].
      intros Hin. apply list_elem_of_fmap in Hin as ([k0 v0] & Hk & Hin0). cbn in Hk. subst k0.
      apply Get_elem in Hin0; [| exact Hrep | exact Hs]. congruence.
    + unfold Dictionary.entries at 1. cbn [Dictionary.mTable]. rewrite HB', Hperm.
      cbn [length]. rewrite Hcount. lia.
    + cbn [Dictionary.mTableSize Dictionary.mSize]. split; [reflexivity |]. split.
      * intros k. apply Hget. intros k'. cbn.
        destruct (decide (key = k')) as [<- | Hne].
        -- rewrite decide_True by reflexivity. reflexivity.
        -- rewrite decide_False by congruence. reflexivity.
      * rewrite Hgetkey, Hset. reflexivity.
Qed.

Lemma unlink_spec (ds : DictionaryStorage) (key : K) (out : V) (chain : list (K * V)) :
  rep ds -> Dictionary.mTableSize ds <= 2 ^ 31 ->
  Dictionary.chain_remove
    (Dictionary.bin (Dictionary.mTable ds) (hashKey (Some ds) key)) key = Some (out, chain) ->
  rep {| Dictionary.mSize := Dictionary.mSize ds - 1;
         Dictionary.mTableSize := Dictionary.mTableSize ds;
         Dictionary.mTable :=
           Dictionary.set_bin (Dictionary.mTable ds) (hashKey (Some ds) key) chain |} /\
  Dictionary.Get HASH (Some ds) key = Some out /\
  forall k,
    Dictionary.Get HASH
      (Some {| Dictionary.mSize := Dictionary.mSize ds - 1;
               Dictionary.mTableSize := Dictionary.mTableSize ds;
               Dictionary.mTable :=
                 Dictionary.set_bin (Dictionary.mTable ds) (hashKey (Some ds) key) chain |}) k
    = if decide (k = key) then None else Dictionary.Get HASH (Some ds) k.
Proof.
  intros Hrep Hs. pose proof Hrep as [Hsize Hlen Hplaced Hnd Hcount].
  unfold Dictionary.TABLE_SIZE in Hsize.
  rewrite hashKey_hash_mod by lia.
  destruct (hash_mod_range (Dictionary.mTableSize ds) key ltac:(lia)) as [Hr _].
  set (h := hash_mod (Dictionary.mTableSize ds) key) in *.
  pose proof (bin_lookup (Dictionary.mTable ds) h ltac:(lia)) as Hb.
  set (c := Dictionary.bin (Dictionary.mTable ds) h) in *.
  intros Hrem. apply chain_remove_Some in Hrem as (Hfind & Hperm & Hothers).
  destruct (set_bin_concat (Dictionary.mTable ds) h chain ltac:(lia)) as (A & B & HA & HB).
  fold c in HA.
  assert (Hents : Dictionary.entries ds ≡ₚ (key, out) :: A ++ chain ++ B).
  { unfold Dictionary.entries. rewrite HA, Hperm. cbn. symmetry. apply Permutation_middle. }
  assert (Hnd' : (key ∉ (A ++ chain ++ B).*1) /\ NoDup ((A ++ chain ++ B).*1)).
  { rewrite Hents in Hnd. cbn in Hnd. apply NoDup_cons in Hnd. exact Hnd. }
  assert (Hrep' : rep {| Dictionary.mSize := Dictionary.mSize ds - 1;
                         Dictionary.mTableSize := Dictionary.mTableSize ds;
                         Dictionary.mTable := Dictionary.set_bin (Dictionary.mTable ds) h chain |}).
  { constructor; cbn [Dictionary.mSize Dictionary.mTableSize Dictionary.mTable].
    - exact Hsize.
    - rewrite set_bin_length. exact Hlen.
    - intros i ch k v Hi Hin.
      apply set_bin_lookup in Hi as [[-> ->] | [Hne Hi]]; [| | lia].
      + assert (Hin0 : (k, v) ∈ c) by (rewrite Hperm; apply list_elem_of_further, Hin).
        rewrite (Hplaced _ _ _ _ Hb Hin0). lia.
      + eapply Hplaced; eassumption.
    - unfold Dictionary.entries. cbn [Dictionary.mTable]. rewrite HB. apply Hnd'.
    - unfold Dictionary.entries at 1. cbn [Dictionary.mTable].
      rewrite HB, Hcount, Hents. cbn [length]. lia. }
  split; [exact Hrep' |]. split.
  - rewrite Get_unfold by lia. exact Hfind.
  - intros k. destruct (decide (k = key)) as [-> | Hne].
    + destruct (Dictionary.Get HASH _ key) as [v |] eqn:Hg; [| reflexivity].
      apply Get_elem in Hg; [| exact Hrep' | cbn; lia].
      unfold Dictionary.entries in Hg. cbn in Hg. rewrite HB in Hg.
      exfalso. apply (proj1 Hnd'). apply list_elem_of_fmap. exists (key, v).
      split; [reflexivity | exact Hg].
    + rewrite !Get_unfold by (cbn; lia). cbn.
      destruct (hash_mod_range (Dictionary.mTableSize ds) k ltac:(lia)) as [Hrk _].
      rewrite bin_set_bin by lia.
      destruct (decide (hash_mod (Dictionary.mTableSize ds) k = h)) as [Heq | Hneq].
      * rewrite Heq. apply Hothers, Hne.
      * reflexivity.
Qed.

(** ** SetValue, Remove and Keys *)

(** X7. A value stored under a key is the value found under that key, the
    other keys keep what they had, and [Count] grows by one exactly when the
    key was new; the representation invariant is kept, also across the
    growth of the table. *)
Theorem SetValue_then_Get (d : dict) (key : K) (value : V) :
  rep_t d -> Dictionary.small_table d ->
  rep_t (Dictionary.SetValue HASH d key value) /\
  (forall k, Dictionary.Get HASH (Dictionary.SetValue HASH d key value) k
             = if decide (k = key) then Some value else Dictionary.Get HASH d k) /\
  Dictionary.Count (Dictionary.SetValue HASH d key value)
  = Dictionary.Count d + (if Dictionary.ContainsKey HASH d key then 0 else 1).
Proof.
  intros Hrep Hsmall. unfold Dictionary.SetValue.
  assert (H0 : rep (Dictionary.ensureStorage d) /\
               Dictionary.mTableSize (Dictionary.ensureStorage d) <= 2 ^ 30 /\
               Dictionary.mSize (Dictionary.ensureStorage d) = Dictionary.Count d /\
               forall k, Dictionary.Get HASH (Some (Dictionary.ensureStorage d)) k
                         = Dictionary.Get HASH d k).
  { destruct d as [ds |]; cbn [Dictionary.ensureStorage].
    - split; [exact Hrep |]. split; [exact Hsmall |]. split; reflexivity.
    - split; [apply (rep_fresh Dictionary.TABLE_SIZE); reflexivity |].
      split; [cbn; unfold Dictionary.TABLE_SIZE; lia |]. split; [reflexivity |].
      intros k. apply Get_fresh. }
  destruct H0 as (Hrep0 & Hs0 & Hm0 & Hg0).
  destruct (grow_if_loaded_spec _ Hrep0 Hs0) as (Hrep1 & Hs1 & Hm1 & Hg1).
  destruct (store_spec _ key value Hrep1 Hs1) as (Hrep2 & Hs2 & Hg2 & Hm2).
  split; [exact Hrep2 |]. split.
  - intros k. rewrite Hg2, Hg1, Hg0. reflexivity.
  - cbn [Dictionary.Count]. rewrite Hm2, Hm1, Hm0, Hg1, Hg0, ContainsKey_Get.
    destruct (Dictionary.Get HASH d key); reflexivity.
Qed.

(** X8. [Remove] reports whether the key was present and hands out its
    value; afterwards the key is absent, the other keys keep what they had
    and [Count] has dropped by one exactly when the key was present; the
    invariant is kept, also across the shrinking of the table. *)
Theorem Remove_then_Get (d : dict) (key : K) :
  rep_t d -> Dictionary.small_table d ->
  let '(found, out, d') := Dictionary.Remove HASH d key in
  rep_t d' /\
  found = Dictionary.ContainsKey HASH d key /\
  out = Dictionary.Get HASH d key /\
  (forall k, Dictionary.Get HASH d' k
             = if decide (k = key) then None else Dictionary.Get HASH d k) /\
  Dictionary.Count d' = Dictionary.Count d - (if found then 1 else 0).
Proof.
  intros Hrep Hsmall. rewrite ContainsKey_Get.
  destruct d as [ds |]; cbn [Dictionary.Remove].
  - cbn in Hrep, Hsmall.
    destruct (Dictionary.chain_remove _ key) as [[out chain] |] eqn:Hrem.
    + destruct (unlink_spec ds key out chain Hrep ltac:(lia) Hrem) as (Hrep1 & Hg & Hg1).
      destruct (shrink_if_sparse_spec _ Hrep1 ltac:(cbn; lia)) as (Hrep2 & Hs2 & Hm2 & Hg2).
      split; [exact Hrep2 |]. rewrite Hg. split; [reflexivity |]. split; [reflexivity |].
      split.
      * intros k. rewrite Hg2. apply Hg1.
      * cbn [Dictionary.Count]. rewrite Hm2. reflexivity.
    + apply chain_remove_None in Hrem.
      assert (Hg : Dictionary.Get HASH (Some ds) key = None) by exact Hrem.
      split; [exact Hrep |]. rewrite Hg. split; [reflexivity |]. split; [reflexivity |].
      split; [| lia].
      intros k. destruct (decide (k = key)) as [-> | _]; [exact Hg | reflexivity].
  - cbn. split; [exact I |]. split; [reflexivity |]. split; [reflexivity |].
    split; [| reflexivity]. intros k. destruct (decide (k = key)); reflexivity.
Qed.

(** X9. [Keys] lists, without repetition, exactly the stored keys whose bin
    index is below the default table size: all of them while the table has
    its default size, and no key of a bin from 251 on once the table has
    grown. *)
Theorem Keys_lists_the_first_bins (d : dict) (k : K) :
  rep_t d -> Dictionary.small_table d ->
  (k ∈ Dictionary.Keys d <->
   Dictionary.ContainsKey HASH d k = true /\ hashKey d k < Dictionary.TABLE_SIZE) /\
  NoDup (Dictionary.Keys d).
Proof.
  intros Hrep Hsmall. rewrite ContainsKey_Get.
  destruct d as [ds |]; cbn [Dictionary.Keys].
  2: { split; [| constructor]. split; [intros Hin; inversion Hin | intros [Hc _]; discriminate]. }
  cbn in Hrep, Hsmall. pose proof Hrep as [Hsize Hlen Hplaced Hnd Hcount].
  unfold Dictionary.TABLE_SIZE in *.
  rewrite hashKey_hash_mod by lia.
  assert (Hsplit : Dictionary.entries ds
                   = concat (take (Z.to_nat 251) (Dictionary.mTable ds))
                     ++ concat (drop (Z.to_nat 251) (Dictionary.mTable ds))).
  { unfold Dictionary.entries. rewrite <- concat_app, take_drop. reflexivity. }
  split.
  - rewrite list_elem_of_fmap. split.
    + intros ([k0 v] & -> & Hin). cbn [fst].
      apply elem_of_concat in Hin as (chain & Hin & Hc).
      apply list_elem_of_lookup in Hc as [i Hi].
      apply lookup_take_Some in Hi as [Hi Hlt].
      rewrite (Hplaced _ _ _ _ Hi Hin). split; [| lia].
      assert (Hg : Dictionary.Get HASH (Some ds) k0 = Some v).
      { apply Get_elem; [exact Hrep | lia |]. apply elem_of_entries. eauto. }
      rewrite Hg. reflexivity.
    + intros [Hc Hlt].
      destruct (Dictionary.Get HASH (Some ds) k) as [v |] eqn:Hg; [| discriminate].
      apply Get_elem in Hg; [| exact Hrep | lia].
      apply elem_of_entries in Hg as (i & chain & Hi & Hin).
      pose proof (Hplaced _ _ _ _ Hi Hin) as Hh.
      exists (k, v). split; [reflexivity |].
      apply elem_of_concat. exists chain. split; [exact Hin |].
      apply list_elem_of_lookup. exists i. apply lookup_take_Some. split; [exact Hi | lia].
  - rewrite Hsplit, fmap_app in Hnd. apply NoDup_app in Hnd. apply Hnd.
Qed.

End DictionaryFacts.
(* ===================================================================== *)
(** * Dictionary.h: iteration *)
(* ===================================================================== *)

Section IteratorFacts.
Context {K V : Type}.

#[local] Abbreviation chain := (list (K * V)).

(** The entries of the bins from [i] on, among the first [TABLE_SIZE]. *)
#[local] Abbreviation bins_from table i :=
  (concat (drop i (take (Z.to_nat Dictionary.TABLE_SIZE) table))).

Lemma bins_from_step (table : list chain) (i : nat) :
  (i < Z.to_nat Dictionary.TABLE_SIZE)%nat ->
  bins_from table i = Dictionary.bin table (Z.of_nat i) ++ bins_from table (S i).
Proof.
  intros Hi. unfold Dictionary.bin.
  destruct (Z.ltb_spec (Z.of_nat i) 0) as [? | _]; [lia |].
  rewrite Nat2Z.id.
  destruct (table !! i) as [found |] eqn:Hl; cbn [from_option id].
  - rewrite (drop_S _ found i) by (rewrite lookup_take_lt by exact Hi; exact Hl).
    reflexivity.
  - apply lookup_ge_None in Hl.
    rewrite !drop_ge by (rewrite length_take; lia). reflexivity.
Qed.

Lemma bins_from_end (table : list chain) (i : nat) :
  (Z.to_nat Dictionary.TABLE_SIZE <= i)%nat -> bins_from table i = [].
Proof. intros Hi. rewrite drop_ge by (rewrite length_take; lia). reflexivity. Qed.

(** The constructor's loop finds the first bin that is not empty. *)
Lemma first_bin_spec (table : list chain) (fuel : nat) (i : nat) :
  (Z.to_nat Dictionary.TABLE_SIZE <= i + fuel)%nat ->
  match DictIterator.first_bin table (Z.of_nat i) fuel with
  | Some (b, found) =>
      found <> [] /\ 0 <= b /\
      bins_from table i = found ++ bins_from table (S (Z.to_nat b))
  | None => bins_from table i = []
  end.
Proof.
  revert i. induction fuel as [| fuel IH]; intros i Hfuel.
  - cbn. apply bins_from_end. lia.
  - cbn [DictIterator.first_bin].
    destruct (Z.ltb_spec (Z.of_nat i) Dictionary.TABLE_SIZE) as [Hlt | Hge].
    + rewrite (bins_from_step table i) by lia.
      destruct (Dictionary.bin table (Z.of_nat i)) as [| kv rest] eqn:Hbin.
      * replace (Z.of_nat i + 1) with (Z.of_nat (S i)) by lia.
        apply IH. lia.
      * split; [discriminate |]. split; [lia |]. rewrite Nat2Z.id. reflexivity.
    + apply bins_from_end. lia.
Qed.

(** The loop of [Next] finds the next bin that is not empty, or stops with
    nothing left. *)
Lemma advance_spec (table : list chain) (fuel : nat) (b : nat) :
  (Z.to_nat Dictionary.TABLE_SIZE <= S b + fuel)%nat ->
  let '(b', found) := DictIterator.advance table (Z.of_nat b) fuel in
  0 <= b' /\
  bins_from table (S b) = found ++ bins_from table (S (Z.to_nat b')) /\
  (found = [] -> bins_from table (S (Z.to_nat b')) = []).
Proof.
  revert b. induction fuel as [| fuel IH]; intros b Hfuel.
  - cbn. rewrite Nat2Z.id. split; [lia |].
    rewrite bins_from_end by lia. split; reflexivity.
  - cbn [DictIterator.advance].
    destruct (Z.ltb_spec (Z.of_nat b + 1) Dictionary.TABLE_SIZE) as [Hlt | Hge].
    + cbv zeta. replace (Z.of_nat b + 1) with (Z.of_nat (S b)) by lia.
      rewrite (bins_from_step table (S b)) by lia.
      destruct (Dictionary.bin table (Z.of_nat (S b))) as [| kv rest] eqn:Hbin.
      * specialize (IH (S b) ltac:(lia)).
        destruct (DictIterator.advance table (Z.of_nat (S b)) fuel) as [b' found].
        exact IH.
      * split; [lia |]. rewrite Nat2Z.id. split; [reflexivity | discriminate].
    + rewrite Nat2Z.id. split; [lia |].
      rewrite bins_from_end by lia. split; reflexivity.
Qed.

(** From an iterator attached to a bin, the loop visits the rest of the
    chain and then the bins that follow. *)
Lemma visited_spec (ds : @Dictionary.DictionaryStorage K V) (fuel : nat)
    (it : @DictIterator.t K V) :
  DictIterator.storage it = Some ds ->
  0 <= DictIterator.binIndex it ->
  (DictIterator.entry it = [] ->
   bins_from (Dictionary.mTable ds) (S (Z.to_nat (DictIterator.binIndex it))) = []) ->
  (length (DictIterator.entry it
           ++ bins_from (Dictionary.mTable ds) (S (Z.to_nat (DictIterator.binIndex it))))
   < fuel)%nat ->
  DictIterator.visited fuel it
  = DictIterator.entry it
    ++ bins_from (Dictionary.mTable ds) (S (Z.to_nat (DictIterator.binIndex it))).
Proof.
  revert it. induction fuel as [| fuel IH]; intros it Hst Hb Hdone Hfuel; [lia |].
  destruct it as [st b e]. cbn [DictIterator.storage DictIterator.binIndex DictIterator.entry] in *.
  subst st. cbn [DictIterator.visited DictIterator.entry].
  destruct e as [| current next]; [rewrite Hdone by reflexivity; reflexivity |].
  cbn [app]. f_equal. unfold DictIterator.Next.
  cbn [DictIterator.storage DictIterator.binIndex DictIterator.entry].
  cbn [app length] in Hfuel.
  destruct next as [| kv next].
  - pose proof (advance_spec (Dictionary.mTable ds) (Z.to_nat Dictionary.TABLE_SIZE)
                  (Z.to_nat b) ltac:(lia)) as Hadv.
    rewrite Z2Nat.id in Hadv by exact Hb.
    destruct (DictIterator.advance _ b _) as [b' found].
    destruct Hadv as (Hb' & Heq & Hnil). cbn [app] in *.
    rewrite Heq. rewrite Heq in Hfuel.
    apply (IH {| DictIterator.storage := Some ds; DictIterator.binIndex := b';
                 DictIterator.entry := found |}); cbn; [reflexivity | exact Hb' | exact Hnil | lia].
  - apply (IH {| DictIterator.storage := Some ds; DictIterator.binIndex := b;
                 DictIterator.entry := kv :: next |});
      cbn; [reflexivity | exact Hb | discriminate | cbn in Hfuel; lia].
Qed.

Lemma visited_nil (fuel : nat) (it : @DictIterator.t K V) :
  DictIterator.entry it = [] -> DictIterator.visited fuel it = [].
Proof. intros He. destruct fuel; cbn; [| rewrite He]; reflexivity. Qed.

Lemma length_concat_take (n : nat) (table : list chain) :
  (length (concat (take n table)) <= length (concat table))%nat.
Proof.
  rewrite <- (take_drop n table) at 2. rewrite concat_app, length_app. lia.
Qed.

(** X26. Iterating over a dictionary ([GetIterator], then [Next] until
    [Done]) ends within [Count] rounds and visits exactly the entries that
    [Keys] and [Values] list, in the same order: the entries of the first
    [TABLE_SIZE] bins, whatever the size the table has grown to. *)
Theorem iteration_visits_Keys (HASH : K -> Z) (d : @Dictionary.t K V) (fuel : nat) :
  Dictionary.rep_t HASH d -> Dictionary.Count d < Z.of_nat fuel ->
  (DictIterator.visited fuel (DictIterator.GetIterator d)).*1 = Dictionary.Keys d /\
  (DictIterator.visited fuel (DictIterator.GetIterator d)).*2 = Dictionary.Values d /\
  (length (DictIterator.visited fuel (DictIterator.GetIterator d)) < fuel)%nat.
Proof.
  intros Hrep Hfuel.
  assert (Hall : DictIterator.visited fuel (DictIterator.GetIterator d)
                 = match d with
                   | Some ds => bins_from (Dictionary.mTable ds) 0
                   | None => []
                   end /\
                 (length (DictIterator.visited fuel (DictIterator.GetIterator d)) < fuel)%nat).
  { destruct d as [ds |]; cbn [DictIterator.GetIterator DictIterator.new].
    2: { rewrite visited_nil by reflexivity. cbn in *. split; [reflexivity | lia]. }
    cbn in Hrep, Hfuel.
    assert (Hlen : (length (bins_from (Dictionary.mTable ds) 0) < fuel)%nat).
    { pose proof (length_concat_take (Z.to_nat Dictionary.TABLE_SIZE) (Dictionary.mTable ds)).
      pose proof (Dictionary.rep_count HASH ds Hrep) as Hc.
      unfold Dictionary.entries in Hc. rewrite drop_0. lia. }
    pose proof (first_bin_spec (Dictionary.mTable ds) (Z.to_nat Dictionary.TABLE_SIZE) 0
                  ltac:(lia)) as Hfirst.
    change (Z.of_nat 0) with 0 in Hfirst.
    destruct (DictIterator.first_bin _ 0 _) as [[b found] |].
    - destruct Hfirst as (Hne & Hb & Heq).
      rewrite (visited_spec ds); cbn [DictIterator.storage DictIterator.binIndex DictIterator.entry];
        [ rewrite <- Heq; split; [reflexivity | exact Hlen]
        | reflexivity | exact Hb | intros He; contradiction | rewrite <- Heq; exact Hlen ].
    - rewrite visited_nil by reflexivity. rewrite Hfirst. cbn. split; [reflexivity | lia]. }
  destruct Hall as [Hall Hshort].
  split; [| split; [| exact Hshort]]; rewrite Hall;
    destruct d as [ds |]; cbn [Dictionary.Keys Dictionary.Values]; rewrite ?drop_0;
    reflexivity.
Qed.

End IteratorFacts.
(* ===================================================================== *)
(** * ExpressionProfiler.h: complexity, priority, counters, statistics *)
(* ===================================================================== *)

(** ** analyzeComplexity *)

Lemma calculateDepth_step_bounds (acc : gmap string Z * Z) (instr : SimpleTACLine.t) (n : Z) :
  (forall v d, acc.1 !! v = Some d -> 1 <= d <= n) -> 0 <= acc.2 <= n ->
  (forall v d, (calculateDepth_step acc instr).1 !! v = Some d -> 1 <= d <= n + 1) /\
  1 <= (calculateDepth_step acc instr).2 <= n + 1.
Proof.
  destruct acc as [var_depths max_depth]. cbn [fst snd]. intros Hall Hmax.
  unfold calculateDepth_step.
  assert (Hw : forall v d, var_depths !! v = Some d -> wrap32 (d + 1) <= n + 1).
  { intros v d Hd. apply Hall in Hd. unfold wrap32.
    pose proof (Z.mod_le (d + 1) (2 ^ 32) ltac:(lia) ltac:(lia)). lia. }
  set (dA := if decide (SimpleTACLine.operandA instr = "") then 1
             else match var_depths !! SimpleTACLine.operandA instr with
                  | Some d => Z.max 1 (wrap32 (d + 1))
                  | None => 1
                  end).
  assert (HA : 1 <= dA <= n + 1).
  { subst dA. destruct (decide (SimpleTACLine.operandA instr = "")); [lia |].
    destruct (var_depths !! SimpleTACLine.operandA instr) as [d |] eqn:Hd; [| lia].
    pose proof (Hw _ _ Hd). lia. }
  set (dB := if decide (SimpleTACLine.operandB instr = "") then dA
             else match var_depths !! SimpleTACLine.operandB instr with
                  | Some d => Z.max dA (wrap32 (d + 1))
                  | None => dA
                  end).
  assert (HB : 1 <= dB <= n + 1).
  { subst dB. destruct (decide (SimpleTACLine.operandB instr = "")); [lia |].
    destruct (var_depths !! SimpleTACLine.operandB instr) as [d |] eqn:Hd; [| lia].
    pose proof (Hw _ _ Hd). lia. }
  cbn [fst snd]. split; [| lia].
  intros v d Hl. apply lookup_insert_Some in Hl as [[_ <-] | [_ Hl]]; [lia |].
  apply Hall in Hl. lia.
Qed.

Lemma calculateDepth_fold_bounds (instrs : list SimpleTACLine.t) :
  let acc := fold_left calculateDepth_step instrs (∅, 0) in
  (forall v d, acc.1 !! v = Some d -> 1 <= d <= Z.of_nat (length instrs)) /\
  (instrs <> [] -> 1 <= acc.2) /\ 0 <= acc.2 <= Z.of_nat (length instrs).
Proof.
  induction instrs as [| instr instrs IH] using rev_ind; cbn zeta.
  - cbn. split; [intros v d Hl; rewrite lookup_empty in Hl; discriminate |].
    split; [congruence | lia].
  - rewrite fold_left_app. cbn [fold_left]. cbn zeta in IH.
    destruct IH as (Hall & _ & Hmax).
    destruct (calculateDepth_step_bounds _ instr _ Hall Hmax) as [Hall' Hmax'].
    rewrite length_app, Nat2Z.inj_add. cbn [length].
    split; [exact Hall' |]. split; [intros _; lia | lia].
Qed.

(** X10. The complexity recorded for an expression: its depth is 0 for the
    empty sequence and lies between 1 and the number of instructions
    otherwise; below 2^32 instructions the operation count is that number;
    the complex flag is set exactly when some instruction is a [POW]. *)
Theorem analyzeComplexity_bounds (instrs : list SimpleTACLine.t) :
  let '(operation_count, depth, has_complex_ops) := analyzeComplexity instrs in
  (instrs = [] -> depth = 0) /\
  (instrs <> [] -> 1 <= depth) /\
  depth <= Z.of_nat (length instrs) /\
  (Z.of_nat (length instrs) < 2 ^ 32 ->
   operation_count = Z.of_nat (length instrs) /\ depth <= operation_count) /\
  (has_complex_ops = true <->
   exists instr, instr ∈ instrs /\ SimpleTACLine.operation instr = SimpleTACLine.POW).
Proof.
  unfold analyzeComplexity, calculateDepth.
  destruct (calculateDepth_fold_bounds instrs) as (_ & Hpos & Hmax). cbn zeta in Hpos, Hmax.
  split; [intros ->; reflexivity |]. split; [exact Hpos |]. split; [lia |]. split.
  - intros Hlen. rewrite wrap32_small by lia. split; [reflexivity | lia].
  - rewrite existsb_exists. split.
    + intros (instr & Hin & Hop). exists instr. apply list_elem_of_In in Hin.
      apply bool_decide_eq_true in Hop. split; assumption.
    + intros (instr & Hin & Hop). exists instr. split; [apply list_elem_of_In, Hin |].
      apply bool_decide_eq_true. exact Hop.
Qed.

(** ** getPriority *)

Lemma gtb_weaken (ma mc : positive) (ea ec : Z) (x : double) :
  ec < ea \/ (ec = ea /\ Zpos mc < Zpos ma) ->
  Double.gtb x (S754_finite false ma ea) = true ->
  Double.gtb x (S754_finite false mc ec) = true.
Proof.
  intros Hlt. unfold Double.gtb.
  destruct x as [s | s | | s m e]; try (destruct s); try discriminate; try reflexivity.
  change (SFltb ?a ?b) with (Double.ltb a b). rewrite !ltb_finite. lia.
Qed.

Lemma gtb_1000_500 (x : double) :
  Double.gtb x (Double.lit 1000.0) = true -> Double.gtb x (Double.lit 500.0) = true.
Proof. apply gtb_weaken. vm_compute. left. reflexivity. Qed.

Lemma gtb_500_100 (x : double) :
  Double.gtb x (Double.lit 500.0) = true -> Double.gtb x (Double.lit 100.0) = true.
Proof. apply gtb_weaken. vm_compute. left. reflexivity. Qed.

Lemma gtb_100000_50000 (x : double) :
  Double.gtb x (Double.lit 100000.0) = true -> Double.gtb x (Double.lit 50000.0) = true.
Proof. apply gtb_weaken. vm_compute. left. reflexivity. Qed.

Lemma gtb_50000_10000 (x : double) :
  Double.gtb x (Double.lit 50000.0) = true -> Double.gtb x (Double.lit 10000.0) = true.
Proof. apply gtb_weaken. vm_compute. left. reflexivity. Qed.

(** The score as a function of the outcomes of the tests. *)
Lemma priority_score_cases (profile : ExpressionProfile) (now : Z) :
  let freq := getExecutionFrequency profile now in
  let avg_time := getAverageExecutionTime profile in
  let count := execution_count profile in
  (priority_of_score (priority_score profile now) = VERY_HIGH ->
   Double.gtb freq (Double.lit 100.0) = true /\
   Double.gtb avg_time (Double.lit 10000.0) = true /\ 1000 < count) /\
  (Double.gtb freq (Double.lit 1000.0) = true ->
   Double.gtb avg_time (Double.lit 100000.0) = true -> 10000 < count ->
   priority_of_score (priority_score profile now) = VERY_HIGH).
Proof.
  cbv zeta. unfold priority_score.
  pose proof (gtb_1000_500 (getExecutionFrequency profile now)) as F1.
  pose proof (gtb_500_100 (getExecutionFrequency profile now)) as F2.
  pose proof (gtb_100000_50000 (getAverageExecutionTime profile)) as A1.
  pose proof (gtb_50000_10000 (getAverageExecutionTime profile)) as A2.
  destruct (Double.gtb (getExecutionFrequency profile now) (Double.lit 1000.0));
  destruct (Double.gtb (getExecutionFrequency profile now) (Double.lit 500.0));
  destruct (Double.gtb (getExecutionFrequency profile now) (Double.lit 100.0));
  try (specialize (F1 eq_refl); discriminate);
  try (specialize (F2 eq_refl); discriminate);
  clear F1 F2;
  destruct (Double.gtb (getAverageExecutionTime profile) (Double.lit 100000.0));
  destruct (Double.gtb (getAverageExecutionTime profile) (Double.lit 50000.0));
  destruct (Double.gtb (getAverageExecutionTime profile) (Double.lit 10000.0));
  try (specialize (A1 eq_refl); discriminate);
  try (specialize (A2 eq_refl); discriminate);
  clear A1 A2;
  destruct (Z.ltb_spec 10000 (execution_count profile));
  destruct (Z.ltb_spec 5000 (execution_count profile));
  destruct (Z.ltb_spec 1000 (execution_count profile));
  try lia;
  destruct ((3 <=? operation_count profile) && (operation_count profile <=? 20));
  destruct (has_complex_ops profile);
  match goal with
  | |- context [priority_of_score ?s] =>
      let v := eval vm_compute in (priority_of_score s) in
      change (priority_of_score s) with v
  end;
  (split;
   [intros Hp; first [discriminate Hp | split; [reflexivity | split; [reflexivity | lia]]]
   | intros Hf Ha Hc; first [discriminate | lia | reflexivity]]).
Qed.

Section ProfilerMore.
Context `{Platform}.

(** X11. [getPriority]: an expression without a profile has priority
    [VERY_LOW]; a profile reaches [VERY_HIGH] only when all three measures
    contribute (frequency above 100 per second, average time above 10 μs,
    more than 1000 executions), and always when all three are at their top
    level (above 1000 per second, above 100 μs, more than 10000 executions);
    the call changes no profile. *)
Theorem getPriority_extremes (w : World) (expr : SimpleExpression) (now : Z) :
  match profiles (profiler w) !! fst (fingerprint (statics w) (instructions expr)) with
  | None => fst (getPriority w expr now) = VERY_LOW
  | Some profile =>
      let freq := getExecutionFrequency profile now in
      let avg_time := getAverageExecutionTime profile in
      let count := execution_count profile in
      (fst (getPriority w expr now) = VERY_HIGH ->
       Double.gtb freq (Double.lit 100.0) = true /\
       Double.gtb avg_time (Double.lit 10000.0) = true /\ 1000 < count) /\
      (Double.gtb freq (Double.lit 1000.0) = true ->
       Double.gtb avg_time (Double.lit 100000.0) = true -> 10000 < count ->
       fst (getPriority w expr now) = VERY_HIGH)
  end /\
  profiler (snd (getPriority w expr now)) = profiler w.
Proof.
  unfold getPriority. destruct (fingerprint _ _) as [key st]. cbn [fst].
  destruct (profiles (profiler w) !! key) as [profile |].
  - cbn [fst snd profiler]. split; [apply priority_score_cases | reflexivity].
  - cbn. split; reflexivity.
Qed.


(** ** The counters *)

Lemma analysed_le_size (m : gmap Z ExpressionProfile) : (analysed m <= size m)%nat.
Proof. unfold analysed. apply map_subseteq_size, map_filter_subseteq. Qed.

Lemma analysed_insert (m : gmap Z ExpressionProfile) (k : Z) (p : ExpressionProfile) :
  (analysed (<[k := p]> m)
   + match m !! k with
     | Some q => if decide (status q = NOT_ANALYZED) then 0 else 1
     | None => 0
     end
   = analysed m + if decide (status p = NOT_ANALYZED) then 0 else 1)%nat.
Proof.
  unfold analysed.
  set (P := fun kv : Z * ExpressionProfile => status kv.2 <> NOT_ANALYZED).
  assert (Hold : match m !! k with
                 | Some q => if decide (status q = NOT_ANALYZED)
                             then filter P m !! k = None
                             else filter P m !! k = Some q
                 | None => filter P m !! k = None
                 end).
  { destruct (m !! k) as [q |] eqn:Hq.
    - destruct (decide (status q = NOT_ANALYZED)) as [Hs | Hs].
      + apply map_lookup_filter_None. right. intros x Hx HP. apply HP. cbn. congruence.
      + apply map_lookup_filter_Some. split; [exact Hq | exact Hs].
    - apply map_lookup_filter_None. left. exact Hq. }
  destruct (decide (status p = NOT_ANALYZED)) as [Hp | Hp].
  - rewrite map_filter_insert_False by (intros HP; apply HP; exact Hp).
    rewrite map_filter_delete, map_size_delete.
    destruct (m !! k) as [q |]; [destruct (decide (status q = NOT_ANALYZED)) |];
      rewrite Hold; cbn; try lia.
    pose proof (map_size_ne_0_lookup_2 (filter P m) k ltac:(rewrite Hold; eauto)). lia.
  - rewrite map_filter_insert_True by exact Hp.
    rewrite map_size_insert.
    destruct (m !! k) as [q |]; [destruct (decide (status q = NOT_ANALYZED)) |];
      rewrite Hold; cbn; lia.
Qed.

Lemma wrap64_succ (a : Z) : wrap64 (wrap64 a + 1) = wrap64 (a + 1).
Proof. unfold wrap64. apply Z.add_mod_idemp_l. lia. Qed.

Lemma wrap64_succ_bounds (a : Z) : 0 <= a -> 0 <= wrap64 (a + 1) <= a + 1.
Proof.
  intros Ha. unfold wrap64.
  pose proof (Z.mod_pos_bound (a + 1) (2 ^ 64) ltac:(lia)).
  pose proof (Z.mod_le (a + 1) (2 ^ 64) ltac:(lia) ltac:(lia)). lia.
Qed.

(** What the candidacy analysis may do to the status and to the counter. *)
Lemma analysis_outcome (th : CompilationThresholds) (jc : Z) (profile : ExpressionProfile)
    (now : Z) (s : CompilationStatus) (jc' : Z) :
  (if decide (status profile = NOT_ANALYZED)
   then analyzeForCompilation th jc profile now
   else (status profile, jc)) = (s, jc') ->
  (jc' = jc /\ (status profile <> NOT_ANALYZED -> s <> NOT_ANALYZED)) \/
  (jc' = wrap64 (jc + 1) /\ status profile = NOT_ANALYZED /\ s <> NOT_ANALYZED).
Proof.
  destruct (decide (status profile = NOT_ANALYZED)) as [Hna | Hna].
  - unfold analyzeForCompilation.
    destruct (_ <? _); [intros [= <- <-]; left; split; [reflexivity | congruence] |].
    destruct (Double.ltb _ _); [intros [= <- <-]; left; split; [reflexivity | congruence] |].
    destruct (Double.ltb _ _); [intros [= <- <-]; left; split; [reflexivity | congruence] |].
    destruct (_ <? _); [intros [= <- <-]; left; split; [reflexivity | congruence] |].
    intros [= <- <-]. right. split; [reflexivity |]. split; [exact Hna | discriminate].
  - intros [= <- <-]. left. split; [reflexivity | intros _; exact Hna].
Qed.

Lemma counters_ok_init : counters_ok new_profiler.
Proof.
  unfold counters_ok, analysed. cbn.
  rewrite map_filter_empty, map_size_empty. cbn. split; [reflexivity |]. split; lia.
Qed.

Lemma apply_op_counters (w : World) (op : ProfilerOp) :
  counters_ok (profiler w) -> counters_ok (profiler (apply_op w op)).
Proof.
  intros (Htotal & Hjc & _).
  pose proof (wrap64_succ_bounds (jit_candidates (profiler w)) ltac:(lia)) as Hw.
  destruct op as [expr t now now' | expr | expr success t | expr t | order];
    cbn [apply_op].
  - unfold recordExecution. destruct (fingerprint _ _) as [key st].
    unfold getOrCreateProfile.
    destruct (profiles (profiler w) !! key) as [q |] eqn:Hq.
    + destruct (if decide _ then _ else _) as [s jc'] eqn:Hout.
      apply analysis_outcome in Hout. cbn [status record_run jit_candidates] in Hout.
      unfold counters_ok. cbn [profiler profiles total_profiles jit_candidates].
      split; [| split; [| apply analysed_le_size]].
      * rewrite map_size_insert_Some by (rewrite Hq; eauto). exact Htotal.
      * pose proof (analysed_insert (profiles (profiler w)) key
                      (set_status (record_run q t now) s)) as Hins.
        rewrite Hq in Hins. cbn [status set_status] in Hins.
        destruct (decide (status q = NOT_ANALYZED)), (decide (s = NOT_ANALYZED));
          destruct Hout as [[-> Hs] | (-> & Hq0 & Hs)]; try tauto; try lia.
    + destruct (analyzeComplexity _) as [[oc d] cx].
      destruct (if decide _ then _ else _) as [s jc'] eqn:Hout.
      apply analysis_outcome in Hout. cbn [status record_run jit_candidates] in Hout.
      unfold counters_ok. cbn [profiler profiles total_profiles jit_candidates].
      rewrite insert_insert_eq.
      split; [| split; [| apply analysed_le_size]].
      * rewrite map_size_insert_None by exact Hq.
        rewrite Htotal, wrap64_succ. f_equal. lia.
      * match goal with
        | |- context [analysed (<[key := ?p]> _)] =>
            pose proof (analysed_insert (profiles (profiler w)) key p) as Hins
        end.
        rewrite Hq in Hins. cbn [status set_status] in Hins.
        destruct (decide (s = NOT_ANALYZED));
          destruct Hout as [[-> Hs] | (-> & Hq0 & Hs)]; try tauto; try lia.
  - unfold shouldCompile. destruct (fingerprint _ _) as [key st].
    destruct (profiles (profiler w) !! key); cbn [snd profiler];
      (split; [exact Htotal |]; split; [exact Hjc | apply analysed_le_size]).
  - unfold recordCompilation. destruct (fingerprint _ _) as [key st].
    destruct (profiles (profiler w) !! key) as [q |] eqn:Hq;
      [| cbn [profiler]; split; [exact Htotal |]; split; [exact Hjc | apply analysed_le_size]].
    destruct success; unfold counters_ok;
      cbn [profiler profiles total_profiles jit_candidates];
      (split; [| split; [| apply analysed_le_size]]);
      [rewrite map_size_insert_Some by (rewrite Hq; eauto); exact Htotal | |
       rewrite map_size_insert_Some by (rewrite Hq; eauto); exact Htotal |];
      match goal with
      | |- context [analysed (<[key := ?p]> _)] =>
          pose proof (analysed_insert (profiles (profiler w)) key p) as Hins
      end;
      rewrite Hq in Hins; cbn [status set_status] in Hins;
      destruct (decide (status q = NOT_ANALYZED));
      rewrite decide_False in Hins by discriminate; lia.
  - unfold recordJITExecution. destruct (fingerprint _ _) as [key st].
    destruct (profiles (profiler w) !! key) as [q |] eqn:Hq;
      [| cbn [profiler]; split; [exact Htotal |]; split; [exact Hjc | apply analysed_le_size]].
    unfold counters_ok.
    cbn [profiler with_profiles profiles total_profiles jit_candidates].
    split; [| split; [| apply analysed_le_size]].
    + rewrite map_size_insert_Some by (rewrite Hq; eauto). exact Htotal.
    + pose proof (analysed_insert (profiles (profiler w)) key (record_jit_run q t)) as Hins.
      rewrite Hq in Hins. cbn [status record_jit_run] in Hins.
      destruct (decide (status q = NOT_ANALYZED)); lia.
  - unfold updateThresholds. cbn [profiler].
    destruct (_ =? 0); [split; [exact Htotal |]; split; [exact Hjc | apply analysed_le_size] |].
    destruct (fold_left _ _ _).
    unfold counters_ok. cbn [with_thresholds profiles total_profiles jit_candidates].
    split; [exact Htotal |]. split; [exact Hjc | apply analysed_le_size].
Qed.

Lemma run_ops_counters (ops : list ProfilerOp) : forall w,
  counters_ok (profiler w) -> counters_ok (profiler (run_ops w ops)).
Proof.
  induction ops as [| op ops IH]; intros w Hw; [exact Hw |].
  cbn [run_ops fold_left]. apply IH, apply_op_counters, Hw.
Qed.

(** X12. The counters of a profiler, after any series of operations on a new
    profiler: [total_profiles] is the number of stored profiles (modulo 2^64)
    and [jit_candidates] never exceeds the number of profiles that have left
    [NOT_ANALYZED], hence never the number of profiles. *)
Theorem profiler_counters (ops : list ProfilerOp) :
  counters_ok (profiler (run_ops world_init ops)).
Proof. apply run_ops_counters. exact counters_ok_init. Qed.

(** ** The statistics of a run *)

(** X13. [recordExecution] adds one execution and its time to the profile of
    the expression (created on first sight), stamps it with the clock
    reading, leaves its JIT statistics as they were, and leaves every other
    profile untouched. *)
Theorem recordExecution_adds_one_run (w : World) (expr : SimpleExpression)
    (execution_time_ns now now' : Z) :
  let fp := fst (fingerprint (statics w) (instructions expr)) in
  let before := profile_before w expr in
  let after := profiles (profiler (recordExecution w expr execution_time_ns now now')) in
  (exists p, after !! fp = Some p /\
     execution_count p = wrap64 (execution_count before + 1) /\
     total_execution_time_ns p
     = wrap64 (total_execution_time_ns before + execution_time_ns) /\
     last_execution_time p = wrap64 now /\
     jit_execution_count p = jit_execution_count before /\
     jit_total_time_ns p = jit_total_time_ns before /\
     compilation_time_ns p = compilation_time_ns before) /\
  (forall fp', fp' <> fp -> after !! fp' = profiles (profiler w) !! fp').
Proof.
  cbv zeta. unfold profile_before, recordExecution.
  destruct (fingerprint _ _) as [key st]. cbn [fst].
  unfold getOrCreateProfile.
  destruct (profiles (profiler w) !! key) as [q |] eqn:Hq.
  - destruct (if decide _ then _ else _) as [s jc']. cbn [profiler profiles fst].
    split.
    + eexists. rewrite lookup_insert_eq. split; [reflexivity |]. cbn. repeat split.
    + intros fp' Hne. rewrite lookup_insert_ne by congruence. reflexivity.
  - destruct (analyzeComplexity _) as [[oc d] cx].
    destruct (if decide _ then _ else _) as [s jc']. cbn [profiler profiles fst].
    split.
    + eexists. rewrite lookup_insert_eq. split; [reflexivity |]. cbn. repeat split.
    + intros fp' Hne. rewrite !lookup_insert_ne by congruence. reflexivity.
Qed.

End ProfilerMore.
(* ===================================================================== *)
(** * The two JITMachines: what a constructed machine ever runs *)
(* ===================================================================== *)

Section DerivedMachine.
Context `{Platform} `{Host} `{CodeGenerator}.
Import RuntimeJITMachine.

(** The host's [Context::Done()]. *)
Variable Done : Context -> bool.

Lemma shouldCompileContext_no_counts (o : RuntimeJITObject) (ctx : Z) (context : Context) :
  contextExecutionCounts_ o = ∅ -> shouldCompileContext o ctx context = false.
Proof.
  intros Hc. unfold shouldCompileContext. rewrite Hc, lookup_empty.
  destruct (_ || _); reflexivity.
Qed.

Lemma call_only_interprets (m : t) (c : Call) (n : Z) :
  contextExecutionCounts_ (runtimeJIT_ m) = ∅ ->
  compiledRegions_ (core (runtimeJIT_ m)) = ∅ ->
  totalInstructions (stats_ (core (runtimeJIT_ m))) = wrap64 n ->
  jitExecutions (stats_ (core (runtimeJIT_ m))) = 0 ->
  interpreterExecutions (stats_ (core (runtimeJIT_ m))) = 0 ->
  (call Done m c).2 = interpreted Done [c] /\
  contextExecutionCounts_ (runtimeJIT_ (call Done m c).1) = ∅ /\
  compiledRegions_ (core (runtimeJIT_ (call Done m c).1)) = ∅ /\
  totalInstructions (stats_ (core (runtimeJIT_ (call Done m c).1)))
  = wrap64 (n + steps Done [c]) /\
  jitExecutions (stats_ (core (runtimeJIT_ (call Done m c).1))) = 0 /\
  interpreterExecutions (stats_ (core (runtimeJIT_ (call Done m c).1))) = 0.
Proof.
  intros Hcounts Hregions Htotal Hjit Hint.
  destruct c as [stack order elapsed | enabled | config]; cbn [call].
  - unfold Step, steps, interpreted, line_to_run. cbn [omap list_omap].
    destruct (skip_done Done stack) as [[| [ctx context] below] [|]];
      cbn [length fst snd]; rewrite ?Z.add_0_r;
      try (repeat split; first [reflexivity | assumption]).
    assert (Hno : shouldAttemptJIT (updateInstructionStats m (lineNum context)) ctx context
                    (lineNum context) = false).
    { unfold shouldAttemptJIT. destruct (_ !! _); [| reflexivity].
      destruct (50 <=? _); [| reflexivity].
      apply shouldCompileContext_no_counts. exact Hcounts. }
    rewrite Hno, andb_false_r. cbn.
    split; [reflexivity |]. split; [exact Hcounts |]. split; [exact Hregions |].
    split; [rewrite Htotal; apply wrap64_succ |]. split; assumption.
  - cbn. rewrite Z.add_0_r. repeat split; assumption.
  - cbn. rewrite Z.add_0_r. repeat split; assumption.
Qed.

Lemma interpreted_app (cs cs' : list Call) :
  interpreted Done (cs ++ cs') = interpreted Done cs ++ interpreted Done cs'.
Proof. unfold interpreted. apply omap_app. Qed.

Lemma calls_snoc (m : t) (cs : list Call) (c : Call) :
  calls Done m (cs ++ [c])
  = ((call Done (calls Done m cs).1 c).1,
     (calls Done m cs).2 ++ (call Done (calls Done m cs).1 c).2).
Proof.
  unfold calls. rewrite fold_left_app. cbn [fold_left].
  destruct (fold_left _ cs (m, [])) as [m1 evs1]. cbn [fst snd].
  destruct (call Done m1 c) as [m2 evs2]. reflexivity.
Qed.

(** X14. The JITMachine of RuntimeJIT.cpp never dispatches to compiled code:
    nothing ever fills [contextExecutionCounts_], so [shouldCompileContext]
    answers false. Whatever [Context::Done] is, of a machine as constructed,
    and whatever the configuration calls in between: a [Step] that finds a
    context to run (the stack is not empty and the program has not finished)
    runs exactly one line of it in the interpreter, and a [Step] on an empty
    stack or a finished program returns without running or counting
    anything. The cache stays empty, [totalInstructions] counts the steps
    that ran a line, and both execution counters stay 0. *)
Theorem derived_machine_only_interprets (gen : GenState) (cs : list Call) :
  (calls Done (constructed gen) cs).2 = interpreted Done cs /\
  let o := runtimeJIT_ (calls Done (constructed gen) cs).1 in
  contextExecutionCounts_ o = ∅ /\
  compiledRegions_ (core o) = ∅ /\
  totalInstructions (stats_ (core o)) = wrap64 (steps Done cs) /\
  jitExecutions (stats_ (core o)) = 0 /\
  interpreterExecutions (stats_ (core o)) = 0.
Proof.
  cbv zeta. induction cs as [| c cs IH] using rev_ind.
  - cbn. repeat split; reflexivity.
  - destruct IH as (Hevs & Hcounts & Hregions & Htotal & Hjit & Hint).
    rewrite calls_snoc. cbn [fst snd].
    destruct (call_only_interprets _ c _ Hcounts Hregions Htotal Hjit Hint)
      as (Hevs' & Hcounts' & Hregions' & Htotal' & Hjit' & Hint').
    split; [rewrite Hevs, Hevs', interpreted_app; reflexivity |].
    split; [exact Hcounts' |]. split; [exact Hregions' |].
    split; [| split; assumption].
    rewrite Htotal'. f_equal. unfold steps. rewrite interpreted_app, length_app. lia.
Qed.

End DerivedMachine.

Section ComposedMachine.
Import JITMachine JITMachineCalls.

Lemma host_steps_app (cs cs' : list Call) :
  host_steps (cs ++ cs') = host_steps cs ++ host_steps cs'.
Proof. unfold host_steps. apply omap_app. Qed.

Lemma composed_calls_snoc (jm : JITMachine.t) (cs : list Call) (c : Call) :
  calls jm (cs ++ [c])
  = ((call (calls jm cs).1 c).1, (calls jm cs).2 ++ (call (calls jm cs).1 c).2).
Proof.
  unfold calls. rewrite fold_left_app. cbn [fold_left].
  destruct (fold_left _ cs (jm, [])) as [m1 evs1]. cbn [fst snd].
  destruct (call m1 c) as [m2 evs2]. reflexivity.
Qed.

(** X15. The JITMachine of JITMachine.cpp as constructed: the constructor
    leaves [jit_] empty and no method sets it, so every [Step] is exactly one
    step of the wrapped machine; nothing is profiled and no compilation is
    attempted, whatever calls of [SetJITEnabled], [ClearJITCache] and
    [CompileContextRange] come in between. *)
Theorem composed_machine_only_steps (cs : list Call) :
  (calls constructed cs).2 = host_steps cs /\
  jit_ (calls constructed cs).1 = false /\
  profile_ (calls constructed cs).1 = profile_ constructed.
Proof.
  induction cs as [| c cs IH] using rev_ind.
  - cbn. repeat split; reflexivity.
  - destruct IH as (Hevs & Hjit & Hprofile).
    rewrite composed_calls_snoc. cbn [fst snd].
    rewrite host_steps_app, Hevs.
    destruct c as [ctx done context context' now | enabled | | ctx s e]; cbn [call].
    + unfold Step. rewrite Hjit, andb_false_r.
      destruct (_ || _); cbn; repeat split; assumption.
    + cbn. rewrite app_nil_r. repeat split; assumption.
    + unfold ClearJITCache. rewrite Hjit. cbn. rewrite app_nil_r. repeat split; assumption.
    + cbn. rewrite app_nil_r. repeat split; assumption.
Qed.








Lemma dispatched_snoc (ctx : Z) (ds : list (Z * Context * Context * Z))
    (d : Z * Context * Context * Z) :
  dispatched ctx (ds ++ [d]) = dispatched ctx ds + (if decide (d.1.1.1 = ctx) then 1 else 0).
Proof.
  unfold dispatched. rewrite List.filter_app, length_app. cbn [List.filter].
  destruct (decide (d.1.1.1 = ctx)) as [Heq | Hne].
  - rewrite bool_decide_eq_true_2 by exact Heq. cbn [length]. lia.
  - rewrite bool_decide_eq_false_2 by exact Hne. cbn [length]. lia.
Qed.

Lemma dispatched_nonneg (ctx : Z) (ds : list (Z * Context * Context * Z)) :
  0 <= dispatched ctx ds.
Proof. unfold dispatched. lia. Qed.

Lemma dispatch_all_counts (jm : JITMachine.t) (ds : list (Z * Context * Context * Z)) :
  contextExecutionCounts (profile_ jm) = ∅ ->
  jit_ (dispatch_all jm ds) = jit_ jm /\
  jitEnabled_ (dispatch_all jm ds) = jitEnabled_ jm /\
  forall ctx,
    contextExecutionCounts (profile_ (dispatch_all jm ds)) !! ctx
    = if dispatched ctx ds =? 0 then None else Some (wrap64 (dispatched ctx ds)).
Proof.
  intros Hempty. induction ds as [| d ds IH] using rev_ind.
  - cbn. split; [reflexivity |]. split; [reflexivity |].
    intros ctx. rewrite Hempty. apply lookup_empty.
  - destruct IH as (Hjit & Hen & Hcounts).
    unfold dispatch_all in *. rewrite fold_left_app. cbn [fold_left].
    destruct d as [[[c context] context'] now]. cbn [fst snd].
    set (jm1 := fold_left _ ds jm) in *.
    assert (Hexec : (ExecuteWithJITOrFallback jm1 c context context' now).1
                    = UpdateExecutionProfile jm1 c (lineNum context) now).
    { unfold ExecuteWithJITOrFallback. cbn [negb].
      destruct (ShouldConsiderJIT _ c); [destruct (HasHotPaths c context') |]; reflexivity. }
    rewrite Hexec. unfold UpdateExecutionProfile.
    cbn [jit_ jitEnabled_ profile_ contextExecutionCounts].
    split; [exact Hjit |]. split; [exact Hen |].
    intros ctx. rewrite dispatched_snoc. cbn [fst].
    pose proof (dispatched_nonneg ctx ds) as Hnn.
    destruct (decide (c = ctx)) as [-> | Hne].
    + rewrite lookup_insert_eq. unfold counter. rewrite Hcounts.
      destruct (Z.eqb_spec (dispatched ctx ds + 1) 0); [lia |].
      destruct (Z.eqb_spec (dispatched ctx ds) 0) as [-> | _]; cbn [from_option id].
      * reflexivity.
      * rewrite wrap64_succ. reflexivity.
    + rewrite lookup_insert_ne by exact Hne. rewrite Hcounts, Z.add_0_r. reflexivity.
Qed.

(** X16. The count that [ShouldConsiderJIT] reads is the number of dispatches
    in that context: starting from an empty profile (as constructed, or after
    [ClearJITCache]), after any series of dispatches in any contexts a
    context is considered for compilation exactly when [jit_] is set and
    enabled and more than 50 of the dispatches ran in it. *)
Theorem considered_after_fifty_dispatches (jm : JITMachine.t)
    (ds : list (Z * Context * Context * Z)) (ctx : Z) :
  contextExecutionCounts (profile_ jm) = ∅ ->
  counter (contextExecutionCounts (profile_ (dispatch_all jm ds))) ctx
  = wrap64 (dispatched ctx ds) /\
  (ShouldConsiderJIT (dispatch_all jm ds) ctx = true <->
   jit_ jm = true /\ jitEnabled_ jm = true /\ 50 < wrap64 (dispatched ctx ds)).
Proof.
  intros Hempty.
  destruct (dispatch_all_counts jm ds Hempty) as (Hjit & Hen & Hcounts).
  unfold counter, ShouldConsiderJIT. rewrite Hjit, Hen, Hcounts.
  destruct (Z.eqb_spec (dispatched ctx ds) 0) as [-> | Hne]; cbn [from_option id].
  - split; [reflexivity |].
    destruct (jit_ jm), (jitEnabled_ jm); cbn; split;
      try discriminate; intros (? & ? & Hlt); discriminate.
  - split; [reflexivity |].
    destruct (jit_ jm), (jitEnabled_ jm); cbn [negb orb];
      rewrite ?Z.ltb_lt; split; try discriminate;
      try (intros (? & ? & _); discriminate); [tauto | intros (_ & _ & Hlt); exact Hlt].
Qed.

End ComposedMachine.
(* ===================================================================== *)
(** * MiniScriptJIT.cpp: what generateLLVMIR accepts and what it builds *)
(* ===================================================================== *)

Section Generate.
Import MiniScriptJIT.

(** The keys bound by the loop over the arguments. *)
Lemma bind_arguments_fold (names : list string) : forall (g : nat -> nat)
    (valueMap : gmap string LLVM.Value) (x : string) (v : LLVM.Value),
  fold_left (fun valueMap '(i, varName) => <[varName := LLVM.Argument i]> valueMap)
            (imap (fun i name => (g i, name)) names) valueMap !! x = Some v ->
  (exists i, names !! i = Some x /\ v = LLVM.Argument (g i)) \/
  ((x ∉ names) /\ valueMap !! x = Some v).
Proof.
  induction names as [| name names IH]; intros g valueMap x v; cbn.
  - intros Hl. right. split; [apply not_elem_of_nil | exact Hl].
  - intros Hl. apply (IH (g ∘ S)) in Hl as [(i & Hi & ->) | [Hnotin Hl]].
    + left. exists (S i). split; [exact Hi | reflexivity].
    + apply lookup_insert_Some in Hl as [[<- <-] | [Hne Hl]].
      * left. exists 0%nat. split; reflexivity.
      * right. split; [| exact Hl]. apply not_elem_of_cons. split; [congruence | exact Hnotin].
Qed.

Lemma bind_arguments_dom_fold (names : list string) : forall (g : nat -> nat)
    (valueMap : gmap string LLVM.Value) (x : string),
  is_Some (fold_left (fun valueMap '(i, varName) => <[varName := LLVM.Argument i]> valueMap)
                     (imap (fun i name => (g i, name)) names) valueMap !! x) <->
  x ∈ names \/ is_Some (valueMap !! x).
Proof.
  induction names as [| name names IH]; intros g valueMap x; cbn.
  - rewrite elem_of_nil. tauto.
  - rewrite (IH (g ∘ S)), elem_of_cons, lookup_insert_is_Some.
    destruct (decide (name = x)) as [-> | Hne]; [tauto |].
    split; [intros [? | [? | [_ ?]]]; tauto | intros [[? | ?] | ?]; [congruence | tauto | tauto]].
Qed.

Lemma bind_arguments_spec (names : list string) (x : string) (v : LLVM.Value) :
  bind_arguments names !! x = Some v ->
  exists i, names !! i = Some x /\ v = LLVM.Argument i.
Proof.
  unfold bind_arguments. intros Hl.
  apply (bind_arguments_fold names (fun i => i)) in Hl as [Hl | [_ Hl]]; [exact Hl |].
  rewrite lookup_empty in Hl. discriminate.
Qed.

Lemma bind_arguments_dom (names : list string) (x : string) :
  is_Some (bind_arguments names !! x) <-> x ∈ names.
Proof.
  unfold bind_arguments. rewrite (bind_arguments_dom_fold names (fun i => i)).
  rewrite lookup_empty. split; [intros [? | [? ?]]; [assumption | discriminate] | tauto].
Qed.

(** One instruction succeeds exactly when it is supported and reads bound
    names; it then binds its result. *)
Lemma generate_instruction_inr (valueMap valueMap' : gmap string LLVM.Value)
    (instr : SimpleTACLine.t) :
  generate_instruction valueMap instr = inr valueMap' ->
  SimpleTACLine.operation instr <> SimpleTACLine.ASSIGN /\
  (forall name, name ∈ reads instr -> is_Some (valueMap !! name)) /\
  exists v, valueMap' = <[SimpleTACLine.result instr := v]> valueMap.
Proof.
  unfold generate_instruction, reads, binary.
  destruct (SimpleTACLine.operation instr);
    repeat match goal with
           | |- context [valueMap !! ?k] => destruct (valueMap !! k) eqn:?
           end;
    try discriminate; intros [= <-];
    (split; [discriminate |]); (split; [| eexists; reflexivity]);
    intros name Hin;
    repeat (apply elem_of_cons in Hin as [-> | Hin]; [eauto |]);
    inversion Hin.
Qed.

Lemma generate_instruction_scoped (valueMap : gmap string LLVM.Value)
    (instr : SimpleTACLine.t) :
  SimpleTACLine.operation instr <> SimpleTACLine.ASSIGN ->
  (forall name, name ∈ reads instr -> is_Some (valueMap !! name)) ->
  exists valueMap', generate_instruction valueMap instr = inr valueMap'.
Proof.
  unfold generate_instruction, reads, binary. intros Hop Hreads.
  destruct (SimpleTACLine.operation instr); try congruence;
    try (destruct (Hreads (SimpleTACLine.operandA instr)) as [l ->];
         [apply list_elem_of_here |]);
    try (destruct (Hreads (SimpleTACLine.operandB instr)) as [r ->];
         [apply list_elem_of_further, list_elem_of_here |]);
    eexists; reflexivity.
Qed.

Lemma generate_instructions_scoped (instrs : list SimpleTACLine.t) :
  forall (valueMap : gmap string LLVM.Value) (bound : list string),
  (forall x, is_Some (valueMap !! x) <-> x ∈ bound) ->
  match generate_instructions valueMap instrs with
  | inr valueMap' =>
      well_scoped bound instrs /\
      forall x, is_Some (valueMap' !! x) <-> x ∈ bound_after bound instrs
  | inl _ => ~ well_scoped bound instrs
  end.
Proof.
  induction instrs as [| instr instrs IH]; intros valueMap bound Hdom; cbn.
  - split; [exact I | exact Hdom].
  - destruct (generate_instruction valueMap instr) as [err | valueMap1] eqn:Hgen.
    + intros (Hop & Hreads & _).
      destruct (generate_instruction_scoped valueMap instr Hop) as [vm' Hvm'];
        [intros name Hin; apply Hdom, Hreads, Hin | congruence].
    + apply generate_instruction_inr in Hgen as (Hop & Hreads & v & ->).
      specialize (IH (<[SimpleTACLine.result instr := v]> valueMap)
                     (SimpleTACLine.result instr :: bound)).
      assert (Hdom1 : forall x,
                 is_Some (<[SimpleTACLine.result instr := v]> valueMap !! x)
                 <-> x ∈ SimpleTACLine.result instr :: bound).
      { intros x. rewrite lookup_insert_is_Some, elem_of_cons, <- Hdom.
        destruct (decide (SimpleTACLine.result instr = x)) as [-> | Hne]; [tauto |].
        split; [intros [? | [_ ?]]; [congruence | tauto] | intros [? | ?]; [congruence | tauto]]. }
      specialize (IH Hdom1).
      destruct (generate_instructions _ instrs) as [err | valueMap'].
      * intros (_ & _ & Hrest). exact (IH Hrest).
      * destruct IH as [Hrest Hdom']. split; [| exact Hdom'].
        split; [exact Hop |]. split; [| exact Hrest].
        intros name Hin. apply Hdom, Hreads, Hin.
Qed.

(** X17. [generateLLVMIR] returns a value exactly for the expressions that
    are well scoped: no instruction is an [ASSIGN], every instruction reads
    only input variables and results of earlier instructions, and the output
    variable is an input or a result. Every other expression is rejected with
    an error. *)
Theorem generateLLVMIR_accepts_well_scoped (expr : SimpleExpression) :
  (exists v, generateLLVMIR expr = inr v) <->
  well_scoped (input_variables expr) (instructions expr) /\
  output_variable expr ∈ bound_after (input_variables expr) (instructions expr).
Proof.
  unfold generateLLVMIR.
  pose proof (generate_instructions_scoped (instructions expr)
                (bind_arguments (input_variables expr)) (input_variables expr)
                (bind_arguments_dom (input_variables expr))) as Hgen.
  destruct (generate_instructions _ _) as [err | valueMap].
  - split; [intros [v Hv]; discriminate | intros [Hs _]; contradiction].
  - destruct Hgen as [Hs Hdom]. rewrite <- Hdom.
    destruct (valueMap !! output_variable expr) as [v |].
    + split; [intros _; split; [exact Hs | eauto] | intros _; eauto].
    + split; [intros [v Hv]; discriminate | intros [_ [v Hv]]; discriminate].
Qed.

End Generate.

Section Semantics.
Context `{Libm}.
Import MiniScriptJIT.

(** The interpreter's variables hold the values of the IR bound to the same
    names. *)
Lemma bind_inputs_agrees (names : list string) : forall (args allargs : list double)
    (g : nat -> nat) (valueMap : gmap string LLVM.Value) (variables : gmap string double),
  length names = length args ->
  (forall i, args !! i = allargs !! g i) ->
  (forall x v, valueMap !! x = Some v -> variables !! x = Some (eval_value allargs v)) ->
  forall x v,
    fold_left (fun valueMap '(i, varName) => <[varName := LLVM.Argument i]> valueMap)
              (imap (fun i name => (g i, name)) names) valueMap !! x = Some v ->
    InterpreterSimulator.bind_inputs variables names args !! x
    = Some (eval_value allargs v).
Proof.
  induction names as [| name names IH]; intros args allargs g valueMap variables Hlen Hg Hagree;
    destruct args as [| arg args]; try discriminate; cbn.
  - exact Hagree.
  - apply (IH args allargs (g ∘ S)).
    + cbn in Hlen. lia.
    + intros i. exact (Hg (S i)).
    + intros x v Hl. apply lookup_insert_Some in Hl as [[<- <-] | [Hne Hl]].
      * rewrite lookup_insert_eq. cbn. rewrite <- (Hg 0%nat). reflexivity.
      * rewrite lookup_insert_ne by exact Hne. apply Hagree, Hl.
Qed.

Lemma read_bound (variables : gmap string double) (name : string) (d : double) :
  variables !! name = Some d -> InterpreterSimulator.read variables name = (d, variables).
Proof. intros Hl. unfold InterpreterSimulator.read. rewrite Hl. reflexivity. Qed.

Lemma step_agrees (args : list double) (valueMap valueMap' : gmap string LLVM.Value)
    (variables : gmap string double) (instr : SimpleTACLine.t) :
  (forall x v, valueMap !! x = Some v -> variables !! x = Some (eval_value args v)) ->
  generate_instruction valueMap instr = inr valueMap' ->
  forall y w, valueMap' !! y = Some w ->
              InterpreterSimulator.step variables instr !! y = Some (eval_value args w).
Proof.
  intros Hagree. unfold generate_instruction, binary, InterpreterSimulator.step.
  destruct (SimpleTACLine.operation instr);
    repeat match goal with
           | |- context [valueMap !! ?k] =>
               let Hk := fresh "Hk" in
               destruct (valueMap !! k) eqn:Hk;
               [apply Hagree in Hk; rewrite ?(read_bound _ _ _ Hk) |]
           end;
    try discriminate; intros [= <-] y w Hl;
    (apply lookup_insert_Some in Hl as [[<- <-] | [Hne Hl]];
     [rewrite lookup_insert_eq; reflexivity
     | rewrite lookup_insert_ne by exact Hne; apply Hagree, Hl]).
Qed.

Lemma steps_agree (args : list double) (instrs : list SimpleTACLine.t) :
  forall (valueMap valueMap' : gmap string LLVM.Value) (variables : gmap string double),
  (forall x v, valueMap !! x = Some v -> variables !! x = Some (eval_value args v)) ->
  generate_instructions valueMap instrs = inr valueMap' ->
  forall x v, valueMap' !! x = Some v ->
              fold_left InterpreterSimulator.step instrs variables !! x
              = Some (eval_value args v).
Proof.
  induction instrs as [| instr instrs IH]; intros valueMap valueMap' variables Hagree; cbn.
  - intros [= <-]. exact Hagree.
  - destruct (generate_instruction valueMap instr) as [err | valueMap1] eqn:Hgen;
      [discriminate |].
    intros Hrest. apply (IH valueMap1 valueMap' _ (step_agrees _ _ _ _ _ Hagree Hgen) Hrest).
Qed.

Lemma padded_args_lookup (args : list double) (i : nat) :
  (length args <= 4)%nat -> (i < length args)%nat ->
  padded_args args !! i = args !! i.
Proof.
  intros Hlen Hi. unfold padded_args.
  destruct (lookup_lt_is_Some_2 args i Hi) as [d Hd]. rewrite Hd.
  destruct i as [| [| [| [| i]]]]; cbn; rewrite ?Hd; try reflexivity. lia.
Qed.

Lemma eval_value_ext (n : nat) (args args' : list double) (v : LLVM.Value) :
  (forall i, (i < n)%nat -> args !! i = args' !! i) ->
  arguments_below n v -> eval_value args v = eval_value args' v.
Proof.
  intros Hargs. induction v as [index | d | l IHl r IHr | l IHl r IHr | l IHl r IHr
                                | l IHl r IHr | l IHl r IHr]; cbn;
    try (intros [Hl Hr]; rewrite (IHl Hl), (IHr Hr); reflexivity).
  - intros Hi. rewrite (Hargs index Hi). reflexivity.
  - reflexivity.
Qed.

Lemma generate_instruction_below (n : nat) (valueMap valueMap' : gmap string LLVM.Value)
    (instr : SimpleTACLine.t) :
  (forall x v, valueMap !! x = Some v -> arguments_below n v) ->
  generate_instruction valueMap instr = inr valueMap' ->
  forall y w, valueMap' !! y = Some w -> arguments_below n w.
Proof.
  intros Hbelow. unfold generate_instruction, binary.
  destruct (SimpleTACLine.operation instr);
    repeat match goal with
           | |- context [valueMap !! ?k] =>
               let Hk := fresh "Hk" in
               destruct (valueMap !! k) eqn:Hk; [apply Hbelow in Hk |]
           end;
    try discriminate; intros [= <-] y w Hl;
    (apply lookup_insert_Some in Hl as [[<- <-] | [Hne Hl]];
     [cbn; auto | apply (Hbelow _ _ Hl)]).
Qed.

Lemma generate_instructions_below (n : nat) (instrs : list SimpleTACLine.t) :
  forall (valueMap valueMap' : gmap string LLVM.Value),
  (forall x v, valueMap !! x = Some v -> arguments_below n v) ->
  generate_instructions valueMap instrs = inr valueMap' ->
  forall x v, valueMap' !! x = Some v -> arguments_below n v.
Proof.
  induction instrs as [| instr instrs IH]; intros valueMap valueMap' Hbelow; cbn.
  - intros [= <-]. exact Hbelow.
  - destruct (generate_instruction valueMap instr) as [err | valueMap1] eqn:Hgen;
      [discriminate |].
    apply IH. exact (generate_instruction_below n _ _ _ Hbelow Hgen).
Qed.

Lemma generateLLVMIR_below (expr : SimpleExpression) (v : LLVM.Value) :
  generateLLVMIR expr = inr v -> arguments_below (length (input_variables expr)) v.
Proof.
  unfold generateLLVMIR.
  destruct (generate_instructions _ _) as [err | valueMap] eqn:Hgen; [discriminate |].
  destruct (valueMap !! output_variable expr) as [v' |] eqn:Hout; [| discriminate].
  intros [= <-].
  apply (generate_instructions_below _ _ _ _
           ltac:(intros x w Hl; apply bind_arguments_spec in Hl as (i & Hi & ->);
                 cbn; apply lookup_lt_Some in Hi; exact Hi) Hgen _ _ Hout).
Qed.

(** X18. The compiled function computes what the interpreter computes: when
    [generateLLVMIR] accepts an expression of at most four inputs, the value
    it returns, run by [executeCompiledFunction] on as many arguments as the
    expression has inputs, is the value [InterpreterSimulator::
    executeExpression] returns on the same arguments; and the value refers to
    no parameter beyond the inputs. *)
Theorem compiled_value_is_interpreted_value (expr : SimpleExpression)
    (v : LLVM.Value) (args : list double) :
  generateLLVMIR expr = inr v ->
  length args = length (input_variables expr) ->
  (length args <= 4)%nat ->
  arguments_below (length (input_variables expr)) v /\
  eval_value (padded_args args) v = InterpreterSimulator.executeExpression expr args.
Proof.
  intros Hgen Hlen H4. pose proof (generateLLVMIR_below expr v Hgen) as Hbelow.
  split; [exact Hbelow |].
  rewrite (eval_value_ext (length (input_variables expr)) (padded_args args) args v);
    [| intros i Hi; apply padded_args_lookup; lia | exact Hbelow].
  unfold generateLLVMIR in Hgen. unfold InterpreterSimulator.executeExpression.
  destruct (generate_instructions _ _) as [err | valueMap] eqn:Hinstrs; [discriminate |].
  destruct (valueMap !! output_variable expr) as [v' |] eqn:Hout; [| discriminate].
  injection Hgen as ->.
  assert (Hinit : forall x w, bind_arguments (input_variables expr) !! x = Some w ->
                    InterpreterSimulator.bind_inputs ∅ (input_variables expr) args !! x
                    = Some (eval_value args w)).
  { unfold bind_arguments.
    apply (bind_inputs_agrees (input_variables expr) args args (fun i => i));
      [lia | reflexivity |].
    intros x w Hl. rewrite lookup_empty in Hl. discriminate. }
  pose proof (steps_agree args _ _ _ _ Hinit Hinstrs _ _ Hout) as Hfinal.
  rewrite (read_bound _ _ _ Hfinal). reflexivity.
Qed.

End Semantics.

Section CompileCount.
Context `{LLJIT}.
Import MiniScriptJIT.

Lemma compileExpression_count (j : MiniScriptJIT.t) (expr : SimpleExpression)
    (functionName : string) (compileTime : Z) :
  CompilationCount j = wrap64 (Z.of_nat (size (CompiledFunctions j))) ->
  let j' := (compileExpression j expr functionName compileTime).1.2 in
  CompilationCount j' = wrap64 (Z.of_nat (size (CompiledFunctions j'))).
Proof.
  intros Hc. cbv zeta. unfold compileExpression.
  destruct (CompiledFunctions j !! functionName) as [addr |] eqn:Hcache; [exact Hc |].
  destruct (generateLLVMIR expr) as [err | result]; [exact Hc |].
  destruct (verifyFunction _); [exact Hc |].
  destruct (addIRModule _ _) as [[err |] jit]; [exact Hc |].
  destruct (lookup jit functionName) as [[err | addr] jit']; [exact Hc |].
  cbn. rewrite map_size_insert_None by exact Hcache.
  rewrite Hc, wrap64_succ. f_equal. lia.
Qed.

(** X19. [CompilationCount] is the number of functions in the cache: a
    compiler whose counter agrees with its cache keeps the agreement through
    any series of [compileExpression] calls, successful or not (modulo
    2^64). *)
Theorem compilation_count_is_cache_size (j j' : MiniScriptJIT.t) :
  CompilationCount j = wrap64 (Z.of_nat (size (CompiledFunctions j))) ->
  rtc compiler_step j j' ->
  CompilationCount j' = wrap64 (Z.of_nat (size (CompiledFunctions j'))).
Proof.
  intros Hc Hsteps. induction Hsteps as [j | j j1 j' Hstep _ IH]; [exact Hc |].
  apply IH. destruct Hstep as [j expr functionName compileTime].
  apply compileExpression_count. exact Hc.
Qed.

End CompileCount.
(* ===================================================================== *)
(** * The prototypes: evaluators, bytecode and specialisation tables *)
(* ===================================================================== *)

Section Evaluators.
Context `{Libm}.
Import ExpressionNode.

(** The two ways of looking a variable up agree on every character. *)
Lemma variable_lookup_agrees (name : ascii) (a b c d : double) :
  evaluateOptimized (VARIABLE name) a b c d = interpret (VARIABLE name) a b c d.
Proof.
  destruct name as [[] [] [] [] [] [] [] []]; reflexivity.
Qed.

(** A double that compares equal to 0.0 is a zero, of either sign. *)
Lemma neb_zero (x : double) :
  neb x (Double.lit 0.0) = false -> exists s, x = S754_zero s.
Proof.
  change (Double.lit 0.0) with (S754_zero false). unfold neb.
  destruct x as [s | s | | s m e]; cbn.
  - eauto.
  - destruct s; discriminate.
  - discriminate.
  - destruct s; discriminate.
Qed.

(** The IEEE quotient by a zero is an infinity or a NaN, never a zero. *)
Lemma div_by_zero (x : double) (s : bool) :
  Double.div x (S754_zero s) = S754_nan \/
  exists s', Double.div x (S754_zero s) = S754_infinity s'.
Proof. destruct x; cbn; eauto. Qed.

(** X20. The "optimized" evaluator of SimpleExpressionJIT agrees with the
    interpreter on every tree and arguments for which no divisor evaluates to
    zero, whatever characters name the variables. At a division whose
    divisor evaluates to zero in both, the two differ: the optimized
    evaluator returns 0.0 and the interpreter the IEEE quotient, an infinity
    or a NaN. (Further up the tree the difference may vanish again.) *)
Theorem evaluateOptimized_agrees_without_zero_divisor (e : ExpressionNode.t)
    (a b c d : double) :
  (no_zero_divisor e a b c d -> evaluateOptimized e a b c d = interpret e a b c d) /\
  (forall l r : ExpressionNode.t,
     e = BINARY_OP ADividedByB l r ->
     neb (evaluateOptimized r a b c d) (Double.lit 0.0) = false ->
     neb (interpret r a b c d) (Double.lit 0.0) = false ->
     evaluateOptimized e a b c d = Double.lit 0.0 /\
     (interpret e a b c d = S754_nan \/ exists s, interpret e a b c d = S754_infinity s) /\
     evaluateOptimized e a b c d <> interpret e a b c d).
Proof.
  split.
  - induction e as [v | name | op l IHl r IHr].
    + reflexivity.
    + intros _. apply variable_lookup_agrees.
    + cbn [no_zero_divisor]. intros (Hl & Hr & Hdiv).
      cbn [evaluateOptimized interpret]. rewrite (IHl Hl), (IHr Hr).
      destruct op; try reflexivity. rewrite (Hdiv eq_refl). reflexivity.
  - intros l r -> Hopt Hint.
    assert (Hzero : evaluateOptimized (BINARY_OP ADividedByB l r) a b c d = Double.lit 0.0).
    { cbn [evaluateOptimized]. rewrite Hopt. reflexivity. }
    assert (Hquot : interpret (BINARY_OP ADividedByB l r) a b c d = S754_nan \/
                    exists s, interpret (BINARY_OP ADividedByB l r) a b c d
                              = S754_infinity s).
    { cbn [interpret]. destruct (neb_zero _ Hint) as [s ->]. apply div_by_zero. }
    split; [exact Hzero |]. split; [exact Hquot |].
    rewrite Hzero. change (Double.lit 0.0) with (S754_zero false).
    destruct Hquot as [-> | [s ->]]; discriminate.
Qed.

End Evaluators.

Section SimpleCache.
Import SimpleExpressionJIT.

(** X21. The cache of SimpleExpressionJIT is keyed by the name alone: the
    function returned for a name is the one compiled first under that name,
    and every later request for the name returns it again and compiles
    nothing, whatever expression is passed. *)
Theorem compileExpression_keeps_first (jit : SimpleExpressionJIT.t)
    (expr expr' : ExpressionNode.t) (name : string) :
  let '(f, jit') := compileExpression jit expr name in
  compiled_cache jit' !! name = Some f /\
  (compiled_cache jit !! name = None -> f = expr) /\
  compileExpression jit' expr' name = (f, jit').
Proof.
  unfold compileExpression.
  destruct (compiled_cache jit !! name) as [f |] eqn:Hc.
  - split; [exact Hc |]. split; [discriminate |]. rewrite Hc. reflexivity.
  - cbn [compiled_cache]. rewrite lookup_insert_eq.
    split; [reflexivity |]. split; reflexivity.
Qed.

End SimpleCache.

Section Bytecode.
Context `{Libm}.
Import BytecodeJIT.

Lemma var_index_lookup (name : ascii) (i : Z) (a b c d : double) :
  var_index_of name = Some i ->
  0 <= i < 4 /\
  [a; b; c; d] !! Z.to_nat i = Some (ExpressionNode.interpret (ExpressionNode.VARIABLE name) a b c d).
Proof.
  unfold var_index_of. cbn [ExpressionNode.interpret].
  repeat (destruct (decide _); [intros [= <-]; split; [lia | reflexivity] |]).
  discriminate.
Qed.

Lemma run_app (variables stack : list double) (code code' : list Operation) :
  run variables stack (code ++ code')
  = stack' ← run variables stack code; run variables stack' code'.
Proof.
  revert stack. induction code as [| op code IH]; intros stack; cbn; [reflexivity |].
  destruct (step variables stack op) as [stack1 |]; cbn; [apply IH | reflexivity].
Qed.

(** Running the postfix form of a tree pushes the value of the tree. *)
Lemma run_postfix (e : ExpressionNode.t) (a b c d : double) :
  forall (code : list Operation) (stack : list double),
  postfix e = Some code ->
  (length stack + stack_need e <= 16)%nat ->
  run [a; b; c; d] stack code = Some (ExpressionNode.interpret e a b c d :: stack).
Proof.
  induction e as [v | name | op l IHl r IHr]; intros code stack Hcode Hneed.
  - injection Hcode as <-. cbn in *. unfold push.
    destruct (Nat.ltb_spec (length stack) 16); [reflexivity | lia].
  - cbn [postfix] in Hcode.
    destruct (var_index_of name) as [i |] eqn:Hi; [| discriminate].
    injection Hcode as <-.
    destruct (var_index_lookup name i a b c d Hi) as [Hrange Hl].
    cbn [run step]. destruct (Z.leb_spec 0 i); [| lia]. destruct (Z.ltb_spec i 4); [| lia].
    cbn [andb]. rewrite Hl. cbn. unfold push.
    cbn in Hneed. destruct (Nat.ltb_spec (length stack) 16); [reflexivity | lia].
  - cbn [postfix] in Hcode.
    destruct (postfix l) as [pl |]; [| discriminate].
    destruct (postfix r) as [pr |]; [| discriminate].
    injection Hcode as <-. cbn [stack_need] in Hneed.
    rewrite run_app, (IHl pl stack eq_refl) by lia. cbn [mbind option_bind].
    rewrite run_app, (IHr pr _ eq_refl) by (cbn [length]; lia). cbn [mbind option_bind].
    destruct op; reflexivity.
Qed.

(** X22. The bytecode machine runs postfix code correctly: for every
    expression tree over the variables a to d whose postfix form needs at
    most the 16 slots of the stack, [executeBytecode] on that form returns
    the value [interpret] gives the tree, with no access outside the stack
    or the variables. *)
Theorem executeBytecode_runs_postfix (e : ExpressionNode.t) (code : list Operation)
    (a b c d : double) :
  postfix e = Some code -> (stack_need e <= 16)%nat ->
  executeBytecode code a b c d = Some (ExpressionNode.interpret e a b c d).
Proof.
  intros Hcode Hneed. unfold executeBytecode.
  rewrite (run_postfix e a b c d code [] Hcode) by (cbn [length]; lia).
  reflexivity.
Qed.

(** X23. The evaluators of the two benchmark expressions. For a + b * 2.5
    the bytecode, the hard-coded function and the interpreter return the same
    value on all arguments. For (a + b) * (c - d) / 3.14159 the bytecode and
    the hard-coded function agree with each other on all arguments, but they
    multiply by 0.318309886184 instead of dividing by 3.14159, and do not
    compute the function of the interpreter: the two differ on the arguments
    of the benchmark, (10.5, 7.3, 15.2, 4.8). *)
Theorem benchmark_evaluators :
  (forall a b c d,
     evaluateSimple a b c d = Some (OptimizedExpressions.SimpleExpression_evaluate a b c d) /\
     OptimizedExpressions.SimpleExpression_evaluate a b c d
     = ExpressionNode.interpret ExpressionNode.createSimpleExpression a b c d) /\
  (forall a b c d,
     evaluateComplex a b c d
     = Some (OptimizedExpressions.ComplexExpression_evaluate a b c d)) /\
  ~ (forall a b c d,
       OptimizedExpressions.ComplexExpression_evaluate a b c d
       = ExpressionNode.interpret ExpressionNode.createComplexExpression a b c d).
Proof.
  split; [intros a b c d; split; reflexivity |].
  split; [intros a b c d; reflexivity |].
  intros Hall.
  specialize (Hall (Double.lit 10.5) (Double.lit 7.3) (Double.lit 15.2) (Double.lit 4.8)).
  vm_compute in Hall. discriminate.
Qed.

End Bytecode.

Section Specialisation.
Import TypeInferenceEngine.

(** X24. The three tables of the type inference engine: an operation with a
    specialised opcode can be specialised, and the opcode produces the
    inferred result type; an operation that can be specialised has a known
    result type; and the only operations that can be specialised but have no
    opcode are the inequalities [ANotEqualB] of two numbers or two strings,
    for which [getSpecializedOp] returns 0. *)
Theorem specialisation_tables (op : TACLine.Op) (typeA typeB : ValueType) :
  (getSpecializedOp op typeA typeB <> NoOp ->
   canSpecialize op typeA typeB = true /\
   OpCode_result (getSpecializedOp op typeA typeB) = Some (inferResultType op typeA typeB)) /\
  (canSpecialize op typeA typeB = true -> inferResultType op typeA typeB <> Null) /\
  (canSpecialize op typeA typeB = true /\ getSpecializedOp op typeA typeB = NoOp <->
   op = TACLine.ANotEqualB /\
   ((typeA = Number /\ typeB = Number) \/ (typeA = String /\ typeB = String))).
Proof.
  destruct op, typeA, typeB; vm_compute; intuition congruence.
Qed.

End Specialisation.

Section Conversion.

(** X25. The conversion of host operators keeps the operators that
    [isJITCompilable] accepts apart, with one exception: the conditional jump
    [GotoAifB] is accepted as compilable but has no case in
    [convertOperation], which turns it into [AssignOp], the conversion of
    [AssignA]. *)
Theorem convertOperation_on_compilable (o1 o2 : TACLine.Op) :
  JITIntegration.isJITCompilable o1 = true ->
  JITIntegration.isJITCompilable o2 = true ->
  (JITIntegration.convertOperation o1 = JITIntegration.convertOperation o2 <->
   o1 = o2 \/
   (o1 = TACLine.AssignA /\ o2 = TACLine.GotoAifB) \/
   (o1 = TACLine.GotoAifB /\ o2 = TACLine.AssignA)).
Proof.
  destruct o1; try discriminate; destruct o2; try discriminate; intros _ _; cbn;
    (split; [intros Hc; first [left; reflexivity | discriminate Hc | tauto]
            | intros [Hc | [[Ha Hb] | [Ha Hb]]];
              first [reflexivity | discriminate Hc | discriminate Ha | discriminate Hb]]).
Qed.

End Conversion.
(* ===================================================================== *)
(** * simple_pool_test.cpp: the block allocator *)
(* ===================================================================== *)

Section PoolFacts.
Import SimplePool.

Lemma find_block_Some (blocks : list Block) (pos : nat) :
  find_block blocks = Some pos ->
  exists block, blocks !! pos = Some block /\ used_count block < BLOCK_SIZE.
Proof.
  revert pos. induction blocks as [| block next IH]; intros pos; cbn [find_block].
  - discriminate.
  - destruct (Z.ltb_spec (used_count block) BLOCK_SIZE) as [Hlt | Hge].
    + intros [= <-]. exists block. split; [reflexivity | exact Hlt].
    + destruct (find_block next) as [pos' |]; [| discriminate].
      intros [= <-]. apply IH. reflexivity.
Qed.

Lemma in_use_le (free_list : list bool) : (in_use free_list <= length free_list)%nat.
Proof.
  induction free_list as [| free rest IH]; cbn [in_use length]; [lia |].
  destruct free; lia.
Qed.

(** A list of flags with an entry not in use has a free slot, the first of
    which [find_slot] finds. *)
Lemma find_slot_spec (free_list : list bool) :
  match find_slot free_list with
  | Some i => free_list !! i = Some true
  | None => in_use free_list = length free_list
  end.
Proof.
  induction free_list as [| free rest IH]; cbn [find_slot in_use length]; [reflexivity |].
  destruct free; [reflexivity |].
  destruct (find_slot rest) as [i |]; cbn; [exact IH | lia].
Qed.

Lemma in_use_take (free_list : list bool) (i : nat) :
  free_list !! i = Some true ->
  in_use (<[i := false]> free_list) = S (in_use free_list).
Proof.
  revert i. induction free_list as [| f rest IH]; intros [| i]; simpl; try discriminate.
  - intros [= ->]. reflexivity.
  - intros Hl. rewrite (IH i Hl). lia.
Qed.

Lemma in_use_give (free_list : list bool) (i : nat) :
  free_list !! i = Some false ->
  S (in_use (<[i := true]> free_list)) = in_use free_list.
Proof.
  revert i. induction free_list as [| f rest IH]; intros [| i]; simpl; try discriminate.
  - intros [= ->]. reflexivity.
  - intros Hl. rewrite <- (IH i Hl). lia.
Qed.

Lemma block_of_cons (block : Block) (blocks : list Block) (id : nat) :
  block_of (block :: blocks) id
  = if decide (id = length blocks) then Some block else block_of blocks id.
Proof.
  unfold block_of. cbn [length].
  destruct (Nat.ltb_spec id (S (length blocks))), (Nat.ltb_spec id (length blocks)),
    (decide (id = length blocks)); try lia; try reflexivity.
  - replace (S (length blocks) - 1 - id)%nat with (S (length blocks - 1 - id)) by lia.
    reflexivity.
  - subst id. replace (S (length blocks) - 1 - length blocks)%nat with 0%nat by lia.
    reflexivity.
Qed.

Lemma block_of_insert (blocks : list Block) (pos : nat) (block : Block) (id : nat) :
  (pos < length blocks)%nat ->
  block_of (<[pos := block]> blocks) id
  = if decide (id = (length blocks - 1 - pos)%nat) then Some block else block_of blocks id.
Proof.
  intros Hpos. unfold block_of. rewrite length_insert.
  destruct (Nat.ltb_spec id (length blocks)) as [Hid | Hid].
  - destruct (decide (id = (length blocks - 1 - pos)%nat)) as [-> | Hne].
    + replace (length blocks - 1 - (length blocks - 1 - pos))%nat with pos by lia.
      apply list_lookup_insert_eq. exact Hpos.
    + apply list_lookup_insert_ne. lia.
  - destruct (decide (id = (length blocks - 1 - pos)%nat)); [lia | reflexivity].
Qed.

Lemma block_of_at (blocks : list Block) (pos : nat) (block : Block) :
  blocks !! pos = Some block ->
  block_of blocks (length blocks - 1 - pos) = Some block.
Proof.
  intros Hl. pose proof (lookup_lt_Some _ _ _ Hl) as Hpos. unfold block_of.
  destruct (Nat.ltb_spec (length blocks - 1 - pos) (length blocks)); [| lia].
  replace (length blocks - 1 - (length blocks - 1 - pos))%nat with pos by lia. exact Hl.
Qed.

(** What taking the slot [i] of the block at [pos] does. *)
Lemma take_slot (blocks : list Block) (pos i : nat) (block : Block) (total : Z) :
  Forall block_ok blocks ->
  blocks !! pos = Some block ->
  free_list block !! i = Some true ->
  let ptr : Ptr := ((length blocks - 1 - pos)%nat, i) in
  let p' := {| first_block :=
                 <[pos := {| free_list := <[i := false]> (free_list block);
                             used_count := wrap64 (used_count block + 1) |}]> blocks;
               total_allocations := total |} in
  ok p' /\ allocated p' ptr = true /\
  forall q : Ptr, q <> ptr ->
    allocated p' q
    = match block_of blocks q.1 with
      | Some b => match free_list b !! q.2 with
                  | Some free => negb free
                  | None => false
                  end
      | None => false
      end.
Proof.
  intros Hok Hl Hfree. cbv zeta.
  pose proof (lookup_lt_Some _ _ _ Hl) as Hpos.
  pose proof (lookup_lt_Some _ _ _ Hfree) as Hi.
  pose proof (proj1 (Forall_lookup _ _) Hok pos block Hl) as [Hlen Hcount].
  split; [| split].
  - unfold ok. cbn [first_block]. apply Forall_insert; [exact Hok |].
    split; cbn [free_list used_count].
    + rewrite length_insert. exact Hlen.
    + rewrite (in_use_take _ i Hfree), Hcount.
      pose proof (in_use_le (free_list block)).
      unfold wrap64. rewrite Z.mod_small; [lia |].
      unfold BLOCK_SIZE in Hlen. change (Z.to_nat 64) with 64%nat in Hlen. lia.
  - unfold allocated. cbn [first_block fst snd].
    rewrite block_of_insert by exact Hpos.
    destruct (decide _) as [_ | Hne]; [| contradiction].
    cbn [free_list]. rewrite list_lookup_insert_eq by exact Hi. reflexivity.
  - intros [id j] Hq. unfold allocated. cbn [first_block fst snd].
    rewrite block_of_insert by exact Hpos.
    destruct (decide (id = (length blocks - 1 - pos)%nat)) as [-> | Hne]; [| reflexivity].
    rewrite (block_of_at blocks pos block Hl). cbn [free_list].
    rewrite list_lookup_insert_ne by congruence. reflexivity.
Qed.

(** The two ways of [allocate]: a slot of a block with room, or the first
    slot of a new block. *)
Lemma allocate_in_block (p : t) (pos i : nat) (block : Block) :
  find_block (first_block p) = Some pos ->
  first_block p !! pos = Some block ->
  find_slot (free_list block) = Some i ->
  allocate p
  = (Some ((length (first_block p) - 1 - pos)%nat, i),
     {| first_block :=
          <[pos := {| free_list := <[i := false]> (free_list block);
                      used_count := wrap64 (used_count block + 1) |}]> (first_block p);
        total_allocations := wrap64 (total_allocations p + 1) |}).
Proof. intros Hfind Hl Hslot. unfold allocate. rewrite Hfind, Hl, Hslot. reflexivity. Qed.

Lemma allocate_new_block (p : t) :
  find_block (first_block p) = None ->
  allocate p
  = (Some (length (first_block p), 0%nat),
     {| first_block :=
          <[0%nat := {| free_list := <[0%nat := false]> (free_list new_Block);
                        used_count := wrap64 (used_count new_Block + 1) |}]>
            (new_Block :: first_block p);
        total_allocations := wrap64 (total_allocations p + 1) |}).
Proof.
  intros Hfind. unfold allocate. rewrite Hfind. cbn [length].
  replace (S (length (first_block p)) - 1 - 0)%nat with (length (first_block p)) by lia.
  reflexivity.
Qed.

(** X27. [allocate] on a well-formed pool never returns [nullptr]: it hands
    out an entry that was not in use, which is in use afterwards; every other
    entry is in use exactly if it was before; the pool stays well formed and
    [total_allocations] has grown by one. *)
Theorem allocate_hands_out_a_free_entry (p : t) :
  ok p ->
  exists ptr : Ptr,
    (allocate p).1 = Some ptr /\
    allocated p ptr = false /\
    allocated (allocate p).2 ptr = true /\
    (forall q : Ptr, q <> ptr -> allocated (allocate p).2 q = allocated p q) /\
    ok (allocate p).2 /\
    get_allocations (allocate p).2 = wrap64 (get_allocations p + 1).
Proof.
  intros Hok. unfold ok in Hok.
  destruct (find_block (first_block p)) as [pos |] eqn:Hfind.
  - destruct (find_block_Some _ _ Hfind) as (block & Hl & Hroom).
    pose proof (proj1 (Forall_lookup _ _) Hok pos block Hl) as [Hlen Hcount].
    pose proof (find_slot_spec (free_list block)) as Hslot.
    destruct (find_slot (free_list block)) as [i |] eqn:Hi.
    2: { unfold BLOCK_SIZE in *. change (Z.to_nat 64) with 64%nat in Hlen. lia. }
    rewrite (allocate_in_block p pos i block Hfind Hl Hi). cbn [fst snd].
    destruct (take_slot (first_block p) pos i block (wrap64 (total_allocations p + 1))
                Hok Hl Hslot) as (Hok' & Hmine & Hothers).
    exists ((length (first_block p) - 1 - pos)%nat, i).
    split; [reflexivity |]. split.
    { unfold allocated. cbn [fst snd]. rewrite (block_of_at _ pos block Hl), Hslot.
      reflexivity. }
    split; [exact Hmine |]. split; [| split; [exact Hok' | reflexivity]].
    intros q Hq. rewrite (Hothers q Hq). reflexivity.
  - rewrite (allocate_new_block p Hfind). cbn [fst snd].
    assert (Hok0 : Forall block_ok (new_Block :: first_block p)).
    { constructor; [split; reflexivity | exact Hok]. }
    pose proof (take_slot (new_Block :: first_block p) 0 0 new_Block
                  (wrap64 (total_allocations p + 1)) Hok0 eq_refl eq_refl) as Htake.
    cbv zeta in Htake. cbn [length] in Htake.
    replace (S (length (first_block p)) - 1 - 0)%nat with (length (first_block p))
      in Htake by lia.
    destruct Htake as (Hok' & Hmine & Hothers).
    exists (length (first_block p), 0%nat).
    split; [reflexivity |]. split.
    { unfold allocated, block_of. cbn [fst snd].
      destruct (Nat.ltb_spec (length (first_block p)) (length (first_block p)));
        [lia | reflexivity]. }
    split; [exact Hmine |]. split; [| split; [exact Hok' | reflexivity]].
    intros [id j] Hq. rewrite (Hothers (id, j) Hq). cbn [fst snd].
    rewrite block_of_cons. unfold allocated. cbn [first_block fst snd].
    destruct (decide (id = length (first_block p))) as [-> | Hne]; [| reflexivity].
    unfold block_of. destruct (Nat.ltb_spec (length (first_block p)) (length (first_block p)));
      [lia |].
    cbn [free_list new_Block].
    destruct (replicate (Z.to_nat BLOCK_SIZE) true !! j) as [free |] eqn:Hj; [| reflexivity].
    apply lookup_replicate in Hj as [-> _]. reflexivity.
Qed.

(** X28. [deallocate] of an entry in use on a well-formed pool gives the
    entry back: it is not in use afterwards, every other entry is in use
    exactly if it was before, the pool stays well formed, and
    [total_allocations] is unchanged. *)
Theorem deallocate_gives_the_entry_back (p : t) (ptr : Ptr) :
  ok p -> allocated p ptr = true ->
  ok (deallocate p (Some ptr)) /\
  allocated (deallocate p (Some ptr)) ptr = false /\
  (forall q : Ptr, q <> ptr -> allocated (deallocate p (Some ptr)) q = allocated p q) /\
  get_allocations (deallocate p (Some ptr)) = get_allocations p.
Proof.
  intros Hok Hused. destruct ptr as [id index]. unfold ok in Hok.
  unfold allocated in Hused. cbn [fst snd] in Hused. unfold deallocate.
  destruct (block_of (first_block p) id) as [block |] eqn:Hblock; [| discriminate].
  destruct (free_list block !! index) as [free |] eqn:Hfree; [| discriminate].
  destruct free; [discriminate |].
  assert (Hid : (id < length (first_block p))%nat /\
                first_block p !! (length (first_block p) - 1 - id)%nat = Some block).
  { unfold block_of in Hblock.
    destruct (Nat.ltb_spec id (length (first_block p))); [split; assumption | discriminate]. }
  destruct Hid as [Hid Hl].
  pose proof (proj1 (Forall_lookup _ _) Hok _ block Hl) as [Hlen Hcount].
  pose proof (lookup_lt_Some _ _ _ Hfree) as Hi.
  destruct (Nat.ltb_spec index (Z.to_nat BLOCK_SIZE)) as [_ | Hge]; [| lia].
  split; [| split; [| split; [| reflexivity]]].
  - unfold ok. cbn [first_block]. apply Forall_insert; [exact Hok |].
    split; cbn [free_list used_count].
    + rewrite length_insert. exact Hlen.
    + pose proof (in_use_give _ index Hfree) as Hgive.
      pose proof (in_use_le (<[index := true]> (free_list block))) as Hle.
      rewrite length_insert in Hle.
      unfold wrap64. rewrite Z.mod_small; [lia |].
      unfold BLOCK_SIZE in Hlen. change (Z.to_nat 64) with 64%nat in Hlen. lia.
  - unfold allocated. cbn [first_block fst snd].
    rewrite block_of_insert by lia.
    destruct (decide _) as [_ | Hne]; [| lia].
    cbn [free_list]. rewrite list_lookup_insert_eq by exact Hi. reflexivity.
  - intros [id' j] Hq. unfold allocated. cbn [first_block fst snd].
    rewrite block_of_insert by lia.
    destruct (decide (id' = (length (first_block p) - 1
                             - (length (first_block p) - 1 - id))%nat)) as [-> | Hne];
      [| reflexivity].
    replace (length (first_block p) - 1 - (length (first_block p) - 1 - id))%nat with id
      in * by lia.
    rewrite Hblock. cbn [free_list].
    rewrite list_lookup_insert_ne by congruence. reflexivity.
Qed.

End PoolFacts.
(* ===================================================================== *)
(** * compileContextRange under interleaving *)
(* ===================================================================== *)

Section InterleavedFacts.
Context `{Platform} `{Host} `{CodeGenerator}.
Import Interleaved.

Lemma run_step_middle (jit : RuntimeJIT) (done : list Caller) (c : Caller)
    (rest : list Caller) (evs : list Event) :
  run_step (jit, done ++ c :: rest, evs) (length done)
  = ((step jit c).1.1, (done ++ [(step jit c).1.2]) ++ rest, evs ++ (step jit c).2).
Proof.
  unfold run_step. rewrite list_lookup_middle by reflexivity.
  destruct (step jit c) as [[jit' c'] evs']. cbn [fst snd].
  rewrite <- (Nat.add_0_r (length done)), insert_app_r, <- app_assoc. reflexivity.
Qed.

Lemma run_step_single (jit : RuntimeJIT) (c : Caller) (evs : list Event) :
  run_step (jit, [c], evs) 0
  = ((step jit c).1.1, [(step jit c).1.2], evs ++ (step jit c).2).
Proof. exact (run_step_middle jit [] c [] evs). Qed.

(** A caller that runs alone does what [compileContextRange] does. *)
Lemma alone_is_compileContextRange (jit : RuntimeJIT) (ctx : Z) (context : Context)
    (startLine endLine : Z) (elapsed : double) :
  run jit [caller ctx context startLine endLine elapsed] [0; 0; 0]%nat
  = ((compileContextRange jit ctx context startLine endLine elapsed).1.2,
     [moved (caller ctx context startLine endLine elapsed)
        (Finished (compileContextRange jit ctx context startLine endLine elapsed).1.1)],
     (compileContextRange jit ctx context startLine endLine elapsed).2).
Proof.
  unfold run. cbn [fold_left]. rewrite !run_step_single.
  unfold step, compileContextRange.
  cbn [position moved caller arg_ctx arg_context arg_startLine arg_endLine timer fst snd].
  destruct (compiledRegions_ jit !! generateContextFingerprint ctx context startLine endLine)
    as [r |];
    cbn [position moved caller arg_ctx arg_context arg_startLine arg_endLine timer
         fst snd app]; [reflexivity |].
  destruct (negb _);
    cbn [position moved caller arg_ctx arg_context arg_startLine arg_endLine timer
         fst snd app]; [reflexivity |].
  destruct (generateFunction _ _ _) as [[[f |] |] gen];
    cbn [position moved caller arg_ctx arg_context arg_startLine arg_endLine timer
         fst snd app irGenerator_ compiledRegions_ stats_]; reflexivity.
Qed.

(** The lookups: every caller misses, nothing else changes. *)
Lemma lookups_all_miss (jit : RuntimeJIT) (ctx : Z) (context : Context)
    (startLine endLine : Z) (timers : list double) (done : list Caller)
    (evs : list Event) :
  compiledRegions_ jit !! generateContextFingerprint ctx context startLine endLine = None ->
  fold_left run_step (seq (length done) (length timers))
    (jit, done ++ callers_of ctx context startLine endLine timers, evs)
  = (jit,
     done ++ ((fun c => moved c AtGenerate) <$> callers_of ctx context startLine endLine timers),
     evs).
Proof.
  intros Hmiss. revert done. induction timers as [| t timers IH]; intros done; [reflexivity |].
  cbn [length seq fold_left callers_of fmap list_fmap].
  rewrite run_step_middle.
  assert (Hstep : step jit (caller ctx context startLine endLine t)
                  = (jit, moved (caller ctx context startLine endLine t) AtGenerate, [])).
  { unfold step. cbn [position caller arg_ctx arg_context arg_startLine arg_endLine].
    rewrite Hmiss. reflexivity. }
  rewrite Hstep. cbn [fst snd]. rewrite app_nil_r.
  replace (S (length done))
    with (length (done ++ [moved (caller ctx context startLine endLine t) AtGenerate]))
    by (rewrite length_app; cbn [length]; lia).
  unfold callers_of in IH. rewrite IH, <- app_assoc. reflexivity.
Qed.

(** The part without the lock: every caller of a compilable range calls the
    generator; the cache is not touched. *)
Lemma generate_all (ctx : Z) (context : Context) (startLine endLine : Z)
    (timers : list double) (jit : RuntimeJIT) (done : list Caller) (evs : list Event) :
  isCompilableSequence (SubList (code context) startLine (endLine - startLine + 1)) = true ->
  exists jit' cs evs',
    fold_left run_step (seq (length done) (length timers))
      (jit,
       done ++ ((fun c => moved c AtGenerate)
                  <$> callers_of ctx context startLine endLine timers),
       evs)
    = (jit', done ++ cs, evs') /\
    length cs = length timers /\
    Forall generated cs /\
    generator_calls evs' = (generator_calls evs + length timers)%nat.
Proof.
  intros Hcomp. revert jit done evs.
  induction timers as [| t timers IH]; intros jit done evs.
  { exists jit, [], evs. cbn. rewrite Nat.add_0_r. repeat split. constructor. }
  cbn [length seq fold_left callers_of fmap list_fmap].
  rewrite run_step_middle.
  set (c := moved (caller ctx context startLine endLine t) AtGenerate).
  assert (Hstep : generated (step jit c).1.2 /\
                  generator_calls (step jit c).2 = 1%nat).
  { unfold step, c.
    cbn [position moved caller arg_ctx arg_context arg_startLine arg_endLine timer].
    rewrite Hcomp. cbn [negb].
    destruct (generateFunction _ _ _) as [[[f |] |] gen]; cbn [fst snd position moved];
      (split; [unfold generated; cbn [position]; eauto | reflexivity]). }
  destruct Hstep as [Hgen Hone].
  replace (S (length done)) with (length (done ++ [(step jit c).1.2]))
    by (rewrite length_app; cbn [length]; lia).
  destruct (IH (step jit c).1.1 (done ++ [(step jit c).1.2]) (evs ++ (step jit c).2))
    as (jit' & cs & evs' & Hrun & Hlen & Hall & Hcalls).
  exists jit', ((step jit c).1.2 :: cs), evs'.
  unfold callers_of in Hrun. rewrite Hrun, <- app_assoc.
  split; [reflexivity |]. split; [cbn [length]; lia |].
  split; [constructor; assumption |].
  rewrite Hcalls. unfold generator_calls. rewrite List.filter_app, length_app.
  unfold generator_calls in Hone. rewrite Hone. lia.
Qed.

(** The stores: every caller that holds a function stores it and returns;
    the generator is not called. *)
Lemma store_all (cs : list Caller) (jit : RuntimeJIT) (done : list Caller)
    (evs : list Event) :
  Forall generated cs ->
  exists jit' cs',
    fold_left run_step (seq (length done) (length cs)) (jit, done ++ cs, evs)
    = (jit', done ++ cs', evs) /\
    length cs' = length cs /\
    Forall finished cs'.
Proof.
  revert jit done. induction cs as [| c cs IH]; intros jit done Hall.
  { exists jit, []. repeat split. constructor. }
  apply Forall_cons in Hall as [Hc Hall].
  cbn [length seq fold_left]. rewrite run_step_middle.
  assert (Hstep : finished (step jit c).1.2 /\ (step jit c).2 = []).
  { unfold step. destruct Hc as [Hc | [f Hc]]; rewrite Hc; cbn [fst snd].
    - split; [exists false; exact Hc | reflexivity].
    - split; [exists true; reflexivity | reflexivity]. }
  destruct Hstep as [Hfin Hevs]. rewrite Hevs, app_nil_r.
  replace (S (length done)) with (length (done ++ [(step jit c).1.2]))
    by (rewrite length_app; cbn [length]; lia).
  destruct (IH (step jit c).1.1 (done ++ [(step jit c).1.2]) Hall) as (jit' & cs' & Hrun & Hlen & Hfins).
  exists jit', ((step jit c).1.2 :: cs').
  rewrite Hrun, <- app_assoc.
  split; [reflexivity |]. split; [cbn [length]; lia |]. constructor; assumption.
Qed.

(** C9. Callers on several threads of [compileContextRange] for one region
    that nobody has compiled: when each of them does its locked lookup
    before any of them stores (here: all look up, then all generate, then
    all store), each of them misses and each of them calls the generator. As
    many calls of the generator as callers, and every caller returns. *)
Theorem racing_callers_each_compile (jit : RuntimeJIT) (ctx : Z) (context : Context)
    (startLine endLine : Z) (timers : list double) :
  compiledRegions_ jit !! generateContextFingerprint ctx context startLine endLine = None ->
  isCompilableSequence (SubList (code context) startLine (endLine - startLine + 1)) = true ->
  generator_calls
    (run jit (callers_of ctx context startLine endLine timers)
         (lookups_first (length timers))).2
  = length timers /\
  length (run jit (callers_of ctx context startLine endLine timers)
              (lookups_first (length timers))).1.2 = length timers /\
  Forall finished
    (run jit (callers_of ctx context startLine endLine timers)
         (lookups_first (length timers))).1.2.
Proof.
  intros Hmiss Hcomp. unfold run, lookups_first. rewrite !fold_left_app.
  pose proof (lookups_all_miss jit ctx context startLine endLine timers [] [] Hmiss) as Hlook.
  cbn [length app] in Hlook. rewrite Hlook.
  destruct (generate_all ctx context startLine endLine timers jit [] [] Hcomp)
    as (jit1 & cs1 & evs1 & Hgen & Hlen1 & Hall1 & Hcalls).
  cbn [length app] in Hgen. rewrite Hgen.
  destruct (store_all cs1 jit1 [] evs1 Hall1) as (jit2 & cs2 & Hstore & Hlen2 & Hfin).
  cbn [length app] in Hstore. rewrite Hlen1 in Hstore. rewrite Hstore. cbn [fst snd].
  split; [rewrite Hcalls; reflexivity |]. split; [lia | exact Hfin].
Qed.

End InterleavedFacts.

(* ===================================================================== *)
(** * Worked examples *)
(* ===================================================================== *)

Section Examples.
#[local] Existing Instance example_platform.
#[local] Existing Instance example_host.
#[local] Existing Instance example_generator.
#[local] Existing Instance example_lljit.

(** On the example platform the hasher separates the two canonical forms, and
    the renamed sequence gets another fingerprint than the original. *)
Lemma renamed_sequence_changes_fingerprint_witness :
  hash_string "1:v0,v1,;" <> hash_string "1:v2,v3,;" /\
  fst (fingerprint (snd (fingerprint statics_init sum_ab)) (rename_instr prefix_r <$> sum_ab))
  <> fst (fingerprint statics_init sum_ab).
Proof.
  assert (Hsep : hash_string "1:v0,v1,;" <> hash_string "1:v2,v3,;")
    by (vm_compute; discriminate).
  split; [exact Hsep |].
  apply (proj2 (proj2 (proj2 (renamed_sequence_changes_fingerprint (H := example_platform))))).
  exact Hsep.
Defined.

(** C2, refuted as stated. After 1000 cheap runs the candidacy test has set
    the profile of [result = a + b] to [INTERPRETER_ONLY]; a later
    [recordCompilation] with success moves it to [JIT_COMPILED], and one with
    failure followed by one with success moves it through [JIT_FAILED] to
    [JIT_COMPILED]. *)
Lemma final_status_overwritten :
  status_of world_cheap key_sum_ab = Some INTERPRETER_ONLY /\
  status_of (apply_op world_cheap (RecordCompilation expr_sum_ab true 5000000)) key_sum_ab
  = Some JIT_COMPILED /\
  status_of (apply_op world_cheap (RecordCompilation expr_sum_ab false 5000000)) key_sum_ab
  = Some JIT_FAILED /\
  status_of (run_ops world_cheap [RecordCompilation expr_sum_ab false 5000000;
                                  RecordCompilation expr_sum_ab true 5000000]) key_sum_ab
  = Some JIT_COMPILED.
Proof. split; [| split; [| split]]; vm_compute; reflexivity. Qed.

Lemma status_after_operation_witness :
  status_of world_cheap key_sum_ab = Some INTERPRETER_ONLY /\
  INTERPRETER_ONLY <> NOT_ANALYZED /\
  status_of (apply_op world_cheap (RecordExecution expr_sum_ab 20000 2000000000 2000000100))
            key_sum_ab = Some INTERPRETER_ONLY /\
  status_of (apply_op world_cheap (RecordCompilation expr_sum_ab false 5000000))
            key_sum_ab = Some JIT_FAILED.
Proof.
  assert (Hs : status_of world_cheap key_sum_ab = Some INTERPRETER_ONLY)
    by (vm_compute; reflexivity).
  assert (Hn : INTERPRETER_ONLY <> NOT_ANALYZED) by discriminate.
  split; [exact Hs |]. split; [exact Hn |]. split.
  - exact (status_after_operation world_cheap
             (RecordExecution expr_sum_ab 20000 2000000000 2000000100)
             key_sum_ab INTERPRETER_ONLY Hs Hn).
  - rewrite (status_after_operation world_cheap
               (RecordCompilation expr_sum_ab false 5000000)
               key_sum_ab INTERPRETER_ONLY Hs Hn).
    vm_compute. reflexivity.
Defined.

(** The 1000th expensive run of [result = a + b] makes it a candidate: the
    count reaches the threshold, the frequency and the average time are above
    theirs, and one operation is within the complexity bound. *)
Lemma candidacy_test_witness :
  status (profile_before world_warm expr_sum_ab) = NOT_ANALYZED /\
  status_of (recordExecution world_warm expr_sum_ab 20000 1000000000 1000000100) key_sum_ab
  = Some JIT_CANDIDATE.
Proof.
  assert (Hna : status (profile_before world_warm expr_sum_ab) = NOT_ANALYZED)
    by (vm_compute; reflexivity).
  split; [exact Hna |].
  destruct (candidacy_test world_warm expr_sum_ab 20000 1000000000 1000000100 Hna)
    as (s & Hs & _ & Hhigh).
  assert (Hk : fst (fingerprint (statics world_warm) (instructions expr_sum_ab)) = key_sum_ab)
    by (vm_compute; reflexivity).
  rewrite Hk in Hs. rewrite Hs. f_equal.
  set (p := record_run (profile_before world_warm expr_sum_ab) 20000 1000000000) in *.
  set (th := thresholds (profiler world_warm)) in *.
  assert (Hc : (min_execution_count th <=? execution_count p) = true)
    by (vm_compute; reflexivity).
  assert (Hf : Double.ltb (getExecutionFrequency p 1000000100) (min_execution_frequency th)
               = false) by (vm_compute; reflexivity).
  assert (Ha : Double.ltb (getAverageExecutionTime p) (min_avg_execution_time_ns th)
               = false) by (vm_compute; reflexivity).
  assert (Hm : (max_complexity th <? operation_count p) = false)
    by (vm_compute; reflexivity).
  apply Z.leb_le in Hc. apply Z.ltb_ge in Hm.
  apply Hhigh; [exact Hc |].
  intros [Hr | [Hr | Hr]]; [congruence | congruence | lia].
Defined.

(** C4, refuted as stated. The same five instructions, held by two contexts
    at the addresses 4096 and 8192, get two different cache keys; so do two
    ranges of one context that hold the same instructions. *)
Lemma same_code_different_key :
  range_ops loop_context 0 4 = range_ops loop_context 0 4 /\
  generateContextFingerprint 4096 loop_context 0 4
  <> generateContextFingerprint 8192 loop_context 0 4 /\
  range_code loop_context 0 1 = range_code loop_context 2 3 /\
  generateContextFingerprint 4096 loop_context 0 1
  <> generateContextFingerprint 4096 loop_context 2 3.
Proof.
  split; [reflexivity |]. split; [vm_compute; discriminate |].
  split; [vm_compute; reflexivity | vm_compute; discriminate].
Qed.



(** A range that the generator refuses, and an expression that reads an
    unbound variable: both calls fail and both caches stay empty. *)
Lemma failed_compile_keeps_cache_witness :
  (compileContextRange fresh_jit 4096 jump_first_context 0 4 (Double.lit 0.0)).1.1 = false /\
  compiledRegions_
    (compileContextRange fresh_jit 4096 jump_first_context 0 4 (Double.lit 0.0)).1.2 = ∅ /\
  (exists err,
     (MiniScriptJIT.compileExpression fresh_compiler unbound_expression "broken" 5).1.1
     = inl err) /\
  MiniScriptJIT.CompiledFunctions
    (MiniScriptJIT.compileExpression fresh_compiler unbound_expression "broken" 5).1.2 = ∅.
Proof.
  pose proof (failed_compile_keeps_cache
                fresh_jit 4096 jump_first_context 0 4 (Double.lit 0.0)
                fresh_compiler unbound_expression "broken" 5) as (Hkeep & Hfail & Hkeep' & Hfail').
  assert (Hfalse : (compileContextRange fresh_jit 4096 jump_first_context 0 4
                                        (Double.lit 0.0)).1.1 = false).
  { apply Hfail; [reflexivity | vm_compute; reflexivity | right; vm_compute; reflexivity]. }
  assert (Herr : exists err,
             (MiniScriptJIT.compileExpression fresh_compiler unbound_expression "broken" 5).1.1
             = inl err).
  { apply Hfail'; [reflexivity |]. left. eexists. vm_compute. reflexivity. }
  split; [exact Hfalse |]. split; [exact (Hkeep Hfalse) |].
  split; [exact Herr |]. destruct Herr as [err Herr]. exact (Hkeep' err Herr).
Defined.

(** Were [jit_] set, the window attempted could lie outside every loop: a
    dispatcher with [jit_] set, at line 2 of a context of 21 lines whose only
    backward jump is at line 20, attempts on its 51st step the window 0..12,
    which holds no backward jump. No machine the sources construct is in
    such a state. *)
Example attempt_without_loop_in_window :
  JITMachine.EvCompileContextRange 0 12 ∈
    (JITMachine.ExecuteWithJITOrFallback (machine_after 50) 4096
       far_loop_context far_loop_context' 0).2 /\
  ~ JITMachine.window_has_backward_jump far_loop_context' 0 12.
Proof.
  split.
  - vm_compute. right. left.
  - intros (i & line & Hl & Hr & Hb).
    do 13 (destruct i as [| i]; [cbn in Hl; injection Hl as <-; discriminate |]).
    lia.
Qed.

(** At line 2 of a cache with regions 0..4, 1..3 and 10..12 the call runs the
    region 0..4 and leaves the current line at 5. *)
Lemma executeJITOrFallback_runs_widest_witness :
  map_to_list three_regions ≡ₚ map_to_list (compiledRegions_ jit_three_regions) /\
  regions_have_functions (compiledRegions_ jit_three_regions) /\
  exists jit' evs,
    executeJITOrFallback jit_three_regions (map_to_list three_regions) 4096 2 (Double.lit 3.0)
    = (true, jit', 5, evs).
Proof.
  assert (Hperm : map_to_list three_regions ≡ₚ map_to_list (compiledRegions_ jit_three_regions))
    by reflexivity.
  assert (Hwf : regions_have_functions (compiledRegions_ jit_three_regions)).
  { intros k r Hk. cbn [compiledRegions_ jit_three_regions] in Hk. unfold three_regions in Hk.
    repeat (apply lookup_insert_Some in Hk as [[_ <-] | [_ Hk]]; [discriminate |]).
    rewrite lookup_empty in Hk. discriminate. }
  split; [exact Hperm |]. split; [exact Hwf |].
  pose proof (executeJITOrFallback_runs_widest jit_three_regions (map_to_list three_regions)
                4096 2 (Double.lit 3.0) Hperm Hwf) as Hrun.
  destruct (executeJITOrFallback _ _ _ _ _) as [[[ok jit'] line'] evs].
  destruct Hrun as (Hok & Hwide & _).
  assert (Hwide_in : compiledRegions_ jit_three_regions !! "wide" = Some (region_of 1 0 4 "wide"))
    by reflexivity.
  assert (Htrue : ok = true).
  { apply Hok. split; [| discriminate]. exists "wide", (region_of 1 0 4 "wide").
    split; [exact Hwide_in | unfold covers; cbn; lia]. }
  destruct (Hwide Htrue) as (k & r & Hk & Hcov & Hmax & _ & ->).
  specialize (Hmax _ _ Hwide_in ltac:(unfold covers; cbn; lia)).
  exists jit', evs. subst ok. f_equal. f_equal.
  cbn [compiledRegions_ jit_three_regions] in Hk. unfold three_regions in Hk.
  unfold span in Hmax.
  repeat (apply lookup_insert_Some in Hk as [[_ <-] | [_ Hk]];
          [first [reflexivity | cbn in Hmax; lia] |]).
  rewrite lookup_empty in Hk. discriminate.
Defined.

(** The profile of [result = a + b] keeps its operation count through a
    recorded compilation. *)
Lemma complexity_is_immutable_witness :
  profiles (profiler world_hot) !! key_sum_ab = Some profile_hot /\
  exists p',
    profiles (profiler (apply_op world_hot (RecordCompilation expr_sum_ab true 5000000)))
      !! key_sum_ab = Some p' /\
    operation_count p' = 1.
Proof.
  assert (Hp : profiles (profiler world_hot) !! key_sum_ab = Some profile_hot)
    by (vm_compute; reflexivity).
  split; [exact Hp |].
  destruct (complexity_is_immutable world_hot (RecordCompilation expr_sum_ab true 5000000)
              key_sum_ab profile_hot Hp) as (p' & Hp' & Hoc & _).
  exists p'. split; [exact Hp' | exact Hoc].
Defined.

End Examples.
(* ===================================================================== *)
(** * Worked examples for the further properties *)
(* ===================================================================== *)

Section MoreExamples.
#[local] Existing Instance example_platform.
#[local] Existing Instance example_host.
#[local] Existing Instance example_generator.
#[local] Existing Instance example_lljit.
#[local] Existing Instance example_libm.

(** Storing 7 under the key 3 of the dictionary of ten entries replaces the
    value 30; the key 4 keeps 40 and the count stays 10. *)
Lemma SetValue_then_Get_witness :
  Dictionary.Get hashInt (Dictionary.SetValue hashInt (filled 10) 3 7) 3 = Some 7 /\
  Dictionary.Get hashInt (Dictionary.SetValue hashInt (filled 10) 3 7) 4 = Some 40 /\
  Dictionary.Count (Dictionary.SetValue hashInt (filled 10) 3 7) = 10.
Proof.
  assert (Hrep : Dictionary.rep_t hashInt (filled 10)).
  { apply (rep_check_sound hashInt). vm_compute. reflexivity. }
  assert (Hsmall : Dictionary.small_table (filled 10)) by (vm_compute; discriminate).
  destruct (SetValue_then_Get hashInt (filled 10) 3 7 Hrep Hsmall) as (_ & Hget & Hcount).
  split; [rewrite Hget; reflexivity |].
  split; [rewrite Hget; vm_compute; reflexivity |].
  rewrite Hcount. vm_compute. reflexivity.
Defined.

(** Removing the key 3 from the dictionary of ten entries hands out 30 and
    leaves nine entries, the key 4 among them. *)
Lemma Remove_then_Get_witness :
  (Dictionary.Remove hashInt (filled 10) 3).1 = (true, Some 30) /\
  Dictionary.Get hashInt (Dictionary.Remove hashInt (filled 10) 3).2 3 = None /\
  Dictionary.Get hashInt (Dictionary.Remove hashInt (filled 10) 3).2 4 = Some 40 /\
  Dictionary.Count (Dictionary.Remove hashInt (filled 10) 3).2 = 9.
Proof.
  assert (Hrep : Dictionary.rep_t hashInt (filled 10)).
  { apply (rep_check_sound hashInt). vm_compute. reflexivity. }
  assert (Hsmall : Dictionary.small_table (filled 10)) by (vm_compute; discriminate).
  pose proof (Remove_then_Get hashInt (filled 10) 3 Hrep Hsmall) as Hrem.
  destruct (Dictionary.Remove hashInt (filled 10) 3) as [[found out] d'].
  destruct Hrem as (_ & Hfound & Hout & Hget & Hcount). cbn [fst snd].
  assert (Hf : found = true) by (rewrite Hfound; vm_compute; reflexivity).
  split; [rewrite Hf, Hout; vm_compute; reflexivity |].
  split; [rewrite Hget; reflexivity |].
  split; [rewrite Hget; vm_compute; reflexivity |].
  rewrite Hcount, Hf. vm_compute. reflexivity.
Defined.

(** After 200 insertions the table has grown to 503 bins: the key 5 is
    stored, in a bin beyond the first 251, and [Keys] does not list it; the
    key 0 sits in one of the first 251 bins and is listed. *)
Lemma Keys_lists_the_first_bins_witness :
  Dictionary.ContainsKey hashInt (filled 200) 5 = true /\
  (5 ∉ Dictionary.Keys (filled 200)) /\
  0 ∈ Dictionary.Keys (filled 200).
Proof.
  assert (Hrep : Dictionary.rep_t hashInt (filled 200)).
  { apply (rep_check_sound hashInt). vm_compute. reflexivity. }
  assert (Hsmall : Dictionary.small_table (filled 200)) by (vm_compute; discriminate).
  split; [vm_compute; reflexivity |]. split.
  - intros Hin.
    apply (proj1 (Keys_lists_the_first_bins hashInt (filled 200) 5 Hrep Hsmall)) in Hin
      as [_ Hbin].
    vm_compute in Hbin. discriminate.
  - apply (proj1 (Keys_lists_the_first_bins hashInt (filled 200) 0 Hrep Hsmall)).
    split; vm_compute; reflexivity.
Defined.

(** Iterating over the dictionary of 200 entries, whose table has grown to
    503 bins, visits the 90 entries of the first 251 bins. *)
Lemma iteration_visits_Keys_witness :
  length (DictIterator.visited 201 (DictIterator.GetIterator (filled 200))) = 90%nat /\
  Dictionary.Count (filled 200) = 200.
Proof.
  assert (Hrep : Dictionary.rep_t hashInt (filled 200)).
  { apply (rep_check_sound hashInt). vm_compute. reflexivity. }
  assert (Hfuel : Dictionary.Count (filled 200) < Z.of_nat 201) by (vm_compute; reflexivity).
  destruct (iteration_visits_Keys hashInt (filled 200) 201 Hrep Hfuel) as (Hkeys & _ & _).
  split; [| vm_compute; reflexivity].
  rewrite <- (length_fmap fst), Hkeys. vm_compute. reflexivity.
Defined.

Lemma hashUInt_injective_witness : hashUInt 1 <> hashUInt 2.
Proof. apply hashUInt_injective; lia. Defined.

Lemma table_size_round_trip_witness :
  DictInternal.GetNextTableSize 251 = 503 /\
  DictInternal.GetPrevTableSize (DictInternal.GetNextTableSize 16575841) = 16575841.
Proof.
  split; [reflexivity |].
  apply (table_size_round_trip 16575841). lia.
Defined.

(** After 51 dispatches in the context at 4096 a machine whose [jit_] is set
    considers that context, and not the one at 8192 with its 7 dispatches. *)
Lemma considered_after_fifty_dispatches_witness :
  JITMachine.ShouldConsiderJIT
    (JITMachineCalls.dispatch_all machine_with_jit fifty_one_dispatches) 4096 = true /\
  JITMachine.ShouldConsiderJIT
    (JITMachineCalls.dispatch_all machine_with_jit fifty_one_dispatches) 8192 = false.
Proof.
  assert (Hempty : JITMachine.contextExecutionCounts (JITMachine.profile_ machine_with_jit) = ∅)
    by reflexivity.
  split.
  - apply (proj2 (considered_after_fifty_dispatches machine_with_jit fifty_one_dispatches
                    4096 Hempty)).
    split; [reflexivity |]. split; [reflexivity |]. vm_compute. reflexivity.
  - destruct (JITMachine.ShouldConsiderJIT _ 8192) eqn:Hs; [| reflexivity].
    apply (proj2 (considered_after_fifty_dispatches machine_with_jit fifty_one_dispatches
                    8192 Hempty)) in Hs as (_ & _ & Hlt).
    vm_compute in Hlt. discriminate.
Defined.

(** [result = a + b * 2.5] compiled and run on (10.5, 7.3) gives what the
    interpreter gives. *)
Lemma compiled_value_is_interpreted_value_witness :
  exists v,
    MiniScriptJIT.generateLLVMIR createSimple = inr v /\
    eval_value (padded_args [Double.lit 10.5; Double.lit 7.3]) v
    = InterpreterSimulator.executeExpression createSimple [Double.lit 10.5; Double.lit 7.3].
Proof.
  eexists. split; [vm_compute; reflexivity |].
  apply (compiled_value_is_interpreted_value createSimple _ [Double.lit 10.5; Double.lit 7.3]).
  - vm_compute. reflexivity.
  - reflexivity.
  - cbn. lia.
Defined.

(** One compilation on a new compiler: one function cached, one counted. *)
Lemma compilation_count_is_cache_size_witness :
  MiniScriptJIT.CompilationCount
    (MiniScriptJIT.compileExpression fresh_compiler createSimple "simple_expr" 7).1.2 = 1.
Proof.
  rewrite (compilation_count_is_cache_size fresh_compiler
             (MiniScriptJIT.compileExpression fresh_compiler createSimple "simple_expr" 7).1.2).
  - vm_compute. reflexivity.
  - vm_compute. reflexivity.
  - apply rtc_once. apply step_compileExpression.
Defined.

(** The complex benchmark expression divides by 3.14159 only: the two
    evaluators agree on the benchmark arguments. A quotient by b - b is 0.0
    in the optimized evaluator and an infinity in the interpreter; the
    reciprocal of that quotient is 0.0 in both. *)
Lemma evaluateOptimized_agrees_without_zero_divisor_witness :
  ExpressionNode.evaluateOptimized ExpressionNode.createComplexExpression
    (Double.lit 10.5) (Double.lit 7.3) (Double.lit 15.2) (Double.lit 4.8)
  = ExpressionNode.interpret ExpressionNode.createComplexExpression
      (Double.lit 10.5) (Double.lit 7.3) (Double.lit 15.2) (Double.lit 4.8) /\
  ExpressionNode.evaluateOptimized quotient_by_zero
    (Double.lit 10.5) (Double.lit 7.3) (Double.lit 15.2) (Double.lit 4.8)
  <> ExpressionNode.interpret quotient_by_zero
       (Double.lit 10.5) (Double.lit 7.3) (Double.lit 15.2) (Double.lit 4.8) /\
  ExpressionNode.interpret quotient_by_zero
    (Double.lit 10.5) (Double.lit 7.3) (Double.lit 15.2) (Double.lit 4.8)
  = S754_infinity false /\
  ExpressionNode.evaluateOptimized reciprocal_of_quotient_by_zero
    (Double.lit 10.5) (Double.lit 7.3) (Double.lit 15.2) (Double.lit 4.8)
  = ExpressionNode.interpret reciprocal_of_quotient_by_zero
      (Double.lit 10.5) (Double.lit 7.3) (Double.lit 15.2) (Double.lit 4.8).
Proof.
  split; [| split; [| split]].
  - apply (proj1 (evaluateOptimized_agrees_without_zero_divisor
                    ExpressionNode.createComplexExpression
                    (Double.lit 10.5) (Double.lit 7.3) (Double.lit 15.2) (Double.lit 4.8))).
    cbn. repeat split; try discriminate; intros _; vm_compute; reflexivity.
  - apply (proj2 (evaluateOptimized_agrees_without_zero_divisor quotient_by_zero
                    (Double.lit 10.5) (Double.lit 7.3) (Double.lit 15.2) (Double.lit 4.8))
             _ _ eq_refl); vm_compute; reflexivity.
  - vm_compute. reflexivity.
  - vm_compute. reflexivity.
Defined.

Lemma executeBytecode_runs_postfix_witness :
  BytecodeJIT.postfix ExpressionNode.createSimpleExpression
  = Some BytecodeJIT.simple_bytecode /\
  BytecodeJIT.evaluateSimple
    (Double.lit 10.5) (Double.lit 7.3) (Double.lit 15.2) (Double.lit 4.8)
  = Some (ExpressionNode.interpret ExpressionNode.createSimpleExpression
            (Double.lit 10.5) (Double.lit 7.3) (Double.lit 15.2) (Double.lit 4.8)).
Proof.
  assert (Hcode : BytecodeJIT.postfix ExpressionNode.createSimpleExpression
                  = Some BytecodeJIT.simple_bytecode) by reflexivity.
  split; [exact Hcode |].
  apply (executeBytecode_runs_postfix ExpressionNode.createSimpleExpression).
  - exact Hcode.
  - cbn. lia.
Defined.

Lemma convertOperation_on_compilable_witness :
  JITIntegration.convertOperation TACLine.GotoAifB
  = JITIntegration.convertOperation TACLine.AssignA /\
  JITIntegration.convertOperation TACLine.APlusB
  <> JITIntegration.convertOperation TACLine.AMinusB.
Proof.
  split.
  - apply (convertOperation_on_compilable TACLine.GotoAifB TACLine.AssignA);
      [reflexivity | reflexivity |].
    right. right. split; reflexivity.
  - intros Heq.
    apply (convertOperation_on_compilable TACLine.APlusB TACLine.AMinusB) in Heq
      as [Heq | [[Heq _] | [Heq _]]]; [discriminate.. | reflexivity | reflexivity].
Defined.

(** After 64 allocations the first block is full: the next entry is the
    first of a second block. *)
Lemma allocate_hands_out_a_free_entry_witness :
  (SimplePool.allocate (pool_after 64)).1 = Some (1%nat, 0%nat) /\
  exists ptr : SimplePool.Ptr,
    (SimplePool.allocate (pool_after 64)).1 = Some ptr /\
    SimplePool.allocated (pool_after 64) ptr = false.
Proof.
  assert (Hok : SimplePool.ok (pool_after 64)) by (vm_compute; repeat constructor).
  split; [vm_compute; reflexivity |].
  destruct (allocate_hands_out_a_free_entry (pool_after 64) Hok)
    as (ptr & Hptr & Hfree & _).
  exists ptr. split; [exact Hptr | exact Hfree].
Defined.

(** Giving back the second of three entries. *)
Lemma deallocate_gives_the_entry_back_witness :
  SimplePool.allocated
    (SimplePool.deallocate (pool_after 3) (Some (0%nat, 1%nat))) (0%nat, 1%nat) = false /\
  SimplePool.allocated
    (SimplePool.deallocate (pool_after 3) (Some (0%nat, 1%nat))) (0%nat, 2%nat) = true.
Proof.
  assert (Hok : SimplePool.ok (pool_after 3)) by (vm_compute; repeat constructor).
  destruct (deallocate_gives_the_entry_back (pool_after 3) (0%nat, 1%nat)
              Hok eq_refl) as (_ & Hgone & Hothers & _).
  split; [exact Hgone |]. rewrite Hothers by discriminate. reflexivity.
Defined.

(** Why [deallocate] wants an entry in use: an entry of a full block given
    back twice leaves [used_count] at 62 with one slot free; after the next
    allocation the block counts 63 but has no free slot, and [allocate]
    returns [nullptr]. *)
Example deallocate_twice_then_allocate :
  let p := SimplePool.deallocate
             (SimplePool.deallocate (pool_after 64) (Some (0%nat, 0%nat)))
             (Some (0%nat, 0%nat)) in
  (SimplePool.allocate p).1 = Some (0%nat, 0%nat) /\
  (SimplePool.allocate (SimplePool.allocate p).2).1 = None.
Proof. vm_compute. split; reflexivity. Qed.


(** A machine as constructed stepping through the loop, on an empty stack,
    and on stacks whose top context has finished: a context is done here
    when its line is past its code. *)
Lemma derived_machine_only_interprets_witness :
  (RuntimeJITMachine.calls example_Done (RuntimeJITMachine.constructed 0) four_steps).2
  = [RuntimeJITMachine.EvDoOneLine 0; RuntimeJITMachine.EvDoOneLine 0] /\
  totalInstructions
    (stats_ (RuntimeJITMachine.core
               (RuntimeJITMachine.runtimeJIT_
                  (RuntimeJITMachine.calls example_Done (RuntimeJITMachine.constructed 0)
                     four_steps).1))) = 2.
Proof.
  pose proof (derived_machine_only_interprets example_Done 0 four_steps)
    as (Hevs & _ & _ & Htotal & _).
  split; [rewrite Hevs; reflexivity | rewrite Htotal; reflexivity].
Defined.

(** Two threads that call [compileContextRange] for the loop on one new
    [RuntimeJIT]. When both look up before either stores, the generator is
    called twice, both return [true], and the region stored by the first
    (function 1, 120 microseconds) is replaced by that of the second
    (function 2, 80 microseconds), while the statistics count both. When the
    second enters after the first has returned, the generator is called
    once. *)
Lemma racing_callers_each_compile_witness :
  generator_calls two_racing_callers.2 = 2%nat /\
  Interleaved.position <$> two_racing_callers.1.2
  = [Interleaved.Finished true; Interleaved.Finished true] /\
  (function <$> (compiledRegions_ two_racing_callers.1.1
                 !! generateContextFingerprint 4096 loop_context 0 4),
   compilationTime <$> (compiledRegions_ two_racing_callers.1.1
                        !! generateContextFingerprint 4096 loop_context 0 4))
  = (Some (Some 2), Some (Double.lit 80.0)) /\
  size (compiledRegions_ two_racing_callers.1.1) = 1%nat /\
  jitCompiledInstructions (stats_ two_racing_callers.1.1) = 10 /\
  generator_calls two_callers_in_turn.2 = 1%nat /\
  Interleaved.position <$> two_callers_in_turn.1.2
  = [Interleaved.Finished true; Interleaved.Finished true].
Proof.
  split.
  { exact (proj1 (racing_callers_each_compile fresh_jit 4096 loop_context 0 4
                    [Double.lit 120.0; Double.lit 80.0] eq_refl eq_refl)). }
  vm_compute. repeat split; reflexivity.
Defined.

End MoreExamples.
